(** * Mikey-Portfolio: the 3D background's per-frame logic

    A shallow embedding of the input hooks ([useMousePosition],
    [useScrollProgress]), the particle generator, the quality detection and
    post-processing selection, the energy core's frame callback and the
    scene's camera and fade callbacks, followed by the properties the
    specification states about them. The scene's other frame callbacks
    (floating objects, lighting, particle field), its WebGL check, the
    scroll easing and the cursor ring are embedded as well, with the
    properties their code shows.

    JavaScript numbers are modelled as real numbers: every arithmetic
    operation is the exact one, [Math.pow] is [Rpower], [Math.sin] is [sin];
    the rounding of IEEE doubles is not modelled. A store into a
    [Float32Array] narrows the number to binary32, and that rounding is
    modelled ([Float32.fround]). *)

From Stdlib Require Import Reals Lra Lia ZArith List Bool String Ascii.
From stdpp Require Import base list.

Open Scope R_scope.

(* ===================================================================== *)
(** ** The [Math] object *)
(* ===================================================================== *)

Module JS.

Definition Math_min (a b : R) : R := Rmin a b.
Definition Math_max (a b : R) : R := Rmax a b.
Definition Math_abs (a : R) : R := Rabs a.
Definition Math_sqrt (a : R) : R := sqrt a.
Definition Math_sin (a : R) : R := sin a.
Definition Math_cos (a : R) : R := cos a.
Definition Math_acos (a : R) : R := acos a.
Definition Math_PI : R := PI.

(** [Math.floor]: the greatest integer below the argument. *)
Definition Math_floor (a : R) : R := IZR (Int_part a).

(** [Math.pow] on a non-negative base (the only bases this program uses):
    [Rpower] for a positive base, and [0 ** e] is [0] for a positive
    exponent, [1] for the exponent [0]. *)
Definition Math_pow (b e : R) : R :=
  if Rlt_dec 0 b then Rpower b e
  else if Rlt_dec 0 e then 0 else 1.

(** Comparisons as booleans, for [&&] and [||] conditions. *)
Definition ltb (a b : R) : bool := if Rlt_dec a b then true else false.
Definition geb (a b : R) : bool := if Rge_dec a b then true else false.

End JS.

(* ===================================================================== *)
(** ** Binary32: the narrowing of a store into a [Float32Array] *)
(* ===================================================================== *)

(** A store into a [Float32Array] cell rounds the number to the nearest
    binary32 value, ties to even. Magnitudes of [2 ^ 128] or more (stored
    as [Infinity]) and [NaN] do not occur in this program. *)
Module Float32.

(** The nearest integer, ties to the even one. *)
Definition rne (y : R) : Z :=
  let f := Int_part y in
  let d := y - IZR f in
  if Rlt_dec d (1 / 2) then f
  else if Rlt_dec (1 / 2) d then (f + 1)%Z
  else if Z.even f then f else (f + 1)%Z.

(** The search for the exponent: the first of [e], [e - 1], ...,
    [e - n + 1] whose power of two is at most [a], else [e - n]. *)
Fixpoint exponent_from (n : nat) (e : Z) (a : R) : Z :=
  match n with
  | O => e
  | S n' => if Rle_dec (powerRZ 2 e) a then e else exponent_from n' (e - 1) a
  end.

(** The exponent of the binade of [x]: the largest [e] in [[-126, 127]]
    with [2 ^ e <= |x|], and [-126] for the subnormal numbers. *)
Definition exponent (x : R) : Z := exponent_from 253 127 (Rabs x).

(** The spacing of the binary32 values around [x]: 24 significant bits. *)
Definition ulp (x : R) : R := powerRZ 2 (exponent x - 23).

(** [Math.fround]: the binary32 value nearest to [x]. *)
Definition fround (x : R) : R := IZR (rne (x / ulp x)) * ulp x.

End Float32.

(* ===================================================================== *)
(** ** Input hooks: pointer, scroll, viewport breakpoint *)
(* ===================================================================== *)

Module Hooks.
Import JS.

Record MouseEvent := { clientX : R; clientY : R }.

(** The parts of [window] and [document.documentElement] the hooks read. *)
Record Window := {
  innerWidth : R;
  innerHeight : R;
  scrollY : R;
  scrollHeight : R
}.

Record MousePosition := {
  x : R;
  y : R;
  normalizedX : R;
  normalizedY : R
}.

(** The initial state of [useMousePosition]. *)
Definition initialPosition : MousePosition :=
  {| x := 0; y := 0; normalizedX := 0; normalizedY := 0 |}.

(** The value [handleMouseMove] passes to [setPosition]. *)
Definition handleMouseMove (window : Window) (e : MouseEvent) : MousePosition :=
  {| x := clientX e;
     y := clientY e;
     normalizedX := (clientX e / innerWidth window) * 2 - 1;
     normalizedY := - (clientY e / innerHeight window) * 2 + 1 |}.

(** [useMousePosition]: the state after a sequence of [mousemove] events,
    each handled in the window as it is at that moment. *)
Definition useMousePosition (events : list (Window * MouseEvent)) : MousePosition :=
  fold_left (fun _ we => handleMouseMove (fst we) (snd we)) events initialPosition.

(** The value [handleScroll] passes to [setProgress]. *)
Definition handleScroll (window : Window) : R :=
  let scrollTop := scrollY window in
  let docHeight := scrollHeight window - innerHeight window in
  let scrollPercent :=
    if Rgt_dec docHeight 0 then scrollTop / docHeight else 0 in
  Math_min (Math_max scrollPercent 0) 1.

(** [useScrollProgress]: [handleScroll] runs once at mount and then on
    every scroll event; the hook returns the last value set. *)
Definition useScrollProgress (mount : Window) (scrolls : list Window) : R :=
  fold_left (fun _ w => handleScroll w) scrolls (handleScroll mount).

(** [useMobile]: the check run at mount and on resize. *)
Definition useMobile (breakpoint : R) (window : Window) : bool :=
  if Rle_dec (innerWidth window) breakpoint then true else false.

End Hooks.

(* ===================================================================== *)
(** ** Regular expressions of the device sniffing *)
(* ===================================================================== *)

(** [RegExp.prototype.test] for the two patterns of the program: an
    alternation of sequences of literal characters and character ranges,
    searched anywhere in the subject, with the [i] flag. *)
Module RegExp.

Inductive atom := Chr (c : ascii) | Range (lo hi : ascii).

Definition lit (s : string) : list atom := map Chr (list_ascii_of_string s).

Definition to_lower (c : ascii) : ascii :=
  let n := nat_of_ascii c in
  if Nat.leb 65 n && Nat.leb n 90 then ascii_of_nat (n + 32) else c.

Definition to_upper (c : ascii) : ascii :=
  let n := nat_of_ascii c in
  if Nat.leb 97 n && Nat.leb n 122 then ascii_of_nat (n - 32) else c.

Definition in_range (lo hi c : ascii) : bool :=
  Nat.leb (nat_of_ascii lo) (nat_of_ascii c) && Nat.leb (nat_of_ascii c) (nat_of_ascii hi).

(** One pattern character against one subject character, ignoring case. *)
Definition atom_test (a : atom) (c : ascii) : bool :=
  match a with
  | Chr l => Ascii.eqb (to_lower l) (to_lower c)
  | Range lo hi => in_range lo hi (to_lower c) || in_range lo hi (to_upper c)
  end.

Fixpoint starts_with (p : list atom) (s : string) : bool :=
  match p, s with
  | [], _ => true
  | a :: p', String c s' => atom_test a c && starts_with p' s'
  | _ :: _, EmptyString => false
  end.

Fixpoint search (p : list atom) (s : string) : bool :=
  starts_with p s ||
  match s with
  | EmptyString => false
  | String _ s' => search p s'
  end.

Definition test (alternatives : list (list atom)) (s : string) : bool :=
  existsb (fun p => search p s) alternatives.

(** [/Android|webOS|iPhone|iPad|iPod|BlackBerry|IEMobile|Opera Mini/i] *)
Definition mobilePattern : list (list atom) :=
  [ lit "Android"; lit "webOS"; lit "iPhone"; lit "iPad"; lit "iPod";
    lit "BlackBerry"; lit "IEMobile"; lit "Opera Mini" ].

(** [/RTX|GTX|Radeon RX|Apple M[1-3]/i] *)
Definition highEndPattern : list (list atom) :=
  [ lit "RTX"; lit "GTX"; lit "Radeon RX";
    lit "Apple M" ++ [Range "1"%char "3"%char] ].

End RegExp.

(* ===================================================================== *)
(** ** The browser environment seen by the quality detection *)
(* ===================================================================== *)

Module Device.

(** The outcome of a call that may throw. *)
Inductive result (A : Type) : Type :=
| Ok (a : A)
| Throw.
Arguments Ok {A} a.
Arguments Throw {A}.

Definition bind {A B : Type} (r : result A) (k : A -> result B) : result B :=
  match r with
  | Ok a => k a
  | Throw => Throw
  end.

(** The [WEBGL_debug_renderer_info] extension object. *)
Record DebugInfo := { UNMASKED_RENDERER_WEBGL : N }.

Record WebGLContext := {
  getExtension : string -> result (option DebugInfo);
  getParameter : N -> result string
}.

(** The [gl] of [useThree()]. *)
Record WebGLRenderer := {
  getPixelRatio : R;
  getContext : result WebGLContext
}.

(** [navigator_userAgent] is [None] where [typeof window] is
    ['undefined']. *)
Record Env := {
  navigator_userAgent : option string;
  gl : WebGLRenderer
}.

End Device.

Declare Scope result_scope.
Delimit Scope result_scope with result.
Notation "'call' x <- r 'in' k" := (Device.bind r (fun x => k))
  (at level 10, x name, r at level 100, k at level 200) : result_scope.

(* ===================================================================== *)
(** ** [Math.random] as a state monad *)
(* ===================================================================== *)

(** The generator is an oracle [rnd] giving the value of the [n]-th call;
    the state is the number of calls made so far. *)
Module Random.

Definition Rand (A : Type) : Type := (nat -> R) -> nat -> A * nat.

Definition ret {A : Type} (a : A) : Rand A := fun _ n => (a, n).

Definition bind {A B : Type} (m : Rand A) (k : A -> Rand B) : Rand B :=
  fun rnd n => let (a, n') := m rnd n in k a rnd n'.

Definition Math_random : Rand R := fun rnd n => (rnd n, S n).

(** [for (let i = start; i < start + n; i++) body], threading the loop's
    variables [s] through the iterations. *)
Fixpoint for_loop {S : Type} (n : nat) (i : nat) (body : nat -> S -> Rand S) (s : S) : Rand S :=
  match n with
  | O => ret s
  | Datatypes.S n' => bind (body i s) (for_loop n' (Datatypes.S i) body)
  end.

End Random.

Declare Scope rand_scope.
Delimit Scope rand_scope with rand.
Notation "'let*' x ':=' m 'in' k" := (Random.bind m (fun x => k))
  (at level 10, x name, m at level 100, k at level 200) : rand_scope.
Notation "'let*' ' p ':=' m 'in' k" := (Random.bind m (fun x => let p := x in k))
  (at level 10, p pattern, m at level 100, k at level 200) : rand_scope.

(* ===================================================================== *)
(** ** Particles: adaptive count and position generation *)
(* ===================================================================== *)

Module Particles.
Import JS Device Random.

(** [ParticlesProps['quality']] *)
Inductive Quality := low | medium | high.

(** [ParticlesProps['pattern']] *)
Inductive Pattern := sphere | galaxy | cube | cylinder.

(** [useAdaptiveCount]: the body of the memo. *)
Definition useAdaptiveCount (baseCount : R) (quality : option Quality) (env : Env) : R :=
  match quality with
  | Some low => Math_floor (baseCount * 0.3)
  | Some medium => Math_floor (baseCount * 0.6)
  | Some high => baseCount
  | None =>
      let isMobile :=
        match navigator_userAgent env with
        | Some userAgent => RegExp.test RegExp.mobilePattern userAgent
        | None => false
        end in
      let pixelRatio := getPixelRatio (gl env) in
      if isMobile || ltb pixelRatio 1.5 then Math_floor (baseCount * 0.3)
      else if ltb pixelRatio 2 then Math_floor (baseCount * 0.6)
      else baseCount
  end.

(** The three typed arrays [generatePositions] returns. *)
Record Buffers := {
  positions : list R;
  velocities : list R;
  randoms : list R
}.

(** [new Float32Array(n)]: [n] binary32 cells holding [0]. *)
Definition Float32Array (n : nat) : list R := replicate n 0.

(** [array[i] = v] on a [Float32Array]: the cell takes the binary32 value
    nearest to [v]; a store past the end of a typed array is ignored. *)
Definition store (array : list R) (i : nat) (v : R) : list R :=
  <[i := Float32.fround v]> array.

(** The [switch (pattern)] of the loop body: the coordinates of one
    particle. *)
Definition point (pattern : Pattern) : Rand (R * R * R) :=
  (match pattern with
   | galaxy =>
       let* r0 := Math_random in
       let arm := Math_floor (r0 * 3) in
       let armAngle := (arm * Math_PI * 2) / 3 in
       let* r1 := Math_random in
       let distance := 5 + Math_pow r1 0.5 * 30 in
       let* r2 := Math_random in
       let angle := armAngle + (distance * 0.15) + (r2 - 0.5) * 0.5 in
       let* r3 := Math_random in
       let height := (r3 - 0.5) * (3 / (1 + distance * 0.1)) in
       ret (Math_cos angle * distance, height * 3, Math_sin angle * distance)
   | cube =>
       let* r0 := Math_random in
       let edge := ltb r0 0.3 in
       let size := 25 in
       if edge then
         let* r1 := Math_random in
         let face := Math_floor (r1 * 6) in
         let* r2 := Math_random in
         let x := (r2 - 0.5) * size * 2 in
         let* r3 := Math_random in
         let y := (r3 - 0.5) * size * 2 in
         let* r4 := Math_random in
         let z := (r4 - 0.5) * size * 2 in
         if ltb face 2 then
           ret ((if Req_dec_T face 0 then -1 else 1) * size, y, z)
         else if ltb face 4 then
           ret (x, (if Req_dec_T face 2 then -1 else 1) * size, z)
         else
           ret (x, y, (if Req_dec_T face 4 then -1 else 1) * size)
       else
         let* r1 := Math_random in
         let x := (r1 - 0.5) * size * 2 in
         let* r2 := Math_random in
         let y := (r2 - 0.5) * size * 2 in
         let* r3 := Math_random in
         let z := (r3 - 0.5) * size * 2 in
         ret (x, y, z)
   | cylinder =>
       let* r0 := Math_random in
       let radius := 10 + r0 * 20 in
       let* r1 := Math_random in
       let theta := r1 * Math_PI * 2 in
       let* r2 := Math_random in
       let height := (r2 - 0.5) * 40 in
       ret (radius * Math_cos theta, height, radius * Math_sin theta)
   | sphere =>
       let* r0 := Math_random in
       let radius := 15 + r0 * 25 in
       let* r1 := Math_random in
       let theta := r1 * Math_PI * 2 in
       let* r2 := Math_random in
       let phi := Math_acos (2 * r2 - 1) in
       ret (radius * Math_sin phi * Math_cos theta,
            radius * Math_sin phi * Math_sin theta,
            radius * Math_cos phi)
   end)%rand.

(** One iteration of the [for] loop: the particle [i], its ten stores in
    the order of the source. *)
Definition iteration (pattern : Pattern) (i : nat) (b : Buffers) : Rand Buffers :=
  (let i3 := (i * 3)%nat in
   let i4 := (i * 4)%nat in
   let* p := point pattern in
   let '(x, y, z) := p in
   let positions := store (positions b) i3 x in
   let positions := store positions (i3 + 1) y in
   let positions := store positions (i3 + 2) z in
   let* v0 := Math_random in
   let velocities := store (velocities b) i3 ((v0 - 0.5) * 0.02) in
   let* v1 := Math_random in
   let velocities := store velocities (i3 + 1) ((v1 - 0.5) * 0.02) in
   let* v2 := Math_random in
   let velocities := store velocities (i3 + 2) ((v2 - 0.5) * 0.02) in
   let* a0 := Math_random in
   let randoms := store (randoms b) i4 (a0 * 2 + 0.5) in
   let* a1 := Math_random in
   let randoms := store randoms (i4 + 1) (a1 * 2 + 0.5) in
   let* a2 := Math_random in
   let randoms := store randoms (i4 + 2) (a2 * Math_PI * 2) in
   let* a3 := Math_random in
   let randoms := store randoms (i4 + 3) (a3 * 0.5 + 0.5) in
   ret {| positions := positions; velocities := velocities; randoms := randoms |})%rand.

(** [generatePositions(count, pattern)] *)
Definition generatePositions (count : nat) (pattern : Pattern) : Rand Buffers :=
  for_loop count 0 (iteration pattern)
    {| positions := Float32Array (count * 3);
       velocities := Float32Array (count * 3);
       randoms := Float32Array (count * 4) |}.

(** [ParticlesProps], without the colours and the shader's multipliers. *)
Record Props := {
  p_count : option R;
  p_pattern : option Pattern;
  p_quality : option Quality
}.

(** The arguments with which the [Particles] component calls
    [generatePositions]: the adaptive count and the pattern. *)
Definition generateArguments (props : Props) (env : Env) : R * Pattern :=
  let count := default 2000 (p_count props) in
  let pattern := default sphere (p_pattern props) in
  let adaptiveCount := useAdaptiveCount count (p_quality props) env in
  (adaptiveCount, pattern).

(** The distance from the origin of the particle [i] of a positions
    array. *)
Definition distance (positions : list R) (i : nat) : option R :=
  match positions !! (i * 3)%nat, positions !! (i * 3 + 1)%nat, positions !! (i * 3 + 2)%nat with
  | Some x, Some y, Some z => Some (Math_sqrt (x * x + y * y + z * z))
  | _, _, _ => None
  end.

(** The fields of the [<points>] object the frame callback writes. *)
Record Points := {
  rotation_x : R;
  rotation_y : R
}.

(** What the frame callback of [Particles] writes: the shader's time
    uniform and the object behind [meshRef] ([None] while it is [null]). *)
Record FrameState := {
  uTime : R;
  meshRef : option Points
}.

(** The callback [Particles] passes to [useFrame], for the [speed] prop. *)
Definition frame (speed : R) (time delta : R) (s : FrameState) : FrameState :=
  {| uTime := time;
     meshRef :=
       option_map
         (fun mesh =>
            {| rotation_x := Math_sin (time * 0.01 * speed) * 0.1;
               rotation_y := rotation_y mesh + delta * 0.015 * speed |})
         (meshRef s) |}.

(** A run of frames, each given as the clock's elapsed time and the
    frame's duration. *)
Definition run (speed : R) (frames : list (R * R)) (s : FrameState) : FrameState :=
  fold_left (fun s td => frame speed (fst td) (snd td) s) frames s.

End Particles.

(* ===================================================================== *)
(** ** PostProcessing: quality detection and pipeline selection *)
(* ===================================================================== *)

Module PostProcessing.
Import JS Device.

Inductive QualityLevel := low | medium | high | ultra.

Inductive SMAAPreset := SMAA_LOW | SMAA_MEDIUM | SMAA_HIGH | SMAA_ULTRA.

Record QualityPreset := {
  multisampling : nat;
  bloomMipmapBlur : bool;
  bloomKernelSize : nat;
  smaaPreset : SMAAPreset;
  enableNoise : bool;
  enableAberration : bool;
  bloomIntensity : R;
  bloomLuminanceThreshold : R;
  bloomLuminanceSmoothing : R;
  bloomLevels : nat
}.

(** The [try] block of [useDeviceQuality]: [Ok (Some t)] is a [return t]
    inside the block, [Ok None] is reaching its end, [Throw] an exception
    raised by one of the three WebGL calls. *)
Definition introspect (gl : WebGLRenderer) (pixelRatio : R) : result (option QualityLevel) :=
  (call renderer <- getContext gl in
   call debugInfo <- getExtension renderer "WEBGL_debug_renderer_info" in
   match debugInfo with
   | Some info =>
       call gpuRenderer <- getParameter renderer (UNMASKED_RENDERER_WEBGL info) in
       let isHighEndGPU := RegExp.test RegExp.highEndPattern gpuRenderer in
       if isHighEndGPU && geb pixelRatio 2 then Ok (Some ultra) else Ok None
   | None => Ok None
   end)%result.

(** [useDeviceQuality]: the body of the memo. *)
Definition useDeviceQuality (env : Env) : QualityLevel :=
  match navigator_userAgent env with
  | None => medium
  | Some userAgent =>
      let isMobile := RegExp.test RegExp.mobilePattern userAgent in
      let pixelRatio := getPixelRatio (gl env) in
      match introspect (gl env) pixelRatio with
      | Ok (Some tier) => tier
      | Ok None | Throw =>
          (* the catch block is empty: control continues after the try *)
          if isMobile then low
          else if ltb pixelRatio 1.5 then low
          else if geb pixelRatio 2 then high
          else medium
      end
  end.

Definition qualityPresets (q : QualityLevel) : QualityPreset :=
  match q with
  | low =>
      {| multisampling := 0; bloomMipmapBlur := false; bloomKernelSize := 2;
         smaaPreset := SMAA_LOW; enableNoise := false; enableAberration := false;
         bloomIntensity := 1.0; bloomLuminanceThreshold := 0.4;
         bloomLuminanceSmoothing := 0.7; bloomLevels := 5 |}
  | medium =>
      {| multisampling := 0; bloomMipmapBlur := true; bloomKernelSize := 3;
         smaaPreset := SMAA_MEDIUM; enableNoise := false; enableAberration := true;
         bloomIntensity := 1.2; bloomLuminanceThreshold := 0.3;
         bloomLuminanceSmoothing := 0.8; bloomLevels := 5 |}
  | high =>
      {| multisampling := 0; bloomMipmapBlur := true; bloomKernelSize := 4;
         smaaPreset := SMAA_HIGH; enableNoise := true; enableAberration := true;
         bloomIntensity := 1.5; bloomLuminanceThreshold := 0.2;
         bloomLuminanceSmoothing := 0.9; bloomLevels := 7 |}
  | ultra =>
      {| multisampling := 4; bloomMipmapBlur := true; bloomKernelSize := 5;
         smaaPreset := SMAA_ULTRA; enableNoise := true; enableAberration := true;
         bloomIntensity := 1.8; bloomLuminanceThreshold := 0.15;
         bloomLuminanceSmoothing := 0.95; bloomLevels := 9 |}
  end.

(** The effect elements a composer can hold, with the props that vary. *)
Inductive Effect :=
| SMAA (preset : SMAAPreset)
| Bloom (intensity luminanceThreshold luminanceSmoothing : R)
        (mipmapBlur : bool) (levels : option nat)
| ChromaticAberration (offset : R * R)
| ToneMapping
| BrightnessContrast (brightness contrast : R)
| HueSaturation (hue saturation : R)
| Vignette (offset darkness : R)
| Noise (opacity : R).

Record EffectComposer := {
  composer_multisampling : nat;
  passes : list Effect
}.

Definition FullPostProcessing
    (preset : QualityPreset)
    (enableAA enableBloom enableAberration enableVignette enableNoise
       enableColorGrading : bool)
    (computedBloomIntensity computedVignetteDarkness computedNoiseOpacity : R)
    (aberrationOffset : R * R) (intensity : R) : EffectComposer :=
  {| composer_multisampling := multisampling preset;
     passes :=
       [ SMAA (if enableAA then smaaPreset preset else SMAA_LOW);
         Bloom (if enableBloom then computedBloomIntensity else 0)
               (bloomLuminanceThreshold preset)
               (bloomLuminanceSmoothing preset)
               (bloomMipmapBlur preset)
               (Some (bloomLevels preset));
         ChromaticAberration
           (if enableAberration && PostProcessing.enableAberration preset
            then aberrationOffset else (0, 0));
         ToneMapping;
         BrightnessContrast
           (if enableColorGrading then 0.02 * intensity else 0)
           (if enableColorGrading then 0.1 * intensity else 0);
         HueSaturation 0 (if enableColorGrading then 0.15 * intensity else 0);
         Vignette 0.3 (if enableVignette then computedVignetteDarkness else 0);
         Noise (if enableNoise && PostProcessing.enableNoise preset
                then computedNoiseOpacity else 0) ] |}.

Definition MinimalPostProcessing (bloomIntensity vignetteDarkness : R) : EffectComposer :=
  {| composer_multisampling := 0;
     passes :=
       [ Bloom bloomIntensity 0.4 0.7 false None;
         Vignette 0.3 vignetteDarkness ] |}.

(** [PostProcessingProps]; an absent prop is [None]. *)
Record Props := {
  quality : option QualityLevel;
  p_enableBloom : option bool;
  p_enableAberration : option bool;
  p_enableVignette : option bool;
  p_enableNoise : option bool;
  p_enableAA : option bool;
  p_enableColorGrading : option bool;
  p_bloomIntensity : option R;
  aberrationStrength : option R;
  vignetteDarkness : option R;
  noiseOpacity : option R;
  p_intensity : option R;
  animated : option bool;
  mouseX : option R;
  mouseY : option R
}.

(** [PostProcessing]: the element rendered, given the environment read by
    [useDeviceQuality] and the current value of [timeRef]. *)
Definition PostProcessing (props : Props) (env : Env) (timeRef : R) : EffectComposer :=
  let forcedQuality := quality props in
  let enableBloom := default true (p_enableBloom props) in
  let enableAberration := default true (p_enableAberration props) in
  let enableVignette := default true (p_enableVignette props) in
  let enableAA := default true (p_enableAA props) in
  let enableColorGrading := default false (p_enableColorGrading props) in
  let intensity := default 1 (p_intensity props) in
  let animated := default false (animated props) in
  let mouseX := default 0 (mouseX props) in
  let mouseY := default 0 (mouseY props) in
  let deviceQuality := useDeviceQuality env in
  let quality := default deviceQuality forcedQuality in
  let preset := qualityPresets quality in
  let aberrationOffset :=
    let baseStrength := default 0.0006 (aberrationStrength props) in
    let mouseInfluence :=
      if animated then Math_sqrt (mouseX ^ 2 + mouseY ^ 2) * 0.0003 else 0 in
    let strength := (baseStrength + mouseInfluence) * intensity in
    (strength, strength) in
  let baseBloomIntensity := default (bloomIntensity preset) (p_bloomIntensity props) in
  let animatedBloomPulse := if animated then Math_sin (timeRef * 0.5) * 0.1 else 0 in
  let computedBloomIntensity := (baseBloomIntensity + animatedBloomPulse) * intensity in
  let computedVignetteDarkness := default 0.7 (vignetteDarkness props) * intensity in
  let computedNoiseOpacity := default 0.15 (noiseOpacity props) * intensity in
  let shouldEnableNoise := default (enableNoise preset) (p_enableNoise props) in
  match quality, forcedQuality with
  | low, None =>
      (* quality === 'low' && !forcedQuality *)
      MinimalPostProcessing computedBloomIntensity computedVignetteDarkness
  | _, _ =>
      FullPostProcessing preset enableAA enableBloom enableAberration
        enableVignette shouldEnableNoise enableColorGrading
        computedBloomIntensity computedVignetteDarkness computedNoiseOpacity
        aberrationOffset intensity
  end.

(** What kind of pass an effect element is. *)
Inductive PassKind :=
| AntiAliasing | BloomPass | AberrationPass | ToneMappingPass
| BrightnessContrastPass | HueSaturationPass | VignettePass | GrainPass.

Definition kind (e : Effect) : PassKind :=
  match e with
  | SMAA _ => AntiAliasing
  | Bloom _ _ _ _ _ => BloomPass
  | ChromaticAberration _ => AberrationPass
  | ToneMapping => ToneMappingPass
  | BrightnessContrast _ _ => BrightnessContrastPass
  | HueSaturation _ _ => HueSaturationPass
  | Vignette _ _ => VignettePass
  | Noise _ => GrainPass
  end.

End PostProcessing.

(* ===================================================================== *)
(** ** EnergyCore: the frame callback *)
(* ===================================================================== *)

Module EnergyCore.
Import JS Device.

Inductive Quality := low | high.

Definition useDeviceQuality (env : Env) : Quality :=
  let isMobile :=
    match navigator_userAgent env with
    | Some userAgent => RegExp.test RegExp.mobilePattern userAgent
    | None => false
    end in
  let pixelRatio := getPixelRatio (gl env) in
  if isMobile || ltb pixelRatio 1.5 then low else high.

(** [EnergyCoreProps], without the colours. *)
Record Props := {
  p_mouseX : option R;
  p_mouseY : option R;
  p_quality : option Quality;
  p_autoRotate : option bool
}.

Record XY := { x : R; y : R }.

(** The fields of the outer group the callback writes. *)
Record Group := {
  rotation_x : R;
  rotation_y : R;
  position_y : R
}.

(** The fields of the wireframe and ring meshes the callback writes. *)
Record Mesh := {
  mesh_rotation_x : R;
  mesh_rotation_y : R;
  mesh_rotation_z : R;
  mesh_scale : R
}.

(** What persists across frames: the two rotation refs, the shader's time
    uniform and the objects behind the element refs ([None] while a ref
    is still [null]). *)
Record State := {
  targetRotation : XY;
  currentRotation : XY;
  uTime : R;
  groupRef : option Group;
  coreRef : option Mesh;
  wireRef : option Mesh;
  ring1Ref : option Mesh;
  ring2Ref : option Mesh
}.

(** The [if (groupRef.current)] block. *)
Definition frame_group (mouseX mouseY : R) (autoRotate : bool) (quality : Quality)
    (time delta : R) (targetRotation currentRotation : XY) (group : Group) : XY * Group :=
  let lerpFactor := 1 - Math_pow 0.001 delta in
  let current_y := y currentRotation + (y targetRotation - y currentRotation) * lerpFactor * 3 in
  let current_x := x currentRotation + (x targetRotation - x currentRotation) * lerpFactor * 3 in
  let rotation_y := current_y in
  let rotation_x := current_x in
  let rotation_y :=
    if autoRotate && ltb (Math_abs mouseX) 0.01 && ltb (Math_abs mouseY) 0.01
    then rotation_y + delta * 0.1
    else rotation_y in
  let floatIntensity := match quality with low => 0.15 | high => 0.2 end in
  ({| x := current_x; y := current_y |},
   {| rotation_x := rotation_x;
      rotation_y := rotation_y;
      position_y := Math_sin (time * 0.5) * floatIntensity |}).

(** The callback passed to [useFrame], for the clock's elapsed [time] and
    the frame's [delta]. *)
Definition frame (props : Props) (env : Env) (time delta : R) (s : State) : State :=
  let mouseX := default 0 (p_mouseX props) in
  let mouseY := default 0 (p_mouseY props) in
  let autoRotate := default true (p_autoRotate props) in
  let quality := default (useDeviceQuality env) (p_quality props) in
  let target := {| x := mouseY * 0.2; y := mouseX * 0.3 |} in
  let '(current, group) :=
    match groupRef s with
    | Some g =>
        let '(c, g') :=
          frame_group mouseX mouseY autoRotate quality time delta target (currentRotation s) g in
        (c, Some g')
    | None => (currentRotation s, None)
    end in
  {| targetRotation := target;
     currentRotation := current;
     uTime := time;
     groupRef := group;
     coreRef :=
       option_map
         (fun m =>
            let pulse := 1 + Math_sin (time * 2) * 0.015 in
            {| mesh_rotation_x := mesh_rotation_x m; mesh_rotation_y := mesh_rotation_y m;
               mesh_rotation_z := mesh_rotation_z m; mesh_scale := pulse |})
         (coreRef s);
     wireRef :=
       option_map
         (fun m =>
            {| mesh_rotation_x := mesh_rotation_x m; mesh_rotation_y := time * 0.2;
               mesh_rotation_z := time * 0.1; mesh_scale := mesh_scale m |})
         (wireRef s);
     ring1Ref :=
       option_map
         (fun m =>
            {| mesh_rotation_x := time * 0.4; mesh_rotation_y := mesh_rotation_y m;
               mesh_rotation_z := time * 0.2; mesh_scale := mesh_scale m |})
         (ring1Ref s);
     ring2Ref :=
       option_map
         (fun m =>
            {| mesh_rotation_x := time * 0.15 + Math_PI / 3; mesh_rotation_y := time * 0.3;
               mesh_rotation_z := mesh_rotation_z m; mesh_scale := mesh_scale m |})
         (ring2Ref s) |}.

(** The refs as [useRef] initialises them, with the group mounted. *)
Definition initialState : State :=
  let mesh := {| mesh_rotation_x := 0; mesh_rotation_y := 0; mesh_rotation_z := 0; mesh_scale := 1 |} in
  {| targetRotation := {| x := 0; y := 0 |};
     currentRotation := {| x := 0; y := 0 |};
     uTime := 0;
     groupRef := Some {| rotation_x := 0; rotation_y := 0; position_y := 0 |};
     coreRef := Some mesh; wireRef := Some mesh;
     ring1Ref := Some mesh; ring2Ref := Some mesh |}.

(** A run of frames: the callback applied once per display refresh, each
    frame given as the clock's elapsed time and the frame's duration. *)
Definition run (props : Props) (env : Env) (frames : list (R * R)) (s : State) : State :=
  fold_left (fun s td => frame props env (fst td) (snd td) s) frames s.

End EnergyCore.

(* ===================================================================== *)
(** ** Scene: camera controller and core fade *)
(* ===================================================================== *)

Module Scene.
Import JS.

Module CAMERA_CONFIG.
Definition fov : R := 60.
Definition near : R := 0.1.
Definition far : R := 100.
Definition initialZ : R := 6.
Definition maxScrollZ : R := 20.
Definition mouseInfluenceX : R := 0.4.
Definition mouseInfluenceY : R := 0.25.
Definition lerpSpeed : R := 0.04.
End CAMERA_CONFIG.

Module FADE_CONFIG.
Definition start : R := 0.08.
Definition end_ : R := 0.3.
Definition minScale : R := 0.5.
End FADE_CONFIG.

Record Vector3 := { vx : R; vy : R; vz : R }.

(** [Vector3.prototype.lerp] *)
Definition lerp (v target : Vector3) (alpha : R) : Vector3 :=
  {| vx := vx v + (vx target - vx v) * alpha;
     vy := vy v + (vy target - vy v) * alpha;
     vz := vz v + (vz target - vz v) * alpha |}.

(** The camera behind [cameraRef]: its position and the point it was last
    turned to. *)
Record Camera := {
  position : Vector3;
  lookingAt : Vector3
}.

Record CameraState := {
  targetPos : Vector3;
  currentPos : Vector3;
  lookAtTarget : Vector3;
  cameraRef : option Camera
}.

Definition initialCameraState : CameraState :=
  let p := {| vx := 0; vy := 0; vz := CAMERA_CONFIG.initialZ |} in
  let o := {| vx := 0; vy := 0; vz := 0 |} in
  {| targetPos := p; currentPos := p; lookAtTarget := o;
     cameraRef := Some {| position := p; lookingAt := o |} |}.

(** The frame callback of [CameraController] (without the debug log). *)
Definition cameraFrame (mouse : Hooks.MousePosition) (scrollProgress : R)
    (delta : R) (s : CameraState) : CameraState :=
  match cameraRef s with
  | None => s
  | Some _ =>
      let mouseOffsetX := Hooks.normalizedX mouse * CAMERA_CONFIG.mouseInfluenceX in
      let mouseOffsetY := Hooks.normalizedY mouse * CAMERA_CONFIG.mouseInfluenceY in
      let scrollZ :=
        CAMERA_CONFIG.initialZ
        + scrollProgress * (CAMERA_CONFIG.maxScrollZ - CAMERA_CONFIG.initialZ) in
      let scrollY := scrollProgress * 5 in
      let target := {| vx := mouseOffsetX; vy := scrollY + mouseOffsetY; vz := scrollZ |} in
      let lerpFactor := 1 - Math_pow 0.001 (delta * CAMERA_CONFIG.lerpSpeed * 60) in
      let current := lerp (currentPos s) target lerpFactor in
      let lookAt := {| vx := 0; vy := scrollProgress * 2; vz := 0 |} in
      {| targetPos := target;
         currentPos := current;
         lookAtTarget := lookAt;
         cameraRef := Some {| position := current; lookingAt := lookAt |} |}
  end.

(** A run of camera frames with the pointer and the scroll progress held
    fixed, one frame per duration. *)
Definition cameraRun (mouse : Hooks.MousePosition) (scrollProgress : R)
    (deltas : list R) (s : CameraState) : CameraState :=
  fold_left (fun s delta => cameraFrame mouse scrollProgress delta s) deltas s.

(** *** SceneContent *)

Inductive Quality := low | medium | high.

(** [effectiveQuality] *)
Definition effectiveQuality (quality : option Quality) (isMobile : bool) (pixelRatio : R) : Quality :=
  match quality with
  | Some q => q
  | None =>
      if isMobile then low
      else if ltb pixelRatio 1.5 then low
      else if ltb pixelRatio 2 then medium
      else high
  end.


(** The [quality] prop [SceneContent] passes to [<PostProcessing>]. *)
Definition postProcessingQuality (q : Quality) : PostProcessing.QualityLevel :=
  match q with
  | low => PostProcessing.low
  | medium => PostProcessing.medium
  | high => PostProcessing.high
  end.

(** [particleCount] *)
Definition particleCount (q : Quality) : R :=
  match q with
  | low => 600
  | medium => 1200
  | high => 2000
  end.

(** The [opacity] computed at the head of the fade callback. *)
Definition fadeOpacity (scrollProgress : R) : R :=
  if Rlt_dec scrollProgress FADE_CONFIG.start then 1
  else if Rgt_dec scrollProgress FADE_CONFIG.end_ then 0
  else 1 - (scrollProgress - FADE_CONFIG.start) / (FADE_CONFIG.end_ - FADE_CONFIG.start).

(** A material below the core group; [key] stands for the object's
    identity, under which [baseOpacities] stores its first opacity. *)
Record Material := {
  key : nat;
  opacity : R;
  transparent : bool;
  needsUpdate : bool
}.

Record CoreGroup := {
  visible : bool;
  scale : R;
  materials : list Material
}.

Record FadeState := {
  coreGroupRef : option CoreGroup;
  baseOpacities : list (nat * R)
}.

(** [baseOpacities.current.get(mat)] *)
Fixpoint Map_get (m : list (nat * R)) (k : nat) : option R :=
  match m with
  | [] => None
  | (k', v) :: m' => if Nat.eqb k' k then Some v else Map_get m' k
  end.

(** One step of the [materials.forEach]: record the base opacity at the
    first encounter, then scale it. *)
Definition fadeMaterial (opacity : R) (acc : list Material * list (nat * R)) (mat : Material)
    : list Material * list (nat * R) :=
  let '(done, base) := acc in
  let base :=
    match Map_get base (key mat) with
    | Some _ => base
    | None => base ++ [(key mat, Scene.opacity mat)]
    end in
  let baseOpacity := default (Scene.opacity mat) (Map_get base (key mat)) in
  (done ++ [{| key := key mat; opacity := baseOpacity * opacity;
               transparent := true; needsUpdate := true |}],
   base).

(** The frame callback of [SceneContent]. *)
Definition fadeFrame (scrollProgress : R) (s : FadeState) : FadeState :=
  match coreGroupRef s with
  | None => s
  | Some g =>
      let opacity := fadeOpacity scrollProgress in
      let isVisible := if Rgt_dec opacity 0.01 then true else false in
      if negb isVisible then
        {| coreGroupRef :=
             Some {| visible := isVisible; scale := scale g; materials := materials g |};
           baseOpacities := baseOpacities s |}
      else
        let scale := FADE_CONFIG.minScale + opacity * (1 - FADE_CONFIG.minScale) in
        let '(mats, base) :=
          fold_left (fadeMaterial opacity) (materials g) ([], baseOpacities s) in
        {| coreGroupRef := Some {| visible := isVisible; scale := scale; materials := mats |};
           baseOpacities := base |}
  end.

(** The props [SceneContent] passes to [<PostProcessing>]. *)
Definition postProcessingProps (mouse : Hooks.MousePosition) (isMobile : bool) (q : Quality)
    : PostProcessing.Props :=
  {| PostProcessing.quality := Some (postProcessingQuality q);
     PostProcessing.p_enableBloom := None;
     PostProcessing.p_enableAberration := Some (match q with low => false | _ => true end);
     PostProcessing.p_enableVignette := None;
     PostProcessing.p_enableNoise := Some (match q with high => true | _ => false end);
     PostProcessing.p_enableAA := None;
     PostProcessing.p_enableColorGrading := None;
     PostProcessing.p_bloomIntensity := None;
     PostProcessing.aberrationStrength := None;
     PostProcessing.vignetteDarkness := None;
     PostProcessing.noiseOpacity := None;
     PostProcessing.p_intensity := None;
     PostProcessing.animated := Some (negb isMobile);
     PostProcessing.mouseX := Some (Hooks.normalizedX mouse);
     PostProcessing.mouseY := Some (Hooks.normalizedY mouse) |}.

(** The props [SceneContent] passes to [<Particles>]. *)
Definition particlesProps (q : Quality) : Particles.Props :=
  {| Particles.p_count := Some (particleCount q);
     Particles.p_pattern := None;
     Particles.p_quality :=
       Some (match q with
             | low => Particles.low
             | medium => Particles.medium
             | high => Particles.high
             end) |}.

(** [DEFAULT_COLORS] *)
Record Colors := {
  primary : string;
  secondary : string;
  accent : string;
  fog : string
}.

Definition DEFAULT_COLORS : Colors :=
  {| primary := "#00f0ff"; secondary := "#b44aff"; accent := "#ff2d8a"; fog := "#050510" |}.

(** *** FloatingObjects *)

Module FloatingObjects.

Inductive Geometry := octahedron | tetrahedron | icosahedron.

Record FloatingObjectConfig := {
  position : R * R * R;
  scale : R;
  color : string;
  rotationSpeed : R * R * R;
  floatSpeed : R;
  floatAmplitude : R;
  geometry : Geometry
}.

Definition baseObjects (colors : Colors) : list FloatingObjectConfig :=
  [ {| position := (-5, 2, -3); scale := 0.3; color := primary colors;
       rotationSpeed := (0.002, 0.003, 0.001); floatSpeed := 0.3;
       floatAmplitude := 0.002; geometry := octahedron |};
    {| position := (4, -1, -5); scale := 0.2; color := secondary colors;
       rotationSpeed := (0.003, 0.002, 0.002); floatSpeed := 0.4;
       floatAmplitude := 0.003; geometry := tetrahedron |};
    {| position := (-3, -3, -4); scale := 0.15; color := accent colors;
       rotationSpeed := (0.001, 0.004, 0.002); floatSpeed := 0.35;
       floatAmplitude := 0.0025; geometry := icosahedron |};
    {| position := (6, 3, -6); scale := 0.25; color := "#3d5aff";
       rotationSpeed := (0.002, 0.002, 0.003); floatSpeed := 0.25;
       floatAmplitude := 0.002; geometry := octahedron |};
    {| position := (-6, -2, -8); scale := 0.35; color := primary colors;
       rotationSpeed := (0.003, 0.001, 0.002); floatSpeed := 0.2;
       floatAmplitude := 0.0015; geometry := tetrahedron |};
    {| position := (3, 4, -7); scale := 0.18; color := secondary colors;
       rotationSpeed := (0.001, 0.003, 0.001); floatSpeed := 0.45;
       floatAmplitude := 0.003; geometry := icosahedron |} ].

(** The [objects] memo: fewer objects on lower quality. *)
Definition objects (colors : Colors) (quality : Quality) : list FloatingObjectConfig :=
  match quality with
  | low => take 3 (baseObjects colors)
  | medium => take 4 (baseObjects colors)
  | high => baseObjects colors
  end.

(** [config.position[1]] *)
Definition position_1 (config : FloatingObjectConfig) : R :=
  let '(_, y, _) := position config in y.

(** The value the effect stores in [initialYPositions]. *)
Definition initialYPositions (objects : list FloatingObjectConfig) : list R :=
  map position_1 objects.

(** The fields of a child mesh the callback writes; [material_opacity] is
    [None] for a material without an opacity. *)
Record Mesh := {
  position_y : R;
  rotation_x : R;
  rotation_y : R;
  rotation_z : R;
  material_opacity : option R
}.

(** The meshes as the JSX mounts them, one per object. *)
Definition mounted (objects : list FloatingObjectConfig) : list Mesh :=
  map (fun obj =>
         {| position_y := position_1 obj; rotation_x := 0; rotation_y := 0;
            rotation_z := 0; material_opacity := Some 0.3 |})
      objects.

(** The body of [children.forEach((child, i) => ...)]. *)
Definition frameChild (objects : list FloatingObjectConfig) (initialYs : list R)
    (fadeOpacity time delta : R) (i : nat) (mesh : Mesh) : Mesh :=
  match objects !! i with
  | None => mesh
  | Some config =>
      let initialY := default (position_1 config) (initialYs !! i) in
      let '(speed_x, speed_y, speed_z) := rotationSpeed config in
      {| position_y :=
           initialY
           + Math_sin (time * floatSpeed config + INR i * 1.5) * floatAmplitude config * 100;
         rotation_x := rotation_x mesh + speed_x * delta * 60;
         rotation_y := rotation_y mesh + speed_y * delta * 60;
         rotation_z := rotation_z mesh + speed_z * delta * 60;
         material_opacity :=
           match material_opacity mesh with
           | Some _ => Some (0.3 * fadeOpacity)
           | None => None
           end |}
  end.

(** The frame callback, on the children of the group behind [groupRef]
    ([None] while the ref is [null]). *)
Definition frame (objects : list FloatingObjectConfig) (initialYs : list R)
    (scrollProgress time delta : R) (groupRef : option (list Mesh)) : option (list Mesh) :=
  match groupRef with
  | None => None
  | Some children =>
      let fadeOpacity := Math_max 0 (1 - scrollProgress * 2) in
      Some (imap (frameChild objects initialYs fadeOpacity time delta) children)
  end.

(** A run of frames at a fixed scroll progress, each given as the clock's
    elapsed time and the frame's duration. *)
Definition run (objects : list FloatingObjectConfig) (initialYs : list R)
    (scrollProgress : R) (frames : list (R * R)) (groupRef : option (list Mesh))
    : option (list Mesh) :=
  fold_left (fun g td => frame objects initialYs scrollProgress (fst td) (snd td) g)
            frames groupRef.

End FloatingObjects.

(** *** DynamicLighting *)

Module DynamicLighting.

Record DirectionalLight := {
  position_x : R;
  position_y : R;
  position_z : R;
  intensity : R
}.

Record State := {
  directionalRef : option DirectionalLight;
  pointRef : option R
}.

(** The lights as the JSX mounts them; [pointRef] holds the point light's
    intensity. *)
Definition mounted : State :=
  {| directionalRef :=
       Some {| position_x := 5; position_y := 5; position_z := 5; intensity := 0.3 |};
     pointRef := Some 0.5 |}.

(** The frame callback. *)
Definition frame (scrollProgress time : R) (s : State) : State :=
  {| directionalRef :=
       option_map
         (fun light =>
            {| position_x := Math_sin (time * 0.2) * 5;
               position_y := position_y light;
               position_z := Math_cos (time * 0.2) * 5;
               intensity := 0.3 * (1 - scrollProgress * 0.5) |})
         (directionalRef s);
     pointRef := option_map (fun _ => 0.5 + Math_sin (time * 2) * 0.2) (pointRef s) |}.

End DynamicLighting.

(** *** The [Scene] component: WebGL check and what it renders *)

Module Root.
Import Device.

Inductive RenderingContext := WebGL2RenderingContext | WebGLRenderingContext.

(** A canvas element: [getContext] may return [null] or throw. *)
Record Canvas := {
  getContext : string -> result (option RenderingContext)
}.

Record State := {
  hasWebGL : bool;
  isClient : bool
}.

(** The two [useState] initial values. *)
Definition initialState : State := {| hasWebGL := true; isClient := false |}.

(** The body of the [try] block: the value passed to [setHasWebGL]. *)
Definition probe (createElement : result Canvas) : result bool :=
  (call canvas <- createElement in
   call gl2 <- getContext canvas "webgl2" in
   match gl2 with
   | Some _ => Ok true
   | None =>
       call gl1 <- getContext canvas "webgl" in
       Ok (match gl1 with Some _ => true | None => false end)
   end)%result.

(** The mount effect, given the outcome of
    [document.createElement('canvas')]. *)
Definition mountEffect (createElement : result Canvas) (s : State) : State :=
  {| isClient := true;
     hasWebGL :=
       match probe createElement with
       | Ok supported => supported
       | Throw => false
       end |}.

(** What the component returns; for the canvas, the settings that depend
    on [isMobile]. *)
Inductive View :=
| ServerPlaceholder
| SceneErrorFallback
| CanvasView (antialias : bool) (lowPower : bool) (dprMax : R) (flat : bool).

Definition render (isMobile : bool) (s : State) : View :=
  if negb (isClient s) then ServerPlaceholder
  else if negb (hasWebGL s) then SceneErrorFallback
  else CanvasView (negb isMobile) isMobile (if isMobile then 1.5 else 2) isMobile.

End Root.

End Scene.

(* ===================================================================== *)
(** ** SmoothScroll: the easing handed to the scroll library *)
(* ===================================================================== *)

Module SmoothScroll.
Import JS.

(** [(t) => Math.min(1, 1.001 - Math.pow(2, -10 * t))] *)
Definition easing (t : R) : R := Math_min 1 (1.001 - Math_pow 2 (-10 * t)).

End SmoothScroll.

(* ===================================================================== *)
(** ** CustomCursor: the ring that follows the pointer *)
(* ===================================================================== *)

Module CustomCursor.

Record Pos := { x : R; y : R }.

(** An element's [translate(x px, y px)], once set. *)
Record Element := { transform : option (R * R) }.

(** [ringPos] and the elements behind the two refs ([None] while a ref is
    [null]). *)
Record State := {
  ringPos : Pos;
  dotRef : option Element;
  ringRef : option Element
}.

Definition initialState : State :=
  {| ringPos := {| x := 0; y := 0 |};
     dotRef := Some {| transform := None |};
     ringRef := Some {| transform := None |} |}.

(** One call of [animate], for the pointer position it closes over. *)
Definition animate (mouse : Hooks.MousePosition) (s : State) : State :=
  let ring_x := x (ringPos s) + (Hooks.x mouse - x (ringPos s)) * 0.12 in
  let ring_y := y (ringPos s) + (Hooks.y mouse - y (ringPos s)) * 0.12 in
  {| ringPos := {| x := ring_x; y := ring_y |};
     dotRef :=
       option_map (fun _ => {| transform := Some (Hooks.x mouse - 4, Hooks.y mouse - 4) |})
                  (dotRef s);
     ringRef :=
       option_map (fun _ => {| transform := Some (ring_x - 20, ring_y - 20) |})
                  (ringRef s) |}.

(** The animation frames run by the effect: none on a mobile viewport,
    otherwise one call of [animate] per frame with the pointer position of
    that frame. *)
Definition frames (isMobile : bool) (pointer : list Hooks.MousePosition) (s : State) : State :=
  if isMobile then s else fold_left (fun s mouse => animate mouse s) pointer s.

End CustomCursor.

(* ===================================================================== *)
(** * Observations and sample inputs *)
(* ===================================================================== *)

(** A 1920 x 1080 viewport over a document 4000 pixels tall. *)
Definition fullHD : Hooks.Window :=
  {| Hooks.innerWidth := 1920; Hooks.innerHeight := 1080;
     Hooks.scrollY := 0; Hooks.scrollHeight := 4000 |}.

(** The GPU renderer string the introspection obtains, if any: none when
    the extension is missing or when one of the WebGL calls throws. *)
Definition gpuName (gl : Device.WebGLRenderer) : option string :=
  match Device.getContext gl with
  | Device.Ok renderer =>
      match Device.getExtension renderer "WEBGL_debug_renderer_info" with
      | Device.Ok (Some info) =>
          match Device.getParameter renderer (Device.UNMASKED_RENDERER_WEBGL info) with
          | Device.Ok gpuRenderer => Some gpuRenderer
          | Device.Throw => None
          end
      | Device.Ok None | Device.Throw => None
      end
  | Device.Throw => None
  end.

(** The three inputs of the tier selection, where there is a browser to
    read them from. *)
Definition detectionInputs (env : Device.Env) : option (bool * R * option string) :=
  match Device.navigator_userAgent env with
  | Some userAgent =>
      Some (RegExp.test RegExp.mobilePattern userAgent,
            Device.getPixelRatio (Device.gl env),
            gpuName (Device.gl env))
  | None => None
  end.

(** The tier as a function of the three inputs alone, with the signature
    the specification gives it. *)
Definition selectTier (isMobileUA : bool) (pixelRatio : R) (gpu : option string)
    : PostProcessing.QualityLevel :=
  let isHighEndGPU :=
    match gpu with
    | Some name => RegExp.test RegExp.highEndPattern name
    | None => false
    end in
  if isHighEndGPU && JS.geb pixelRatio 2 then PostProcessing.ultra
  else if isMobileUA then PostProcessing.low
  else if JS.ltb pixelRatio 1.5 then PostProcessing.low
  else if JS.geb pixelRatio 2 then PostProcessing.high
  else PostProcessing.medium.

(** Three user agent strings: two phones and a Linux desktop. *)
Definition iPhoneUA : string :=
  "Mozilla/5.0 (iPhone; CPU iPhone OS 17_0 like Mac OS X) AppleWebKit/605.1.15 Mobile/15E148".

Definition androidUA : string :=
  "Mozilla/5.0 (Linux; Android 14; Pixel 8) AppleWebKit/537.36 Chrome/120.0 Mobile Safari/537.36".

Definition desktopUA : string :=
  "Mozilla/5.0 (X11; Linux x86_64) AppleWebKit/537.36 Chrome/120.0 Safari/537.36".

(** A context without the debug extension. *)
Definition plainContext : Device.WebGLContext :=
  {| Device.getExtension := fun _ => Device.Ok None;
     Device.getParameter := fun _ => Device.Throw |}.

(** A context that exposes the renderer string [name]. *)
Definition debugContext (name : string) : Device.WebGLContext :=
  {| Device.getExtension := fun _ => Device.Ok (Some {| Device.UNMASKED_RENDERER_WEBGL := 37446 |});
     Device.getParameter := fun _ => Device.Ok name |}.

(** A browser with the given user agent, pixel ratio and outcome of
    [gl.getContext()]. *)
Definition browser (userAgent : string) (pixelRatio : R) (context : Device.result Device.WebGLContext)
    : Device.Env :=
  {| Device.navigator_userAgent := Some userAgent;
     Device.gl := {| Device.getPixelRatio := pixelRatio; Device.getContext := context |} |}.

(** A rendering without a [window] (on a server), with the given pixel
    ratio. *)
Definition windowless (pixelRatio : R) : Device.Env :=
  {| Device.navigator_userAgent := None;
     Device.gl := {| Device.getPixelRatio := pixelRatio; Device.getContext := Device.Throw |} |}.

(** Reads the fields of a concrete environment without unfolding the
    regular expressions or the arithmetic. *)
Ltac read_env :=
  unfold browser, plainContext, debugContext;
  cbn [Device.navigator_userAgent Device.gl Device.getPixelRatio Device.getContext
       Device.getExtension Device.getParameter Device.UNMASKED_RENDERER_WEBGL Device.bind].

(** The order of the full chain. *)
Definition fullChain : list PostProcessing.PassKind :=
  [ PostProcessing.AntiAliasing; PostProcessing.BloomPass; PostProcessing.AberrationPass;
    PostProcessing.ToneMappingPass; PostProcessing.BrightnessContrastPass;
    PostProcessing.HueSaturationPass; PostProcessing.VignettePass; PostProcessing.GrainPass ].

(** The reduced pipeline. *)
Definition reducedChain : list PostProcessing.PassKind :=
  [ PostProcessing.BloomPass; PostProcessing.VignettePass ].

(** The props of [<PostProcessing quality={q} />]. *)
Definition onlyQuality (q : option PostProcessing.QualityLevel) : PostProcessing.Props :=
  {| PostProcessing.quality := q;
     PostProcessing.p_enableBloom := None; PostProcessing.p_enableAberration := None;
     PostProcessing.p_enableVignette := None; PostProcessing.p_enableNoise := None;
     PostProcessing.p_enableAA := None; PostProcessing.p_enableColorGrading := None;
     PostProcessing.p_bloomIntensity := None; PostProcessing.aberrationStrength := None;
     PostProcessing.vignetteDarkness := None; PostProcessing.noiseOpacity := None;
     PostProcessing.p_intensity := None; PostProcessing.animated := None;
     PostProcessing.mouseX := None; PostProcessing.mouseY := None |}.

(** The target the camera moves to for a pointer and a scroll progress. *)
Definition cameraTarget (mouse : Hooks.MousePosition) (scrollProgress : R) : Scene.Vector3 :=
  {| Scene.vx := Hooks.normalizedX mouse * 0.4;
     Scene.vy := scrollProgress * 5 + Hooks.normalizedY mouse * 0.25;
     Scene.vz := 6 + scrollProgress * (20 - 6) |}.

(** The offset from a position to a target, per axis. *)
Definition offset (target v : Scene.Vector3) : Scene.Vector3 :=
  {| Scene.vx := Scene.vx target - Scene.vx v;
     Scene.vy := Scene.vy target - Scene.vy v;
     Scene.vz := Scene.vz target - Scene.vz v |}.

(** A vector scaled by [k]. *)
Definition scaled (k : R) (v : Scene.Vector3) : Scene.Vector3 :=
  {| Scene.vx := Scene.vx v * k; Scene.vy := Scene.vy v * k; Scene.vz := Scene.vz v * k |}.

(** The time elapsed over a run of frames. *)
Definition total (deltas : list R) : R := fold_right Rplus 0 deltas.

(** The pointer held at the right edge of the viewport. *)
Definition pointerRight : EnergyCore.Props :=
  {| EnergyCore.p_mouseX := Some 1;
     EnergyCore.p_mouseY := Some 0;
     EnergyCore.p_quality := Some EnergyCore.high;
     EnergyCore.p_autoRotate := None |}.

(** The draws of [Math.random] for one sphere particle at the inner edge
    of the shell: radius 15, azimuth 0, cosine of the polar angle -0.75. *)
Definition innerEdgeDraws (n : nat) : R :=
  match n with
  | 2%nat => 0.125
  | _ => 0
  end.


(** Particle [j] of a positions array exists and its coordinates satisfy
    [Q]. *)
Definition particle_sat (Q : R -> R -> R -> Prop) (positions : list R) (j : nat) : Prop :=
  exists x y z,
    positions !! (j * 3)%nat = Some x /\
    positions !! (j * 3 + 1)%nat = Some y /\
    positions !! (j * 3 + 2)%nat = Some z /\
    Q x y z.

(** The four attributes of particle [j] exist and their stored values lie
    in the closed ranges they are drawn from: size and animation speed in
    [[0.5, 2.5]], brightness in [[0.5, 1]], phase from 0 to [2 PI] (a
    millionth more at most: the binary32 value nearest to [2 PI] is above
    it). *)
Definition attributes_sat (randoms : list R) (j : nat) : Prop :=
  exists size speed phase brightness,
    randoms !! (j * 4)%nat = Some size /\
    randoms !! (j * 4 + 1)%nat = Some speed /\
    randoms !! (j * 4 + 2)%nat = Some phase /\
    randoms !! (j * 4 + 3)%nat = Some brightness /\
    0.5 <= size <= 2.5 /\ 0.5 <= speed <= 2.5 /\
    0 <= phase <= 2 * PI + 0.000001 /\ 0.5 <= brightness <= 1.

(** A drift velocity component: within a hundredth of a unit. *)
Definition drift (v : R) : Prop := -0.01 <= v <= 0.01.

(** The invariant of the generation loop before the iteration [i], for a
    property [Q] of the stored points. *)
Definition well_formed (Q : R -> R -> R -> Prop) (count i : nat) (b : Particles.Buffers) : Prop :=
  length (Particles.positions b) = (count * 3)%nat /\
  length (Particles.velocities b) = (count * 3)%nat /\
  length (Particles.randoms b) = (count * 4)%nat /\
  Forall drift (Particles.velocities b) /\
  forall j, (j < i)%nat ->
    particle_sat Q (Particles.positions b) j /\ attributes_sat (Particles.randoms b) j.

(** The region in which each distribution pattern draws its points,
    before they are stored. *)
Definition drawn (pattern : Particles.Pattern) (x y z : R) : Prop :=
  match pattern with
  | Particles.sphere => 15 <= sqrt (x * x + y * y + z * z) < 40
  | Particles.galaxy => 5 <= sqrt (x * x + z * z) < 35 /\ -3 <= y <= 3
  | Particles.cube => -25 <= x <= 25 /\ -25 <= y <= 25 /\ -25 <= z <= 25
  | Particles.cylinder => 10 <= sqrt (x * x + z * z) < 30 /\ -20 <= y < 20
  end.

(** The region the stored points of each distribution pattern fill: the
    region they are drawn in, where the binary32 rounding of the
    coordinates moves a distance by less than a hundred-thousandth. *)
Definition region (pattern : Particles.Pattern) (x y z : R) : Prop :=
  match pattern with
  | Particles.sphere => 14.99999 <= sqrt (x * x + y * y + z * z) <= 40.00001
  | Particles.galaxy => 4.99999 <= sqrt (x * x + z * z) <= 35.00001 /\ -3 <= y <= 3
  | Particles.cube => -25 <= x <= 25 /\ -25 <= y <= 25 /\ -25 <= z <= 25
  | Particles.cylinder => 9.99999 <= sqrt (x * x + z * z) <= 30.00001 /\ -20 <= y <= 20
  end.

(** A number and what a binary32 cell holds of it: the relative error is
    at most [2 ^ -24], or the absolute one [2 ^ -150]. *)
Definition close (c c' : R) : Prop :=
  Rabs (c' - c) <= powerRZ 2 (-24) * Rabs c + powerRZ 2 (-150).

(** Whether the introspection finds a renderer string that matches the
    high-end pattern. *)
Definition highEndGPU (gl : Device.WebGLRenderer) : bool :=
  match gpuName gl with
  | Some name => RegExp.test RegExp.highEndPattern name
  | None => false
  end.

(** The props with the global [intensity] set to [k]. *)
Definition with_intensity (props : PostProcessing.Props) (k : R) : PostProcessing.Props :=
  {| PostProcessing.quality := PostProcessing.quality props;
     PostProcessing.p_enableBloom := PostProcessing.p_enableBloom props;
     PostProcessing.p_enableAberration := PostProcessing.p_enableAberration props;
     PostProcessing.p_enableVignette := PostProcessing.p_enableVignette props;
     PostProcessing.p_enableNoise := PostProcessing.p_enableNoise props;
     PostProcessing.p_enableAA := PostProcessing.p_enableAA props;
     PostProcessing.p_enableColorGrading := PostProcessing.p_enableColorGrading props;
     PostProcessing.p_bloomIntensity := PostProcessing.p_bloomIntensity props;
     PostProcessing.aberrationStrength := PostProcessing.aberrationStrength props;
     PostProcessing.vignetteDarkness := PostProcessing.vignetteDarkness props;
     PostProcessing.noiseOpacity := PostProcessing.noiseOpacity props;
     PostProcessing.p_intensity := Some k;
     PostProcessing.animated := PostProcessing.animated props;
     PostProcessing.mouseX := PostProcessing.mouseX props;
     PostProcessing.mouseY := PostProcessing.mouseY props |}.

(** The strengths of a pass: the numbers that say how much of the effect
    is applied (not its thresholds or shape). *)
Definition strengths (e : PostProcessing.Effect) : list R :=
  match e with
  | PostProcessing.SMAA _ => []
  | PostProcessing.Bloom intensity _ _ _ _ => [intensity]
  | PostProcessing.ChromaticAberration (a, b) => [a; b]
  | PostProcessing.ToneMapping => []
  | PostProcessing.BrightnessContrast brightness contrast => [brightness; contrast]
  | PostProcessing.HueSaturation hue saturation => [hue; saturation]
  | PostProcessing.Vignette _ darkness => [darkness]
  | PostProcessing.Noise opacity => [opacity]
  end.

(** The strengths of all the passes of a composer, in order. *)
Definition pipeline_strengths (c : PostProcessing.EffectComposer) : list R :=
  concat (map strengths (PostProcessing.passes c)).

(** The props of
    [<PostProcessing enableBloom={false} enableVignette={false}
       enableAberration={false} enableNoise={false} enableAA={false} />]. *)
Definition effectsOff : PostProcessing.Props :=
  {| PostProcessing.quality := None;
     PostProcessing.p_enableBloom := Some false; PostProcessing.p_enableAberration := Some false;
     PostProcessing.p_enableVignette := Some false; PostProcessing.p_enableNoise := Some false;
     PostProcessing.p_enableAA := Some false; PostProcessing.p_enableColorGrading := None;
     PostProcessing.p_bloomIntensity := None; PostProcessing.aberrationStrength := None;
     PostProcessing.vignetteDarkness := None; PostProcessing.noiseOpacity := None;
     PostProcessing.p_intensity := None; PostProcessing.animated := None;
     PostProcessing.mouseX := None; PostProcessing.mouseY := None |}.

(** The box the camera's targets span: pointer offsets of at most 0.4 and
    0.25, a rise of at most 5 and a pull-back from 6 to 20. *)
Definition in_camera_box (v : Scene.Vector3) : Prop :=
  -0.4 <= Scene.vx v <= 0.4 /\ -0.25 <= Scene.vy v <= 5.25 /\ 6 <= Scene.vz v <= 20.

(** The inputs of one camera frame: the pointer, the scroll progress and
    the frame's duration. *)
Definition CameraInput : Type := Hooks.MousePosition * R * R.

(** Inputs the hooks can produce and a clock can measure. *)
Definition camera_input_ok (i : CameraInput) : Prop :=
  let '(mouse, scrollProgress, delta) := i in
  -1 <= Hooks.normalizedX mouse <= 1 /\ -1 <= Hooks.normalizedY mouse <= 1 /\
  0 <= scrollProgress <= 1 /\ 0 <= delta.

(** A run of camera frames, each with its own inputs. *)
Definition cameraFrames (inputs : list CameraInput) (s : Scene.CameraState) : Scene.CameraState :=
  fold_left (fun s i => let '(mouse, scrollProgress, delta) := i in
                        Scene.cameraFrame mouse scrollProgress delta s)
            inputs s.

(** Whether the [Scene] component rendered the canvas. *)
Definition is_canvas (v : Scene.Root.View) : bool :=
  match v with
  | Scene.Root.CanvasView _ _ _ _ => true
  | _ => false
  end.

(** A material as the fade leaves it at the fade opacity [k]: its opacity
    scaled, marked transparent and in need of an update. *)
Definition faded (k : R) (m : Scene.Material) : Scene.Material :=
  {| Scene.key := Scene.key m;
     Scene.opacity := Scene.opacity m * k;
     Scene.transparent := true;
     Scene.needsUpdate := true |}.

(** The base opacities of a list of materials, in the order of first
    encounter. *)
Definition recorded (materials : list Scene.Material) : list (nat * R) :=
  map (fun m => (Scene.key m, Scene.opacity m)) materials.

(** The fade state at mount: the core group with its materials, nothing
    recorded yet. *)
Definition freshCore (materials : list Scene.Material) : Scene.FadeState :=
  {| Scene.coreGroupRef :=
       Some {| Scene.visible := true; Scene.scale := 1; Scene.materials := materials |};
     Scene.baseOpacities := [] |}.

(** A run of fade frames, one per scroll progress. *)
Definition fadeFrames (progress : list R) (s : Scene.FadeState) : Scene.FadeState :=
  fold_left (fun s sp => Scene.fadeFrame sp s) progress s.

(** What the fade keeps true of the core group: the materials are those
    mounted (by key, in order), and either nothing is recorded and they are
    untouched, or all their base opacities are recorded. *)
Definition fade_invariant (mounted : list Scene.Material) (s : Scene.FadeState) : Prop :=
  exists g,
    Scene.coreGroupRef s = Some g /\
    map Scene.key (Scene.materials g) = map Scene.key mounted /\
    ((Scene.baseOpacities s = [] /\ Scene.materials g = mounted) \/
     Scene.baseOpacities s = recorded mounted).

(** A string with its ASCII letters in lower case. *)
Fixpoint lowercase (s : string) : string :=
  match s with
  | EmptyString => EmptyString
  | String c s' => String (RegExp.to_lower c) (lowercase s')
  end.

(** The eight words of the mobile pattern. *)
Definition mobileWords : list string :=
  [ "Android"; "webOS"; "iPhone"; "iPad"; "iPod"; "BlackBerry"; "IEMobile"; "Opera Mini" ]%string.

(* ===================================================================== *)
(** * Properties *)
(* ===================================================================== *)

(** ** Arithmetic of the [Math] model *)

Lemma Math_floor_le (a : R) : JS.Math_floor a <= a.
Proof.
  unfold JS.Math_floor. destruct (base_Int_part a) as [Hle _]. exact Hle.
Qed.

Lemma Math_floor_gt (a : R) : a - 1 < JS.Math_floor a.
Proof.
  unfold JS.Math_floor. destruct (base_Int_part a) as [_ Hgt]. lra.
Qed.

Lemma Math_floor_scale_le (k a : R) : 0 <= k <= 1 -> 0 <= a -> JS.Math_floor (a * k) <= a.
Proof.
  intros Hk Ha. pose proof (Math_floor_le (a * k)) as Hf. nra.
Qed.

Lemma clamp_range (v : R) : 0 <= JS.Math_min (JS.Math_max v 0) 1 <= 1.
Proof.
  unfold JS.Math_min, JS.Math_max, Rmin, Rmax.
  repeat destruct Rle_dec; lra.
Qed.

Lemma ltb_true (a b : R) : JS.ltb a b = true <-> a < b.
Proof. unfold JS.ltb. destruct Rlt_dec; split; intros; try lra; discriminate. Qed.

Lemma ltb_false (a b : R) : JS.ltb a b = false <-> b <= a.
Proof. unfold JS.ltb. destruct Rlt_dec; split; intros; try lra; discriminate. Qed.

Lemma geb_true (a b : R) : JS.geb a b = true <-> b <= a.
Proof. unfold JS.geb. destruct Rge_dec; split; intros; try lra; discriminate. Qed.

Lemma geb_false (a b : R) : JS.geb a b = false <-> a < b.
Proof. unfold JS.geb. destruct Rge_dec; split; intros; try lra; discriminate. Qed.

(** ** Scroll progress *)

Lemma handleScroll_range (window : Hooks.Window) : 0 <= Hooks.handleScroll window <= 1.
Proof. unfold Hooks.handleScroll. apply clamp_range. Qed.

(** C2. Whatever [window.scrollY] and the document height are, at mount and
    after any sequence of scroll events, the progress [useScrollProgress]
    returns lies in [[0, 1]]. *)
Theorem useScrollProgress_in_unit_interval (mount : Hooks.Window) (scrolls : list Hooks.Window) :
  0 <= Hooks.useScrollProgress mount scrolls <= 1.
Proof.
  unfold Hooks.useScrollProgress.
  generalize (handleScroll_range mount).
  generalize (Hooks.handleScroll mount) as progress.
  induction scrolls as [| w scrolls IH]; intros progress Hp; simpl.
  - exact Hp.
  - apply IH, handleScroll_range.
Qed.

(** The three regimes of [handleScroll]: a document no taller than the
    viewport, a scroll position before the start, one past the end. *)
Lemma handleScroll_short_document (window : Hooks.Window) :
  Hooks.scrollHeight window - Hooks.innerHeight window <= 0 ->
  Hooks.handleScroll window = 0.
Proof.
  intros H. unfold Hooks.handleScroll.
  destruct Rgt_dec as [Hgt | _]; [lra |].
  unfold JS.Math_min, JS.Math_max, Rmin, Rmax. repeat destruct Rle_dec; lra.
Qed.

(** ** Pointer position *)

Lemma useMousePosition_last (events : list (Hooks.Window * Hooks.MouseEvent))
    (window : Hooks.Window) (e : Hooks.MouseEvent) :
  Hooks.useMousePosition (events ++ [(window, e)]) = Hooks.handleMouseMove window e.
Proof.
  unfold Hooks.useMousePosition. rewrite fold_left_app. reflexivity.
Qed.

Lemma ratio_in_unit (a b : R) : 0 < b -> 0 <= a <= b -> 0 <= a / b <= 1.
Proof.
  intros Hb [H0 H1].
  assert (Hinv : 0 < / b) by (apply Rinv_0_lt_compat; exact Hb).
  assert (Hone : b * / b = 1) by (apply Rinv_r; lra).
  unfold Rdiv. split; nra.
Qed.

(** C8. After a pointer move event inside a viewport of positive size, the
    normalized coordinates lie in [[-1, 1]] on each axis; the left edge maps
    to [-1] and the right edge to [+1], and the vertical axis is inverted:
    the top edge maps to [+1] (and the bottom edge to [-1]). *)
Theorem normalized_pointer_range
    (events : list (Hooks.Window * Hooks.MouseEvent))
    (window : Hooks.Window) (e : Hooks.MouseEvent) :
  0 < Hooks.innerWidth window ->
  0 < Hooks.innerHeight window ->
  0 <= Hooks.clientX e <= Hooks.innerWidth window ->
  0 <= Hooks.clientY e <= Hooks.innerHeight window ->
  let p := Hooks.useMousePosition (events ++ [(window, e)]) in
  (-1 <= Hooks.normalizedX p <= 1) /\
  (-1 <= Hooks.normalizedY p <= 1) /\
  (Hooks.clientX e = 0 -> Hooks.normalizedX p = -1) /\
  (Hooks.clientX e = Hooks.innerWidth window -> Hooks.normalizedX p = 1) /\
  (Hooks.clientY e = 0 -> Hooks.normalizedY p = 1) /\
  (Hooks.clientY e = Hooks.innerHeight window -> Hooks.normalizedY p = -1).
Proof.
  intros Hw Hh Hx Hy p. subst p. rewrite useMousePosition_last.
  unfold Hooks.handleMouseMove; simpl.
  pose proof (ratio_in_unit _ _ Hw Hx) as Hrx.
  pose proof (ratio_in_unit _ _ Hh Hy) as Hry.
  split; [lra |]. split; [lra |].
  unfold Rdiv.
  split; [intros ->; lra |].
  split; [intros ->; rewrite Rinv_r by lra; lra |].
  split; [intros ->; lra |].
  intros ->; rewrite Rinv_r by lra; lra.
Qed.

Lemma normalized_pointer_range_witness :
  -1 <= Hooks.normalizedX
          (Hooks.useMousePosition [(fullHD, {| Hooks.clientX := 480; Hooks.clientY := 1080 |})])
     <= 1.
Proof.
  exact (proj1 (normalized_pointer_range [] fullHD
                  {| Hooks.clientX := 480; Hooks.clientY := 1080 |}
                  ltac:(simpl; lra) ltac:(simpl; lra) ltac:(simpl; lra) ltac:(simpl; lra))).
Defined.

(** ** Core fade *)

Lemma fadeOpacity_before (sp : R) : sp <= 0.08 -> Scene.fadeOpacity sp = 1.
Proof.
  intros H. unfold Scene.fadeOpacity, Scene.FADE_CONFIG.start, Scene.FADE_CONFIG.end_.
  destruct Rlt_dec; [reflexivity |].
  destruct Rgt_dec; [lra |].
  replace sp with 0.08 by lra. unfold Rdiv. lra.
Qed.

Lemma fadeOpacity_between (sp : R) :
  0.08 <= sp <= 0.3 -> Scene.fadeOpacity sp = 1 - (sp - 0.08) / (0.3 - 0.08).
Proof.
  intros [Hlo Hhi]. unfold Scene.fadeOpacity, Scene.FADE_CONFIG.start, Scene.FADE_CONFIG.end_.
  destruct Rlt_dec; [lra |].
  destruct Rgt_dec; [lra | reflexivity].
Qed.

Lemma fadeOpacity_after (sp : R) : 0.3 <= sp -> Scene.fadeOpacity sp = 0.
Proof.
  intros H. unfold Scene.fadeOpacity, Scene.FADE_CONFIG.start, Scene.FADE_CONFIG.end_.
  destruct Rlt_dec; [lra |].
  destruct Rgt_dec; [reflexivity |].
  replace sp with 0.3 by lra. replace (0.3 - 0.08) with 0.22 by lra. lra.
Qed.

(** The ramp written without the division. *)
Lemma fadeOpacity_ramp (sp : R) :
  0.08 <= sp <= 0.3 -> 0.22 * Scene.fadeOpacity sp = 0.3 - sp.
Proof.
  intros H. rewrite fadeOpacity_between by exact H.
  replace (0.3 - 0.08) with 0.22 by lra. lra.
Qed.

Lemma fadeOpacity_range (sp : R) : 0 <= Scene.fadeOpacity sp <= 1.
Proof.
  destruct (Rle_dec sp 0.08) as [Hlo | Hlo].
  - rewrite fadeOpacity_before by exact Hlo. lra.
  - destruct (Rle_dec 0.3 sp) as [Hhi | Hhi].
    + rewrite fadeOpacity_after by exact Hhi. lra.
    + pose proof (fadeOpacity_ramp sp ltac:(lra)). lra.
Qed.

Lemma fadeOpacity_decreasing (a b : R) : a <= b -> Scene.fadeOpacity b <= Scene.fadeOpacity a.
Proof.
  intros Hab.
  pose proof (fadeOpacity_range a) as Ra. pose proof (fadeOpacity_range b) as Rb.
  destruct (Rle_dec a 0.08) as [Ha | Ha].
  - rewrite (fadeOpacity_before a) by exact Ha. lra.
  - destruct (Rle_dec 0.3 b) as [Hb | Hb].
    + rewrite (fadeOpacity_after b) by exact Hb. lra.
    + pose proof (fadeOpacity_ramp a ltac:(lra)). pose proof (fadeOpacity_ramp b ltac:(lra)). lra.
Qed.

(** The profile never changes faster than the slope of its ramp. *)
Lemma fadeOpacity_lipschitz (a b : R) :
  a <= b -> 0.22 * (Scene.fadeOpacity a - Scene.fadeOpacity b) <= b - a.
Proof.
  intros Hab.
  pose proof (fadeOpacity_range a) as Ra. pose proof (fadeOpacity_range b) as Rb.
  destruct (Rle_dec a 0.08) as [Ha | Ha]; destruct (Rle_dec 0.3 b) as [Hb | Hb].
  - rewrite (fadeOpacity_before a), (fadeOpacity_after b) by assumption. lra.
  - rewrite (fadeOpacity_before a) by assumption.
    destruct (Rle_dec b 0.08) as [Hb' | Hb'].
    + rewrite (fadeOpacity_before b) by assumption. lra.
    + pose proof (fadeOpacity_ramp b ltac:(lra)). lra.
  - rewrite (fadeOpacity_after b) by assumption.
    destruct (Rle_dec 0.3 a) as [Ha' | Ha'].
    + rewrite (fadeOpacity_after a) by assumption. lra.
    + pose proof (fadeOpacity_ramp a ltac:(lra)). lra.
  - pose proof (fadeOpacity_ramp a ltac:(lra)). pose proof (fadeOpacity_ramp b ltac:(lra)). lra.
Qed.

Lemma fadeOpacity_continuous : continuity Scene.fadeOpacity.
Proof.
  intros x0 eps Heps.
  exists (0.22 * eps). split; [lra |].
  intros x1 [_ Hdist]. simpl in *. unfold R_dist in *.
  pose proof (fadeOpacity_decreasing x0 x1) as Hd01.
  pose proof (fadeOpacity_decreasing x1 x0) as Hd10.
  pose proof (fadeOpacity_lipschitz x0 x1) as Hl01.
  pose proof (fadeOpacity_lipschitz x1 x0) as Hl10.
  unfold Rabs in *.
  destruct (Rcase_abs (x1 - x0)); destruct (Rcase_abs (Scene.fadeOpacity x1 - Scene.fadeOpacity x0));
    try (specialize (Hd01 ltac:(lra))); try (specialize (Hl01 ltac:(lra)));
    try (specialize (Hd10 ltac:(lra))); try (specialize (Hl10 ltac:(lra))); lra.
Qed.

(** What one frame does to the group behind [coreGroupRef]. *)
Lemma fadeFrame_group (sp : R) (s : Scene.FadeState) (g : Scene.CoreGroup) :
  Scene.coreGroupRef s = Some g ->
  exists g', Scene.coreGroupRef (Scene.fadeFrame sp s) = Some g' /\
    (Scene.visible g' = true <-> Scene.fadeOpacity sp > 0.01) /\
    (Scene.visible g' = true ->
       Scene.scale g' = 0.5 + Scene.fadeOpacity sp * 0.5 /\ 0.5 <= Scene.scale g' <= 1) /\
    (Scene.visible g' = false -> Scene.scale g' = Scene.scale g) /\
    (0.5 <= Scene.scale g <= 1 -> 0.5 <= Scene.scale g' <= 1).
Proof.
  intros Hg. unfold Scene.fadeFrame. rewrite Hg.
  pose proof (fadeOpacity_range sp) as Hr.
  destruct (Rgt_dec (Scene.fadeOpacity sp) 0.01) as [Hvis | Hinv]; simpl.
  - destruct (fold_left _ _ _) as [mats base]. eexists. split; [reflexivity |]. simpl.
    unfold Scene.FADE_CONFIG.minScale.
    repeat split; intros; try discriminate; try assumption; lra.
  - eexists. split; [reflexivity |]. simpl.
    repeat split; intros; try discriminate; try assumption; try reflexivity; try lra.
Qed.

(** The fade invariant holds along any sequence of frames from the mounted
    group's default scale of [1]. *)
Lemma core_scale_invariant (sps : list R) (s : Scene.FadeState) (g : Scene.CoreGroup) :
  Scene.coreGroupRef s = Some g ->
  0.5 <= Scene.scale g <= 1 ->
  exists g', Scene.coreGroupRef (fold_left (fun s sp => Scene.fadeFrame sp s) sps s) = Some g' /\
             0.5 <= Scene.scale g' <= 1.
Proof.
  revert s g. induction sps as [| sp sps IH]; intros s g Hg Hs; simpl.
  - exists g. split; assumption.
  - destruct (fadeFrame_group sp s g Hg) as (g' & Hg' & _ & _ & _ & Hinv).
    apply (IH _ g' Hg'). apply Hinv, Hs.
Qed.

(** C9. The core's fade opacity is [1] up to a scroll progress of [0.08],
    [0] from [0.3] on and linear in between; it is non-increasing and
    continuous. The frame callback marks the group visible exactly when the
    opacity exceeds [0.01]; a visible group gets the scale
    [0.5 + 0.5 * opacity], an invisible one keeps its scale, so the scale
    stays within [[0.5, 1]]. *)
Theorem core_fade_profile :
  (forall sp, sp <= 0.08 -> Scene.fadeOpacity sp = 1) /\
  (forall sp, 0.3 <= sp -> Scene.fadeOpacity sp = 0) /\
  (forall sp, 0.08 <= sp <= 0.3 ->
     Scene.fadeOpacity sp = 1 - (sp - 0.08) / (0.3 - 0.08)) /\
  (forall a b, a <= b -> Scene.fadeOpacity b <= Scene.fadeOpacity a) /\
  continuity Scene.fadeOpacity /\
  (forall sp s g, Scene.coreGroupRef s = Some g ->
     exists g', Scene.coreGroupRef (Scene.fadeFrame sp s) = Some g' /\
       (Scene.visible g' = true <-> Scene.fadeOpacity sp > 0.01) /\
       (Scene.visible g' = true ->
          Scene.scale g' = 0.5 + Scene.fadeOpacity sp * 0.5 /\ 0.5 <= Scene.scale g' <= 1) /\
       (Scene.visible g' = false -> Scene.scale g' = Scene.scale g) /\
       (0.5 <= Scene.scale g <= 1 -> 0.5 <= Scene.scale g' <= 1)).
Proof.
  split; [exact fadeOpacity_before |].
  split; [exact fadeOpacity_after |].
  split; [exact fadeOpacity_between |].
  split; [exact fadeOpacity_decreasing |].
  split; [exact fadeOpacity_continuous |].
  intros sp s g Hg. exact (fadeFrame_group sp s g Hg).
Qed.

(** ** Adaptive particle count *)

(** [Math.floor] is the integer part: an integer at most its argument and
    less than one below it. *)
Lemma Math_floor_spec (a : R) :
  exists z : Z, JS.Math_floor a = IZR z /\ IZR z <= a < IZR z + 1.
Proof.
  exists (Int_part a). split; [reflexivity |].
  pose proof (Math_floor_le a). pose proof (Math_floor_gt a).
  unfold JS.Math_floor in *. lra.
Qed.

Lemma useAdaptiveCount_cases (baseCount : R) (quality : option Particles.Quality) (env : Device.Env) :
  Particles.useAdaptiveCount baseCount quality env = JS.Math_floor (0.3 * baseCount) \/
  Particles.useAdaptiveCount baseCount quality env = JS.Math_floor (0.6 * baseCount) \/
  Particles.useAdaptiveCount baseCount quality env = baseCount.
Proof.
  rewrite (Rmult_comm 0.3), (Rmult_comm 0.6).
  unfold Particles.useAdaptiveCount.
  destruct quality as [[] |]; auto.
  destruct (_ || _); auto.
  destruct (JS.ltb _ _); auto.
Qed.

(** C10. For a base count (a non-negative number) and any quality argument,
    the adaptive count never exceeds the base count: it is
    [floor (0.3 * base)] for ['low'], [floor (0.6 * base)] for ['medium'],
    [base] for ['high'] and one of these three when the quality is absent;
    this is the count [Particles] hands to [generatePositions]. *)
Theorem useAdaptiveCount_at_most_base
    (baseCount : R) (quality : option Particles.Quality) (env : Device.Env) :
  0 <= baseCount ->
  let n := Particles.useAdaptiveCount baseCount quality env in
  n <= baseCount /\
  (quality = Some Particles.low -> n = JS.Math_floor (0.3 * baseCount)) /\
  (quality = Some Particles.medium -> n = JS.Math_floor (0.6 * baseCount)) /\
  (quality = Some Particles.high -> n = baseCount) /\
  (quality = None ->
     n = JS.Math_floor (0.3 * baseCount) \/
     n = JS.Math_floor (0.6 * baseCount) \/
     n = baseCount) /\
  (forall pattern,
     fst (Particles.generateArguments
            {| Particles.p_count := Some baseCount;
               Particles.p_pattern := pattern;
               Particles.p_quality := quality |} env) = n).
Proof.
  intros Hbase n.
  split.
  - subst n.
    destruct (useAdaptiveCount_cases baseCount quality env) as [-> | [-> | ->]].
    + rewrite Rmult_comm. apply Math_floor_scale_le; lra.
    + rewrite Rmult_comm. apply Math_floor_scale_le; lra.
    + lra.
  - subst n. rewrite (Rmult_comm 0.3), (Rmult_comm 0.6).
    split; [intros ->; reflexivity |].
    split; [intros ->; reflexivity |].
    split; [intros ->; reflexivity |].
    split.
    + intros ->. rewrite <- (Rmult_comm 0.3), <- (Rmult_comm 0.6).
      apply useAdaptiveCount_cases.
    + intros pattern. reflexivity.
Qed.

Lemma useAdaptiveCount_at_most_base_witness :
  0 <= 2000 /\ Particles.useAdaptiveCount 2000 None (browser desktopUA 1 Device.Throw) <= 2000.
Proof.
  split; [lra |].
  exact (proj1 (useAdaptiveCount_at_most_base 2000 None (browser desktopUA 1 Device.Throw) ltac:(lra))).
Defined.

(** The scene's three particle budgets under the quality it passes on. *)
Example useAdaptiveCount_scene_low (env : Device.Env) :
  Particles.useAdaptiveCount (Scene.particleCount Scene.low) (Some Particles.low) env = 180.
Proof.
  simpl. unfold JS.Math_floor.
  rewrite <- (Int_part_spec (600 * 0.3) 180); [reflexivity | lra].
Qed.

(** ** Quality detection *)

(** The tier chosen by the device heuristics alone, as a relation. *)
Lemma heuristic_tier (isMobile : bool) (pixelRatio : R) (tier : PostProcessing.QualityLevel) :
  tier = (if isMobile then PostProcessing.low
          else if JS.ltb pixelRatio 1.5 then PostProcessing.low
          else if JS.geb pixelRatio 2 then PostProcessing.high
          else PostProcessing.medium) ->
  (tier = PostProcessing.low <-> isMobile = true \/ pixelRatio < 1.5) /\
  (tier = PostProcessing.medium <-> isMobile = false /\ 1.5 <= pixelRatio < 2) /\
  (tier = PostProcessing.high <-> isMobile = false /\ 2 <= pixelRatio) /\
  tier <> PostProcessing.ultra.
Proof.
  intros ->.
  destruct isMobile.
  { intuition (try discriminate; try lra). }
  destruct (JS.ltb pixelRatio 1.5) eqn:E15;
    [apply ltb_true in E15 | apply ltb_false in E15].
  { intuition (try discriminate; try lra). }
  destruct (JS.geb pixelRatio 2) eqn:E2;
    [apply geb_true in E2 | apply geb_false in E2];
    intuition (try discriminate; try lra).
Qed.

Lemma useDeviceQuality_selectTier (env : Device.Env) :
  PostProcessing.useDeviceQuality env =
  match detectionInputs env with
  | Some (isMobileUA, pixelRatio, gpu) => selectTier isMobileUA pixelRatio gpu
  | None => PostProcessing.medium
  end.
Proof.
  unfold PostProcessing.useDeviceQuality, detectionInputs.
  destruct (Device.navigator_userAgent env) as [userAgent |]; [| reflexivity].
  unfold PostProcessing.introspect, selectTier, gpuName, Device.bind.
  destruct (Device.getContext (Device.gl env)) as [renderer |]; [| reflexivity].
  cbv beta iota.
  destruct (Device.getExtension renderer _) as [[info |] |]; try reflexivity.
  cbv beta iota.
  destruct (Device.getParameter renderer _) as [gpuRenderer |]; [| reflexivity].
  cbv beta iota zeta.
  destruct (RegExp.test RegExp.highEndPattern gpuRenderer
            && JS.geb (Device.getPixelRatio (Device.gl env)) 2); reflexivity.
Qed.

(** C3. The tier [useDeviceQuality] returns is determined by the three
    inputs: two environments that agree on whether the user agent matches
    the mobile pattern, on the pixel ratio and on the GPU renderer string
    (or its absence) get the same tier. *)
Theorem useDeviceQuality_deterministic (env1 env2 : Device.Env) :
  detectionInputs env1 = detectionInputs env2 ->
  PostProcessing.useDeviceQuality env1 = PostProcessing.useDeviceQuality env2.
Proof.
  intros H. rewrite !useDeviceQuality_selectTier, H. reflexivity.
Qed.

Lemma iPhoneUA_mobile : RegExp.test RegExp.mobilePattern iPhoneUA = true.
Proof. vm_compute. reflexivity. Qed.

Lemma androidUA_mobile : RegExp.test RegExp.mobilePattern androidUA = true.
Proof. vm_compute. reflexivity. Qed.

Lemma desktopUA_not_mobile : RegExp.test RegExp.mobilePattern desktopUA = false.
Proof. vm_compute. reflexivity. Qed.

Example highEndPattern_examples :
  RegExp.test RegExp.highEndPattern "ANGLE (NVIDIA GeForce RTX 3080 Direct3D11)" = true /\
  RegExp.test RegExp.highEndPattern "Apple M2" = true /\
  RegExp.test RegExp.highEndPattern "apple m3 pro" = true /\
  RegExp.test RegExp.highEndPattern "Apple M4" = false /\
  RegExp.test RegExp.highEndPattern "Mali-G78" = false.
Proof. vm_compute. repeat split. Qed.

Lemma useDeviceQuality_deterministic_witness :
  PostProcessing.useDeviceQuality (browser iPhoneUA 3 Device.Throw) =
  PostProcessing.useDeviceQuality (browser androidUA 3 (Device.Ok plainContext)).
Proof.
  apply useDeviceQuality_deterministic.
  unfold detectionInputs, gpuName. read_env.
  rewrite iPhoneUA_mobile, androidUA_mobile. reflexivity.
Defined.

(** An ultra-tier desktop, for reference. *)
Example useDeviceQuality_ultra :
  PostProcessing.useDeviceQuality
    (browser desktopUA 2 (Device.Ok (debugContext "ANGLE (NVIDIA GeForce RTX 3080 Direct3D11)")))
  = PostProcessing.ultra.
Proof.
  rewrite useDeviceQuality_selectTier. unfold detectionInputs, selectTier, gpuName. read_env.
  replace (RegExp.test RegExp.highEndPattern _) with true by (vm_compute; reflexivity).
  replace (JS.geb 2 2) with true by (symmetry; apply geb_true; lra).
  reflexivity.
Qed.

(** A throwing introspection on a desktop of pixel ratio 2 gives the tier
    ['high'], not ['medium']. *)
Lemma introspection_throws_high :
  PostProcessing.introspect (Device.gl (browser desktopUA 2 Device.Throw)) 2 = Device.Throw /\
  PostProcessing.useDeviceQuality (browser desktopUA 2 Device.Throw) = PostProcessing.high /\
  PostProcessing.useDeviceQuality (browser desktopUA 2 Device.Throw) <> PostProcessing.medium.
Proof.
  split; [reflexivity |].
  assert (H : PostProcessing.useDeviceQuality (browser desktopUA 2 Device.Throw) = PostProcessing.high).
  { unfold PostProcessing.useDeviceQuality, PostProcessing.introspect. read_env.
    rewrite desktopUA_not_mobile.
    replace (JS.ltb 2 1.5) with false by (symmetry; apply ltb_false; lra).
    replace (JS.geb 2 2) with true by (symmetry; apply geb_true; lra).
    reflexivity. }
  rewrite H. split; [reflexivity | discriminate].
Qed.

(** C4 (amended). When the GPU introspection throws, the exception is
    swallowed and the tier comes from the user agent and the pixel ratio
    alone: ['low'] on a mobile user agent or below a pixel ratio of 1.5,
    ['high'] from a pixel ratio of 2 on, ['medium'] in between; never
    ['ultra']. *)
Theorem useDeviceQuality_when_introspection_throws (env : Device.Env) (userAgent : string) :
  Device.navigator_userAgent env = Some userAgent ->
  PostProcessing.introspect (Device.gl env) (Device.getPixelRatio (Device.gl env)) = Device.Throw ->
  let isMobile := RegExp.test RegExp.mobilePattern userAgent in
  let pixelRatio := Device.getPixelRatio (Device.gl env) in
  let tier := PostProcessing.useDeviceQuality env in
  (tier = PostProcessing.low <-> isMobile = true \/ pixelRatio < 1.5) /\
  (tier = PostProcessing.medium <-> isMobile = false /\ 1.5 <= pixelRatio < 2) /\
  (tier = PostProcessing.high <-> isMobile = false /\ 2 <= pixelRatio) /\
  tier <> PostProcessing.ultra.
Proof.
  intros Hua Hthrow isMobile pixelRatio tier.
  apply heuristic_tier.
  subst tier. unfold PostProcessing.useDeviceQuality.
  rewrite Hua, Hthrow. reflexivity.
Qed.

Lemma useDeviceQuality_when_introspection_throws_witness :
  PostProcessing.useDeviceQuality (browser iPhoneUA 3 Device.Throw) <> PostProcessing.ultra.
Proof.
  exact (proj2 (proj2 (proj2
    (useDeviceQuality_when_introspection_throws (browser iPhoneUA 3 Device.Throw) iPhoneUA
       eq_refl eq_refl)))).
Defined.

(** ** Post-processing pipeline *)

Lemma PostProcessing_forced (props : PostProcessing.Props) (env : Device.Env) (timeRef : R)
    (q : PostProcessing.QualityLevel) :
  PostProcessing.quality props = Some q ->
  map PostProcessing.kind (PostProcessing.passes (PostProcessing.PostProcessing props env timeRef))
  = fullChain.
Proof.
  intros Hq. unfold PostProcessing.PostProcessing. rewrite Hq.
  cbn [default]. destruct q; reflexivity.
Qed.

Lemma PostProcessing_detected (props : PostProcessing.Props) (env : Device.Env) (timeRef : R) :
  PostProcessing.quality props = None ->
  map PostProcessing.kind (PostProcessing.passes (PostProcessing.PostProcessing props env timeRef))
  = match PostProcessing.useDeviceQuality env with
    | PostProcessing.low => reducedChain
    | _ => fullChain
    end.
Proof.
  intros Hq. unfold PostProcessing.PostProcessing. rewrite Hq.
  cbn [default]. destruct (PostProcessing.useDeviceQuality env); reflexivity.
Qed.

(** With the prop [quality="low"] the effective tier is ['low'], yet the
    component renders the full chain of eight passes. *)
Lemma forced_low_renders_full_chain :
  PostProcessing.quality (onlyQuality (Some PostProcessing.low)) = Some PostProcessing.low /\
  map PostProcessing.kind
    (PostProcessing.passes
       (PostProcessing.PostProcessing (onlyQuality (Some PostProcessing.low))
          (browser desktopUA 2 Device.Throw) 0))
  = fullChain /\
  map PostProcessing.kind
    (PostProcessing.passes
       (PostProcessing.PostProcessing (onlyQuality (Some PostProcessing.low))
          (browser desktopUA 2 Device.Throw) 0))
  <> reducedChain.
Proof.
  rewrite (PostProcessing_forced (onlyQuality (Some PostProcessing.low)) _ _
             PostProcessing.low eq_refl).
  repeat split. discriminate.
Qed.

(** C5 (amended). The reduced two-pass pipeline (bloom, then vignette) is
    rendered exactly when no [quality] prop is given and the detected tier
    is ['low']; with a [quality] prop, ['low'] included, the component
    renders the full chain with that tier's preset, whatever tier the
    device detection finds. *)
Theorem PostProcessing_pipeline (props : PostProcessing.Props) (env : Device.Env) (timeRef : R) :
  let rendered :=
    map PostProcessing.kind
      (PostProcessing.passes (PostProcessing.PostProcessing props env timeRef)) in
  (PostProcessing.quality props = None ->
   PostProcessing.useDeviceQuality env = PostProcessing.low ->
   rendered = reducedChain /\
   PostProcessing.composer_multisampling (PostProcessing.PostProcessing props env timeRef) = 0%nat) /\
  (forall q, PostProcessing.quality props = Some q ->
     let preset := PostProcessing.qualityPresets q in
     let intensity := default 1 (PostProcessing.p_intensity props) in
     let animated := default false (PostProcessing.animated props) in
     let strength :=
       (default 0.0006 (PostProcessing.aberrationStrength props)
        + (if animated
           then JS.Math_sqrt (default 0 (PostProcessing.mouseX props) ^ 2
                              + default 0 (PostProcessing.mouseY props) ^ 2) * 0.0003
           else 0)) * intensity in
     rendered = fullChain /\
     PostProcessing.PostProcessing props env timeRef
     = PostProcessing.FullPostProcessing preset
         (default true (PostProcessing.p_enableAA props))
         (default true (PostProcessing.p_enableBloom props))
         (default true (PostProcessing.p_enableAberration props))
         (default true (PostProcessing.p_enableVignette props))
         (default (PostProcessing.enableNoise preset) (PostProcessing.p_enableNoise props))
         (default false (PostProcessing.p_enableColorGrading props))
         ((default (PostProcessing.bloomIntensity preset) (PostProcessing.p_bloomIntensity props)
           + (if animated then JS.Math_sin (timeRef * 0.5) * 0.1 else 0)) * intensity)
         (default 0.7 (PostProcessing.vignetteDarkness props) * intensity)
         (default 0.15 (PostProcessing.noiseOpacity props) * intensity)
         (strength, strength) intensity /\
     (forall env',
        PostProcessing.PostProcessing props env' timeRef
        = PostProcessing.PostProcessing props env timeRef)) /\
  (rendered = reducedChain <->
   PostProcessing.quality props = None /\
   PostProcessing.useDeviceQuality env = PostProcessing.low).
Proof.
  intros rendered. subst rendered.
  split; [| split].
  - intros Hq Hlow. split.
    + rewrite PostProcessing_detected by exact Hq. rewrite Hlow. reflexivity.
    + unfold PostProcessing.PostProcessing. rewrite Hq, Hlow. reflexivity.
  - intros q Hq preset intensity animated strength.
    split; [exact (PostProcessing_forced props env timeRef q Hq) |].
    split.
    + subst preset intensity animated strength.
      unfold PostProcessing.PostProcessing. rewrite Hq. destruct q; reflexivity.
    + intros env'. unfold PostProcessing.PostProcessing. rewrite Hq. cbn [default from_option].
      unfold Datatypes.id. destruct q; reflexivity.
  - split.
    + intros Hr. destruct (PostProcessing.quality props) as [q |] eqn:Hq.
      * rewrite (PostProcessing_forced props env timeRef q Hq) in Hr. discriminate.
      * rewrite (PostProcessing_detected props env timeRef Hq) in Hr.
        destruct (PostProcessing.useDeviceQuality env); try discriminate. auto.
    + intros [Hq Hlow].
      rewrite PostProcessing_detected by exact Hq. rewrite Hlow. reflexivity.
Qed.

Lemma iPhone_detected_low :
  PostProcessing.useDeviceQuality (browser iPhoneUA 3 Device.Throw) = PostProcessing.low.
Proof.
  unfold PostProcessing.useDeviceQuality, PostProcessing.introspect. read_env.
  rewrite iPhoneUA_mobile. reflexivity.
Qed.

Lemma PostProcessing_pipeline_witness :
  map PostProcessing.kind
    (PostProcessing.passes
       (PostProcessing.PostProcessing (onlyQuality None) (browser iPhoneUA 3 Device.Throw) 0))
  = reducedChain /\
  map PostProcessing.kind
    (PostProcessing.passes
       (PostProcessing.PostProcessing (onlyQuality (Some PostProcessing.low))
          (browser desktopUA 2 Device.Throw) 0))
  = fullChain /\
  PostProcessing.PostProcessing (onlyQuality (Some PostProcessing.low))
    (browser desktopUA 2 Device.Throw) 0
  = PostProcessing.FullPostProcessing (PostProcessing.qualityPresets PostProcessing.low)
      true true true true false false
      ((1.0 + 0) * 1) (0.7 * 1) (0.15 * 1) ((0.0006 + 0) * 1, (0.0006 + 0) * 1) 1.
Proof.
  split.
  - exact (proj1 (proj1 (PostProcessing_pipeline (onlyQuality None)
                           (browser iPhoneUA 3 Device.Throw) 0)
                    eq_refl iPhone_detected_low)).
  - destruct (proj1 (proj2 (PostProcessing_pipeline (onlyQuality (Some PostProcessing.low))
                              (browser desktopUA 2 Device.Throw) 0))
                PostProcessing.low eq_refl) as (Hkinds & Hfull & _).
    split; [exact Hkinds | exact Hfull].
Defined.

(** ** Energy core: pointer target and idle rotation *)


Lemma frame_targetRotation (props : EnergyCore.Props) (env : Device.Env) (time delta : R)
    (s : EnergyCore.State) :
  EnergyCore.targetRotation (EnergyCore.frame props env time delta s) =
  {| EnergyCore.x := default 0 (EnergyCore.p_mouseY props) * 0.2;
     EnergyCore.y := default 0 (EnergyCore.p_mouseX props) * 0.3 |}.
Proof.
  unfold EnergyCore.frame.
  destruct (EnergyCore.groupRef s) as [g |]; reflexivity.
Qed.

(** The group after a frame: its rotation is the smoothed rotation, plus
    the idle increment on [y] when the idle condition holds. *)
Lemma frame_group_rotation (props : EnergyCore.Props) (env : Device.Env) (time delta : R)
    (s : EnergyCore.State) (g : EnergyCore.Group) :
  EnergyCore.groupRef s = Some g ->
  let s' := EnergyCore.frame props env time delta s in
  let idle :=
    default true (EnergyCore.p_autoRotate props)
    && JS.ltb (JS.Math_abs (default 0 (EnergyCore.p_mouseX props))) 0.01
    && JS.ltb (JS.Math_abs (default 0 (EnergyCore.p_mouseY props))) 0.01 in
  exists g', EnergyCore.groupRef s' = Some g' /\
    EnergyCore.rotation_x g' = EnergyCore.x (EnergyCore.currentRotation s') /\
    EnergyCore.rotation_y g' =
      EnergyCore.y (EnergyCore.currentRotation s') + (if idle then delta * 0.1 else 0).
Proof.
  intros Hg s' idle. subst s' idle.
  unfold EnergyCore.frame. rewrite Hg. unfold EnergyCore.frame_group.
  cbn [EnergyCore.groupRef EnergyCore.currentRotation EnergyCore.x EnergyCore.y].
  eexists. split; [reflexivity |].
  cbn [EnergyCore.rotation_x EnergyCore.rotation_y].
  split; [reflexivity |].
  destruct (_ && _); lra.
Qed.

(** The smoothed rotation after a frame with the group mounted. *)
Lemma frame_currentRotation (props : EnergyCore.Props) (env : Device.Env) (time delta : R)
    (s : EnergyCore.State) (g : EnergyCore.Group) :
  EnergyCore.groupRef s = Some g ->
  let s' := EnergyCore.frame props env time delta s in
  let lerpFactor := 1 - JS.Math_pow 0.001 delta in
  EnergyCore.x (EnergyCore.currentRotation s') =
    EnergyCore.x (EnergyCore.currentRotation s)
    + (EnergyCore.x (EnergyCore.targetRotation s') - EnergyCore.x (EnergyCore.currentRotation s))
      * lerpFactor * 3 /\
  EnergyCore.y (EnergyCore.currentRotation s') =
    EnergyCore.y (EnergyCore.currentRotation s)
    + (EnergyCore.y (EnergyCore.targetRotation s') - EnergyCore.y (EnergyCore.currentRotation s))
      * lerpFactor * 3.
Proof.
  intros Hg s' lerpFactor. subst s' lerpFactor.
  unfold EnergyCore.frame. rewrite Hg. unfold EnergyCore.frame_group.
  cbn [EnergyCore.targetRotation EnergyCore.currentRotation EnergyCore.x EnergyCore.y].
  split; reflexivity.
Qed.




(** ** Smoothing: the decay factor [Math.pow(0.001, t)] *)

Lemma pow_decay (t : R) : JS.Math_pow 0.001 t = Rpower 0.001 t.
Proof.
  unfold JS.Math_pow. destruct Rlt_dec as [_ | H]; [reflexivity | lra].
Qed.

Lemma pow_decay_0 : JS.Math_pow 0.001 0 = 1.
Proof. rewrite pow_decay. apply Rpower_O. lra. Qed.

Lemma pow_decay_1 : JS.Math_pow 0.001 1 = 0.001.
Proof. rewrite pow_decay. apply Rpower_1. lra. Qed.

Lemma pow_decay_plus (a b : R) :
  JS.Math_pow 0.001 (a + b) = JS.Math_pow 0.001 a * JS.Math_pow 0.001 b.
Proof. rewrite !pow_decay. apply Rpower_plus. Qed.

Lemma pow_decay_range (t : R) : 0 < t -> 0 < JS.Math_pow 0.001 t < 1.
Proof.
  intros Ht. rewrite pow_decay. unfold Rpower. split; [apply exp_pos |].
  rewrite <- exp_0. apply exp_increasing.
  assert (Hln : ln 0.001 < 0).
  { rewrite <- ln_1. apply ln_increasing; lra. }
  nra.
Qed.

(** The decay factor falls below any positive bound once enough time has
    elapsed. *)
Lemma pow_decay_vanishes (eps : R) :
  0 < eps -> exists T, 0 < T /\ forall t, T <= t -> JS.Math_pow 0.001 t < eps.
Proof.
  intros Heps.
  assert (Hln : ln 0.001 < 0).
  { rewrite <- ln_1. apply ln_increasing; lra. }
  set (T := Rmax 1 (ln eps / ln 0.001 + 1)).
  exists T. split.
  { unfold T. pose proof (Rmax_l 1 (ln eps / ln 0.001 + 1)). lra. }
  intros t Ht. rewrite pow_decay. unfold Rpower.
  rewrite <- (exp_ln eps) at 1 by exact Heps.
  apply exp_increasing.
  assert (HT : ln eps / ln 0.001 + 1 <= t).
  { unfold T in Ht. pose proof (Rmax_r 1 (ln eps / ln 0.001 + 1)). lra. }
  assert (Hq : ln eps / ln 0.001 * ln 0.001 = ln eps).
  { unfold Rdiv. rewrite Rmult_assoc, Rinv_l by lra. lra. }
  nra.
Qed.

(** ** Camera smoothing *)

Lemma cameraFrame_mounted mouse scrollProgress delta (s : Scene.CameraState) camera :
  Scene.cameraRef s = Some camera ->
  exists camera', Scene.cameraRef (Scene.cameraFrame mouse scrollProgress delta s) = Some camera'
                  /\ Scene.position camera' =
                     Scene.currentPos (Scene.cameraFrame mouse scrollProgress delta s).
Proof.
  intros Hc. unfold Scene.cameraFrame. rewrite Hc. eexists. split; reflexivity.
Qed.

(** One frame multiplies the offset to the target by the decay factor of
    the frame's duration. *)
Lemma cameraFrame_offset mouse scrollProgress delta (s : Scene.CameraState) camera :
  Scene.cameraRef s = Some camera ->
  offset (cameraTarget mouse scrollProgress)
         (Scene.currentPos (Scene.cameraFrame mouse scrollProgress delta s))
  = scaled (JS.Math_pow 0.001 (2.4 * delta))
           (offset (cameraTarget mouse scrollProgress) (Scene.currentPos s)).
Proof.
  intros Hc. unfold Scene.cameraFrame. rewrite Hc.
  unfold offset, scaled, cameraTarget, Scene.lerp,
    Scene.CAMERA_CONFIG.mouseInfluenceX, Scene.CAMERA_CONFIG.mouseInfluenceY,
    Scene.CAMERA_CONFIG.initialZ, Scene.CAMERA_CONFIG.maxScrollZ, Scene.CAMERA_CONFIG.lerpSpeed.
  cbn [Scene.vx Scene.vy Scene.vz Scene.currentPos].
  replace (delta * 0.04 * 60) with (2.4 * delta) by lra.
  f_equal; ring.
Qed.

(** After any run of frames, the offset to the target is the initial one
    times the decay factor of the total elapsed time. *)
Lemma cameraRun_offset mouse scrollProgress (deltas : list R) (s : Scene.CameraState) camera :
  Scene.cameraRef s = Some camera ->
  offset (cameraTarget mouse scrollProgress)
         (Scene.currentPos (Scene.cameraRun mouse scrollProgress deltas s))
  = scaled (JS.Math_pow 0.001 (2.4 * total deltas))
           (offset (cameraTarget mouse scrollProgress) (Scene.currentPos s)).
Proof.
  revert s camera. induction deltas as [| delta deltas IH]; intros s camera Hc.
  - cbn [Scene.cameraRun fold_left total fold_right].
    rewrite Rmult_0_r, pow_decay_0. unfold scaled, offset; cbn [Scene.vx Scene.vy Scene.vz].
    f_equal; ring.
  - unfold Scene.cameraRun. cbn [fold_left].
    destruct (cameraFrame_mounted mouse scrollProgress delta s camera Hc) as (camera' & Hc' & _).
    fold (Scene.cameraRun mouse scrollProgress deltas
            (Scene.cameraFrame mouse scrollProgress delta s)).
    rewrite (IH _ camera' Hc'), (cameraFrame_offset _ _ _ _ camera Hc).
    cbn [total fold_right]. fold (total deltas).
    replace (2.4 * (delta + total deltas)) with (2.4 * total deltas + 2.4 * delta) by lra.
    rewrite pow_decay_plus.
    unfold scaled; cbn [Scene.vx Scene.vy Scene.vz]. f_equal; ring.
Qed.

Lemma offset_inj (target v w : Scene.Vector3) : offset target v = offset target w -> v = w.
Proof.
  destruct v as [a b c], w as [a' b' c']. unfold offset; cbn [Scene.vx Scene.vy Scene.vz].
  intros H. injection H as Hx Hy Hz. f_equal; lra.
Qed.

(** X28. The camera position after a given elapsed time does not depend
    on how that time is cut into frames. *)
Lemma camera_frame_rate_independent mouse scrollProgress (deltas1 deltas2 : list R)
    (s : Scene.CameraState) camera :
  Scene.cameraRef s = Some camera ->
  total deltas1 = total deltas2 ->
  Scene.currentPos (Scene.cameraRun mouse scrollProgress deltas1 s)
  = Scene.currentPos (Scene.cameraRun mouse scrollProgress deltas2 s).
Proof.
  intros Hc Ht. apply (offset_inj (cameraTarget mouse scrollProgress)).
  rewrite !(cameraRun_offset _ _ _ _ camera Hc), Ht. reflexivity.
Qed.

(** X29. A frame of positive duration moves every coordinate of the camera
    towards its target without passing it. *)
Lemma camera_frame_monotone mouse scrollProgress delta (s : Scene.CameraState) camera :
  Scene.cameraRef s = Some camera ->
  0 < delta ->
  let target := cameraTarget mouse scrollProgress in
  let before := offset target (Scene.currentPos s) in
  let after := offset target (Scene.currentPos (Scene.cameraFrame mouse scrollProgress delta s)) in
  (0 <= Scene.vx before -> 0 <= Scene.vx after <= Scene.vx before) /\
  (Scene.vx before <= 0 -> Scene.vx before <= Scene.vx after <= 0) /\
  (0 <= Scene.vy before -> 0 <= Scene.vy after <= Scene.vy before) /\
  (Scene.vy before <= 0 -> Scene.vy before <= Scene.vy after <= 0) /\
  (0 <= Scene.vz before -> 0 <= Scene.vz after <= Scene.vz before) /\
  (Scene.vz before <= 0 -> Scene.vz before <= Scene.vz after <= 0).
Proof.
  intros Hc Hd target before after. subst target before after.
  rewrite (cameraFrame_offset _ _ _ _ camera Hc).
  pose proof (pow_decay_range (2.4 * delta) ltac:(lra)) as Hk.
  unfold scaled; cbn [Scene.vx Scene.vy Scene.vz].
  repeat split; intros; nra.
Qed.

(** X30. Given enough elapsed time the camera is as close to its target
    as wanted, however the time is cut into frames. *)
Lemma camera_converges mouse scrollProgress (s : Scene.CameraState) camera (eps : R) :
  Scene.cameraRef s = Some camera ->
  0 < eps ->
  exists T, forall deltas, T <= total deltas ->
    let after := offset (cameraTarget mouse scrollProgress)
                   (Scene.currentPos (Scene.cameraRun mouse scrollProgress deltas s)) in
    Rabs (Scene.vx after) < eps /\ Rabs (Scene.vy after) < eps /\ Rabs (Scene.vz after) < eps.
Proof.
  intros Hc Heps.
  set (d := offset (cameraTarget mouse scrollProgress) (Scene.currentPos s)).
  set (m := Rabs (Scene.vx d) + Rabs (Scene.vy d) + Rabs (Scene.vz d) + 1).
  pose proof (Rabs_pos (Scene.vx d)) as Hx. pose proof (Rabs_pos (Scene.vy d)) as Hy.
  pose proof (Rabs_pos (Scene.vz d)) as Hz.
  assert (Hm : 0 < m) by (unfold m; lra).
  destruct (pow_decay_vanishes (eps / m)) as (T & HT & Hsmall).
  { apply Rdiv_lt_0_compat; assumption. }
  exists (T / 2.4). intros deltas Htotal after. subst after.
  rewrite (cameraRun_offset _ _ _ _ camera Hc). fold d.
  assert (Hk : JS.Math_pow 0.001 (2.4 * total deltas) < eps / m).
  { apply Hsmall. unfold Rdiv in Htotal. lra. }
  assert (Hk0 : 0 < JS.Math_pow 0.001 (2.4 * total deltas)).
  { rewrite pow_decay. unfold Rpower. apply exp_pos. }
  assert (Hem : eps / m * m = eps).
  { unfold Rdiv. rewrite Rmult_assoc, Rinv_l by lra. lra. }
  unfold scaled; cbn [Scene.vx Scene.vy Scene.vz].
  rewrite !Rabs_mult, !(Rabs_pos_eq (JS.Math_pow 0.001 _)) by lra.
  unfold m in *. repeat split; nra.
Qed.

Lemma cameraFrame_target mouse scrollProgress delta (s : Scene.CameraState) camera :
  Scene.cameraRef s = Some camera ->
  Scene.targetPos (Scene.cameraFrame mouse scrollProgress delta s)
  = cameraTarget mouse scrollProgress.
Proof.
  intros Hc. unfold Scene.cameraFrame. rewrite Hc.
  unfold cameraTarget, Scene.CAMERA_CONFIG.mouseInfluenceX, Scene.CAMERA_CONFIG.mouseInfluenceY,
    Scene.CAMERA_CONFIG.initialZ, Scene.CAMERA_CONFIG.maxScrollZ.
  reflexivity.
Qed.

(** ** Energy core smoothing *)

Lemma pow_decay_2 : JS.Math_pow 0.001 2 = 0.000001.
Proof.
  replace 2 with (1 + 1) by lra. rewrite pow_decay_plus, pow_decay_1. lra.
Qed.

(** One frame multiplies the offset of the smoothed rotation to its target
    by [3 * Math.pow(0.001, delta) - 2]: the factor [3] sits outside the
    power, so the multiplier is negative once the power drops below [2/3]
    and below [-1] once it drops below [1/3]. *)
Lemma frame_rotation_offset (props : EnergyCore.Props) (env : Device.Env) (time delta : R)
    (s : EnergyCore.State) (g : EnergyCore.Group) :
  EnergyCore.groupRef s = Some g ->
  let s' := EnergyCore.frame props env time delta s in
  EnergyCore.y (EnergyCore.targetRotation s') - EnergyCore.y (EnergyCore.currentRotation s')
  = (EnergyCore.y (EnergyCore.targetRotation s') - EnergyCore.y (EnergyCore.currentRotation s))
    * (3 * JS.Math_pow 0.001 delta - 2).
Proof.
  intros Hg s'.
  destruct (frame_currentRotation props env time delta s g Hg) as [_ Hy].
  fold s' in Hy. rewrite Hy. ring.
Qed.

Lemma pow_decay_third : JS.Math_pow 0.001 (/ 3) = 0.1.
Proof.
  rewrite pow_decay.
  assert (Hcube : Rpower 0.1 3 = 0.001).
  { replace 3 with (1 + 1 + 1) by lra.
    rewrite !Rpower_plus, Rpower_1 by lra. lra. }
  rewrite <- Hcube, Rpower_mult.
  replace (3 * / 3) with 1 by lra.
  apply Rpower_1. lra.
Qed.

(** The decay factor only shrinks with time. *)
Lemma pow_decay_antitone (a b : R) : a <= b -> JS.Math_pow 0.001 b <= JS.Math_pow 0.001 a.
Proof.
  intros Hab. destruct (Req_dec a b) as [-> | Hne]; [lra |].
  replace b with (a + (b - a)) by lra. rewrite pow_decay_plus.
  pose proof (pow_decay_range (b - a) ltac:(lra)) as Hk.
  assert (Ha : 0 < JS.Math_pow 0.001 a).
  { rewrite pow_decay. unfold Rpower. apply exp_pos. }
  nra.
Qed.

(** Any frame of a third of a second or longer throws the smoothed rotation
    to the other side of its target and at least 1.7 times as far from it. *)
Lemma energy_core_slow_frame (props : EnergyCore.Props) (env : Device.Env) (time delta : R)
    (s : EnergyCore.State) (g : EnergyCore.Group) :
  EnergyCore.groupRef s = Some g ->
  / 3 <= delta ->
  let s' := EnergyCore.frame props env time delta s in
  let before :=
    EnergyCore.y (EnergyCore.targetRotation s') - EnergyCore.y (EnergyCore.currentRotation s) in
  let after :=
    EnergyCore.y (EnergyCore.targetRotation s') - EnergyCore.y (EnergyCore.currentRotation s') in
  exists m, after = before * m /\ -2 < m <= -1.7.
Proof.
  intros Hg Hd s' before after. subst before after.
  exists (3 * JS.Math_pow 0.001 delta - 2). split.
  - exact (frame_rotation_offset props env time delta s g Hg).
  - pose proof (pow_decay_antitone (/ 3) delta Hd) as Hle.
    rewrite pow_decay_third in Hle.
    pose proof (pow_decay_range delta ltac:(lra)) as Hk. lra.
Qed.

Lemma run_one props env time delta (s : EnergyCore.State) :
  EnergyCore.run props env [(time, delta)] s = EnergyCore.frame props env time delta s.
Proof. reflexivity. Qed.

Lemma run_two props env t1 d1 t2 d2 (s : EnergyCore.State) :
  EnergyCore.run props env [(t1, d1); (t2, d2)] s
  = EnergyCore.frame props env t2 d2 (EnergyCore.frame props env t1 d1 s).
Proof. reflexivity. Qed.

Lemma frame_keeps_group props env time delta (s : EnergyCore.State) g :
  EnergyCore.groupRef s = Some g ->
  exists g', EnergyCore.groupRef (EnergyCore.frame props env time delta s) = Some g'.
Proof.
  intros Hg. destruct (frame_group_rotation props env time delta s g Hg) as (g' & Hg' & _).
  exists g'. exact Hg'.
Qed.

(** C1 (the energy core's rotation lerp). With the pointer at the right edge
    the target [y] rotation is [0.3]. One frame of one second takes the
    smoothed rotation from [0] to [0.8991]: past the target, and farther
    from it than before. Two seconds elapsed as two frames of one second
    leave it at [-0.8964027], as one frame of two seconds at [0.8999991]. *)
Theorem energy_core_lerp_overshoots (env : Device.Env) :
  EnergyCore.y (EnergyCore.currentRotation EnergyCore.initialState) = 0 /\
  EnergyCore.y (EnergyCore.targetRotation
                  (EnergyCore.run pointerRight env [(1, 1)] EnergyCore.initialState)) = 0.3 /\
  EnergyCore.y (EnergyCore.currentRotation
                  (EnergyCore.run pointerRight env [(1, 1)] EnergyCore.initialState)) = 0.8991 /\
  EnergyCore.y (EnergyCore.currentRotation
                  (EnergyCore.run pointerRight env [(1, 1); (2, 1)] EnergyCore.initialState))
  = -0.8964027 /\
  EnergyCore.y (EnergyCore.currentRotation
                  (EnergyCore.run pointerRight env [(2, 2)] EnergyCore.initialState))
  = 0.8999991.
Proof.
  split; [reflexivity |].
  rewrite !run_one, run_two.
  set (s1 := EnergyCore.frame pointerRight env 1 1 EnergyCore.initialState).
  assert (Ht1 : EnergyCore.y (EnergyCore.targetRotation s1) = 0.3).
  { unfold s1. rewrite frame_targetRotation.
    unfold pointerRight; cbn [EnergyCore.p_mouseX EnergyCore.y default]. unfold Datatypes.id. lra. }
  assert (Hc1 : EnergyCore.y (EnergyCore.currentRotation s1) = 0.8991).
  { destruct (frame_currentRotation pointerRight env 1 1 EnergyCore.initialState _ eq_refl)
      as [_ Hy].
    fold s1 in Hy. rewrite Hy, Ht1, pow_decay_1.
    cbn [EnergyCore.initialState EnergyCore.currentRotation EnergyCore.y]. lra. }
  split; [exact Ht1 |]. split; [exact Hc1 |]. split.
  - destruct (frame_keeps_group pointerRight env 1 1 EnergyCore.initialState _ eq_refl) as [g1 Hg1].
    fold s1 in Hg1.
    destruct (frame_currentRotation pointerRight env 2 1 s1 g1 Hg1) as [_ Hy].
    rewrite Hy, frame_targetRotation, Hc1, pow_decay_1.
    unfold pointerRight; cbn [EnergyCore.p_mouseX EnergyCore.y default]. unfold Datatypes.id. lra.
  - destruct (frame_currentRotation pointerRight env 2 2 EnergyCore.initialState _ eq_refl)
      as [_ Hy].
    rewrite Hy, frame_targetRotation, pow_decay_2.
    unfold pointerRight;
      cbn [EnergyCore.p_mouseX EnergyCore.y default EnergyCore.initialState
           EnergyCore.currentRotation].
    unfold Datatypes.id. lra.
Qed.

(** ** Binary32 rounding *)

Lemma pow2_pos (e : Z) : 0 < powerRZ 2 e.
Proof. apply powerRZ_lt. lra. Qed.

Lemma pow2_succ (e : Z) : powerRZ 2 (e + 1) = 2 * powerRZ 2 e.
Proof. rewrite powerRZ_add by lra. rewrite powerRZ_1. ring. Qed.

Lemma pow2_monotone (a b : Z) : (a <= b)%Z -> powerRZ 2 a <= powerRZ 2 b.
Proof.
  intros Hab. replace b with (a + Z.of_nat (Z.to_nat (b - a)))%Z by lia.
  rewrite powerRZ_add by lra. rewrite <- pow_powerRZ.
  pose proof (pow2_pos a) as Ha.
  pose proof (pow_R1_Rle 2 (Z.to_nat (b - a)) ltac:(lra)) as Hk.
  nra.
Qed.

Lemma Int_part_IZR (k : Z) : Int_part (IZR k) = k.
Proof. symmetry. apply Int_part_spec. lra. Qed.

Lemma Int_part_monotone (a b : R) : a <= b -> (Int_part a <= Int_part b)%Z.
Proof.
  intros Hab.
  destruct (base_Int_part a) as [Ha _]. destruct (base_Int_part b) as [_ Hb].
  apply Z.lt_succ_r. apply lt_IZR. rewrite succ_IZR. lra.
Qed.

(** The three outcomes of [rne], by the fractional part. *)
Lemma rne_cases (y : R) :
  let f := Int_part y in
  IZR f <= y < IZR f + 1 /\
  ((Float32.rne y = f /\ y - IZR f <= 1 / 2) \/
   (Float32.rne y = (f + 1)%Z /\ 1 / 2 <= y - IZR f)).
Proof.
  intros f. destruct (base_Int_part y) as [Hlo Hhi]. fold f in Hlo, Hhi.
  split; [lra |].
  unfold Float32.rne. fold f.
  destruct (Rlt_dec (y - IZR f) (1 / 2)); [left; split; [reflexivity | lra] |].
  destruct (Rlt_dec (1 / 2) (y - IZR f)); [right; split; [reflexivity | lra] |].
  destruct (Z.even f); [left | right]; split; try reflexivity; lra.
Qed.

Lemma rne_error (y : R) : Rabs (IZR (Float32.rne y) - y) <= 1 / 2.
Proof.
  destruct (rne_cases y) as [Hf [[-> Hd] | [-> Hd]]];
    rewrite ?plus_IZR; apply Rabs_le; lra.
Qed.

Lemma rne_IZR (k : Z) : Float32.rne (IZR k) = k.
Proof.
  unfold Float32.rne. rewrite Int_part_IZR.
  destruct Rlt_dec as [_ | H]; [reflexivity | lra].
Qed.

Lemma rne_monotone (a b : R) : a <= b -> (Float32.rne a <= Float32.rne b)%Z.
Proof.
  intros Hab. pose proof (Int_part_monotone a b Hab) as Hf.
  destruct (rne_cases a) as [Ha Ca]. destruct (rne_cases b) as [Hb Cb].
  cbv zeta in *.
  destruct (Z.eq_dec (Int_part a) (Int_part b)) as [Heq | Hne].
  - unfold Float32.rne. rewrite <- Heq.
    destruct (Rlt_dec (a - IZR (Int_part a)) (1 / 2)) as [Ha1 | Ha1].
    + destruct (Rlt_dec (b - IZR (Int_part a)) (1 / 2)); [lia |].
      destruct (Rlt_dec (1 / 2) (b - IZR (Int_part a))); [lia |].
      destruct (Z.even (Int_part a)); lia.
    + destruct (Rlt_dec (b - IZR (Int_part a)) (1 / 2)) as [Hb1 | Hb1]; [lra |].
      destruct (Rlt_dec (1 / 2) (a - IZR (Int_part a))) as [Ha2 | Ha2].
      * destruct (Rlt_dec (1 / 2) (b - IZR (Int_part a))) as [Hb2 | Hb2]; [lia | lra].
      * destruct (Rlt_dec (1 / 2) (b - IZR (Int_part a))) as [Hb2 | Hb2].
        -- destruct (Z.even (Int_part a)); lia.
        -- lia.
  - destruct Ca as [[-> _] | [-> _]]; destruct Cb as [[-> _] | [-> _]]; lia.
Qed.

(** What the exponent search returns. *)
Lemma exponent_from_spec (n : nat) (e : Z) (a : R) :
  let r := Float32.exponent_from n e a in
  (e - Z.of_nat n <= r <= e)%Z /\
  (r = (e - Z.of_nat n)%Z \/ powerRZ 2 r <= a) /\
  ((r < e)%Z -> a < powerRZ 2 (r + 1)).
Proof.
  revert e. induction n as [| n IH]; intros e r; subst r.
  - cbn [Float32.exponent_from]. split; [lia |]. split; [left; lia | lia].
  - cbn [Float32.exponent_from]. destruct (Rle_dec (powerRZ 2 e) a) as [Hle | Hgt].
    + split; [lia |]. split; [right; exact Hle | lia].
    + destruct (IH (e - 1)%Z) as (Hr & Hm & Hu).
      set (r := Float32.exponent_from n (e - 1) a) in *.
      split; [lia |]. split.
      * destruct Hm as [Hm | Hm]; [left; lia | right; exact Hm].
      * intros _. destruct (Z.eq_dec r (e - 1)%Z) as [Heq | Hne].
        -- rewrite Heq. replace (e - 1 + 1)%Z with e by lia. lra.
        -- apply Hu. lia.
Qed.

Lemma exponent_spec (x : R) :
  let e := Float32.exponent x in
  (-126 <= e <= 127)%Z /\
  (e = (-126)%Z \/ powerRZ 2 e <= Rabs x) /\
  ((e < 127)%Z -> Rabs x < powerRZ 2 (e + 1)).
Proof.
  intros e. destruct (exponent_from_spec 253 127 (Rabs x)) as (Hr & Hm & Hu).
  fold (Float32.exponent x) in Hr, Hm, Hu. fold e in Hr, Hm, Hu.
  split; [lia |]. split; [| exact Hu].
  destruct Hm as [Hm | Hm]; [left; lia | right; exact Hm].
Qed.

(** The exponent of a number in a known binade. *)
Lemma exponent_unique (x : R) (e : Z) :
  (-126 <= e <= 127)%Z ->
  powerRZ 2 e <= Rabs x < powerRZ 2 (e + 1) ->
  Float32.exponent x = e.
Proof.
  intros He [Hlo Hhi]. destruct (exponent_spec x) as (Hr & Hm & Hu).
  cbv zeta in *. set (r := Float32.exponent x) in *.
  destruct (Z.lt_trichotomy r e) as [Hlt | [Heq | Hgt]]; [| exact Heq |].
  - specialize (Hu ltac:(lia)).
    pose proof (pow2_monotone (r + 1) e ltac:(lia)). lra.
  - destruct Hm as [Hm | Hm]; [lia |].
    pose proof (pow2_monotone (e + 1) r ltac:(lia)). lra.
Qed.

Lemma exponent_subnormal (x : R) :
  Rabs x < powerRZ 2 (-126) -> Float32.exponent x = (-126)%Z.
Proof.
  intros Hx. destruct (exponent_spec x) as (Hr & Hm & _). cbv zeta in *.
  destruct Hm as [Hm | Hm]; [exact Hm |].
  pose proof (pow2_monotone (-126) (Float32.exponent x) ltac:(lia)). lra.
Qed.

Lemma ulp_pos (x : R) : 0 < Float32.ulp x.
Proof. apply pow2_pos. Qed.

Lemma fround_scaled (x : R) :
  Float32.fround x / Float32.ulp x = IZR (Float32.rne (x / Float32.ulp x)).
Proof.
  unfold Float32.fround. pose proof (ulp_pos x). field. lra.
Qed.

(** The rounding error is at most half the spacing. *)
Lemma fround_error_ulp (x : R) : Rabs (Float32.fround x - x) <= Float32.ulp x / 2.
Proof.
  pose proof (ulp_pos x) as Hu.
  pose proof (rne_error (x / Float32.ulp x)) as He.
  replace (Float32.fround x - x)
    with ((IZR (Float32.rne (x / Float32.ulp x)) - x / Float32.ulp x) * Float32.ulp x)
    by (unfold Float32.fround; field; lra).
  rewrite Rabs_mult, (Rabs_pos_eq (Float32.ulp x)) by lra.
  nra.
Qed.

(** The rounding error is at most [2 ^ -24] of the magnitude, or
    [2 ^ -150] for the subnormal numbers. *)
Lemma fround_error (x : R) :
  Rabs (Float32.fround x - x) <= powerRZ 2 (-24) * Rabs x + powerRZ 2 (-150).
Proof.
  pose proof (fround_error_ulp x) as He.
  destruct (exponent_spec x) as (Hr & Hm & _). cbv zeta in *.
  pose proof (Rabs_pos x) as Hx.
  pose proof (pow2_pos (-24)) as H24. pose proof (pow2_pos (-150)) as H150.
  assert (Hulp : Float32.ulp x / 2 = powerRZ 2 (Float32.exponent x - 24)).
  { unfold Float32.ulp. replace (Float32.exponent x - 23)%Z with (Float32.exponent x - 24 + 1)%Z by lia.
    rewrite pow2_succ. lra. }
  rewrite Hulp in He.
  destruct Hm as [Hsub | Hnorm].
  - rewrite Hsub in He. replace (-126 - 24)%Z with (-150)%Z in He by lia. nra.
  - replace (Float32.exponent x - 24)%Z with (-24 + Float32.exponent x)%Z in He by lia.
    rewrite powerRZ_add in He by lra. nra.
Qed.

(** A multiple of the spacing around [x] bounds the rounded value as it
    bounds [x]. *)
Lemma fround_below (x : R) (m : Z) :
  x <= IZR m * Float32.ulp x -> Float32.fround x <= IZR m * Float32.ulp x.
Proof.
  intros Hx. pose proof (ulp_pos x) as Hu.
  assert (Hs : x / Float32.ulp x <= IZR m).
  { apply Rmult_le_reg_r with (Float32.ulp x); [exact Hu |].
    unfold Rdiv. rewrite Rmult_assoc, Rinv_l by lra. lra. }
  apply rne_monotone in Hs. rewrite rne_IZR in Hs. apply IZR_le in Hs.
  unfold Float32.fround. nra.
Qed.

Lemma fround_above (x : R) (m : Z) :
  IZR m * Float32.ulp x <= x -> IZR m * Float32.ulp x <= Float32.fround x.
Proof.
  intros Hx. pose proof (ulp_pos x) as Hu.
  assert (Hs : IZR m <= x / Float32.ulp x).
  { apply Rmult_le_reg_r with (Float32.ulp x); [exact Hu |].
    unfold Rdiv. rewrite Rmult_assoc, Rinv_l by lra. lra. }
  apply rne_monotone in Hs. rewrite rne_IZR in Hs. apply IZR_le in Hs.
  unfold Float32.fround. nra.
Qed.

(** A power of two at or above the binade's lower end is a multiple of the
    spacing. *)
Lemma pow2_multiple (x : R) (k : Z) :
  (Float32.exponent x - 23 <= k)%Z ->
  exists m : Z, (0 < m)%Z /\ powerRZ 2 k = IZR m * Float32.ulp x.
Proof.
  intros Hk. exists (2 ^ (k - (Float32.exponent x - 23)))%Z. split.
  - apply Z.pow_pos_nonneg; lia.
  - unfold Float32.ulp.
    replace k with ((k - (Float32.exponent x - 23)) + (Float32.exponent x - 23))%Z at 1 by lia.
    rewrite powerRZ_add by lra. f_equal.
    set (d := (k - (Float32.exponent x - 23))%Z).
    replace d with (Z.of_nat (Z.to_nat d)) by lia.
    rewrite <- pow_powerRZ, <- pow_IZR. reflexivity.
Qed.

(** Rounding keeps the order. *)
Lemma fround_monotone (x y : R) : x <= y -> Float32.fround x <= Float32.fround y.
Proof.
  intros Hxy.
  destruct (exponent_spec x) as (Hrx & Hmx & Hux).
  destruct (exponent_spec y) as (Hry & Hmy & Huy).
  cbv zeta in *.
  set (ex := Float32.exponent x) in *. set (ey := Float32.exponent y) in *.
  destruct (Z.eq_dec ex ey) as [Heq | Hne].
  - assert (Hu : Float32.ulp x = Float32.ulp y).
    { unfold Float32.ulp. fold ex ey. rewrite Heq. reflexivity. }
    pose proof (ulp_pos y) as Hpos.
    unfold Float32.fround. rewrite Hu.
    assert (Hs : x / Float32.ulp y <= y / Float32.ulp y).
    { unfold Rdiv. apply Rmult_le_compat_r; [| exact Hxy].
      left. apply Rinv_0_lt_compat, Hpos. }
    apply rne_monotone, IZR_le in Hs. nra.
  - destruct (Rle_dec 0 x) as [Hx0 | Hx0]; [| destruct (Rle_dec y 0) as [Hy0 | Hy0]].
    + (* 0 <= x <= y *)
      rewrite (Rabs_pos_eq x) in * by lra. rewrite (Rabs_pos_eq y) in * by lra.
      assert (Hlt : (ex < ey)%Z).
      { destruct (Z.lt_trichotomy ex ey) as [H | [H | H]]; [exact H | contradiction |].
        exfalso. destruct Hmx as [Hmx | Hmx]; [lia |].
        specialize (Huy ltac:(lia)).
        pose proof (pow2_monotone (ey + 1) ex ltac:(lia)). lra. }
      specialize (Hux ltac:(lia)).
      destruct Hmy as [Hmy | Hmy]; [lia |].
      destruct (pow2_multiple x (ex + 1) ltac:(fold ex; lia)) as (mx & _ & Hgx).
      destruct (pow2_multiple y ey ltac:(fold ey; lia)) as (my & _ & Hgy).
      pose proof (fround_below x mx ltac:(rewrite <- Hgx; lra)) as Hbx.
      pose proof (fround_above y my ltac:(rewrite <- Hgy; lra)) as Hay.
      pose proof (pow2_monotone (ex + 1) ey ltac:(lia)).
      rewrite <- Hgx in Hbx. rewrite <- Hgy in Hay. lra.
    + (* x <= y <= 0 *)
      rewrite (Rabs_left1 x) in * by lra. rewrite (Rabs_left1 y) in * by lra.
      assert (Hlt : (ey < ex)%Z).
      { destruct (Z.lt_trichotomy ey ex) as [H | [H | H]]; [exact H | congruence |].
        exfalso. destruct Hmy as [Hmy | Hmy]; [lia |].
        specialize (Hux ltac:(lia)).
        pose proof (pow2_monotone (ex + 1) ey ltac:(lia)). lra. }
      specialize (Huy ltac:(lia)).
      destruct Hmx as [Hmx | Hmx]; [lia |].
      destruct (pow2_multiple x ex ltac:(fold ex; lia)) as (mx & _ & Hgx).
      destruct (pow2_multiple y (ey + 1) ltac:(fold ey; lia)) as (my & _ & Hgy).
      pose proof (fround_below x (- mx) ltac:(rewrite opp_IZR; lra)) as Hbx.
      pose proof (fround_above y (- my) ltac:(rewrite opp_IZR; lra)) as Hay.
      pose proof (pow2_monotone (ey + 1) ex ltac:(lia)).
      rewrite opp_IZR in Hbx, Hay. lra.
    + (* x < 0 < y *)
      pose proof (fround_below x 0 ltac:(lra)) as Hbx.
      pose proof (fround_above y 0 ltac:(lra)) as Hay. lra.
Qed.

(** A multiple of its own spacing is stored exactly. *)
Lemma fround_exact (x : R) (m : Z) : x = IZR m * Float32.ulp x -> Float32.fround x = x.
Proof.
  intros Hx. pose proof (ulp_pos x) as Hu.
  unfold Float32.fround.
  replace (x / Float32.ulp x) with (IZR m).
  - rewrite rne_IZR. symmetry. exact Hx.
  - rewrite Hx at 1. field. lra.
Qed.

(** A number with a 24-bit significand in a normal binade is stored
    exactly. *)
Lemma fround_representable (x : R) (e m : Z) :
  (-126 <= e <= 127)%Z ->
  powerRZ 2 e <= Rabs x < powerRZ 2 (e + 1) ->
  x = IZR m * powerRZ 2 (e - 23) ->
  Float32.fround x = x.
Proof.
  intros He Hb Hx. apply (fround_exact x m).
  unfold Float32.ulp. rewrite (exponent_unique x e He Hb). exact Hx.
Qed.

Lemma fround_0 : Float32.fround 0 = 0.
Proof. apply (fround_exact 0 0). lra. Qed.

(** The stored value of a number in a known binade, from the integer its
    scaled value is nearest to. *)
Lemma fround_eval (x : R) (e k : Z) :
  (-126 <= e <= 127)%Z ->
  powerRZ 2 e <= Rabs x < powerRZ 2 (e + 1) ->
  IZR k - 1 / 2 < x / powerRZ 2 (e - 23) < IZR k + 1 / 2 ->
  Float32.fround x = IZR k * powerRZ 2 (e - 23).
Proof.
  intros He Hb Hk. unfold Float32.fround, Float32.ulp.
  rewrite (exponent_unique x e He Hb).
  set (y := x / powerRZ 2 (e - 23)) in *.
  pose proof (rne_error y) as Herr.
  unfold Rabs in Herr; destruct Rcase_abs in Herr.
  1,2: assert (Heq : Float32.rne y = k) by
    (assert (H1 : (Float32.rne y < k + 1)%Z) by (apply lt_IZR; rewrite plus_IZR; lra);
     assert (H2 : (k - 1 < Float32.rne y)%Z) by (apply lt_IZR; rewrite minus_IZR; lra);
     lia); rewrite Heq; reflexivity.
Qed.

(** Between two stored values, the stored value stays between them. *)
Lemma fround_between (x lo hi : R) :
  Float32.fround lo = lo -> Float32.fround hi = hi ->
  lo <= x <= hi -> lo <= Float32.fround x <= hi.
Proof.
  intros Hlo Hhi [H1 H2].
  pose proof (fround_monotone lo x H1). pose proof (fround_monotone x hi H2). lra.
Qed.

Lemma fround_consts :
  Float32.fround 0.5 = 0.5 /\ Float32.fround 1 = 1 /\
  Float32.fround 2.5 = 2.5 /\ Float32.fround 3 = 3 /\
  Float32.fround 20 = 20 /\ Float32.fround 25 = 25 /\
  Float32.fround (-3) = -3 /\ Float32.fround (-20) = -20 /\ Float32.fround (-25) = -25.
Proof.
  repeat split.
  - apply (fround_representable _ (-1) 8388608); [lia | rewrite Rabs_pos_eq by lra | ]; simpl; lra.
  - apply (fround_representable _ 0 8388608); [lia | rewrite Rabs_pos_eq by lra | ]; simpl; lra.
  - apply (fround_representable _ 1 10485760); [lia | rewrite Rabs_pos_eq by lra | ]; simpl; lra.
  - apply (fround_representable _ 1 12582912); [lia | rewrite Rabs_pos_eq by lra | ]; simpl; lra.
  - apply (fround_representable _ 4 10485760); [lia | rewrite Rabs_pos_eq by lra | ]; simpl; lra.
  - apply (fround_representable _ 4 13107200); [lia | rewrite Rabs_pos_eq by lra | ]; simpl; lra.
  - apply (fround_representable _ 1 (-12582912)); [lia | rewrite Rabs_left by lra | ]; simpl; lra.
  - apply (fround_representable _ 4 (-10485760)); [lia | rewrite Rabs_left by lra | ]; simpl; lra.
  - apply (fround_representable _ 4 (-13107200)); [lia | rewrite Rabs_left by lra | ]; simpl; lra.
Qed.

(** The stored value of [0.01] is just below it. *)
Lemma fround_hundredth :
  Float32.fround 0.01 <= 0.01 /\ -0.01 <= Float32.fround (-0.01).
Proof.
  split.
  - rewrite (fround_eval 0.01 (-7) 10737418);
      [| lia | rewrite Rabs_pos_eq by lra; simpl; lra | simpl; lra].
    simpl. lra.
  - rewrite (fround_eval (-0.01) (-7) (-10737418));
      [| lia | rewrite Rabs_left by lra; simpl; lra | simpl; lra].
    simpl. lra.
Qed.

(** ** What rounding does to a distance *)

Lemma close_fround (c : R) : close c (Float32.fround c).
Proof. apply fround_error. Qed.

Lemma close_0 : close 0 0.
Proof.
  unfold close. rewrite Rminus_diag, Rabs_R0.
  pose proof (pow2_pos (-24)). pose proof (pow2_pos (-150)). lra.
Qed.

Lemma pow2_small : powerRZ 2 (-24) <= 0.0000001 /\ powerRZ 2 (-150) <= 0.0000001.
Proof.
  split.
  - simpl. lra.
  - pose proof (pow2_monotone (-150) (-24) ltac:(lia)) as H.
    assert (powerRZ 2 (-24) <= 0.0000001) by (simpl; lra). lra.
Qed.

(** The square of a stored coordinate, from the square of the exact
    one. *)
Lemma coord_sq (c c' D E : R) :
  0 <= D <= 1 / 2 -> 0 <= E ->
  Rabs (c' - c) <= D * Rabs c + E ->
  (1 - D) * (1 - D) * (c * c) - 2 * E * Rabs c <= c' * c'
  /\ c' * c' <= ((1 + D) * Rabs c + E) * ((1 + D) * Rabs c + E).
Proof.
  intros HD HE Hc.
  pose proof (Rabs_triang_inv2 c' c) as Ht.
  pose proof (Rabs_pos c) as Ha. pose proof (Rabs_pos c') as Ha'.
  assert (Hsq : c * c = Rabs c * Rabs c).
  { unfold Rabs. destruct Rcase_abs; ring. }
  assert (Hsq' : c' * c' = Rabs c' * Rabs c').
  { unfold Rabs. destruct Rcase_abs; ring. }
  rewrite Hsq, Hsq'.
  set (a := Rabs c) in *. set (a' := Rabs c') in *.
  assert (Hd : - (D * a + E) <= a' - a <= D * a + E).
  { unfold Rabs in Ht at 1. destruct Rcase_abs in Ht; lra. }
  split.
  - destruct (Rle_dec E ((1 - D) * a)) as [Hbig | Hsmall].
    + assert (H1 : 0 <= (1 - D) * a - E) by lra.
      assert (H2 : (1 - D) * a - E <= a') by lra.
      assert (H3 : ((1 - D) * a - E) * ((1 - D) * a - E) <= a' * a')
        by (apply Rmult_le_compat; lra).
      assert (H4 : 0 <= D * (a * E)) by (repeat apply Rmult_le_pos; lra).
      nra.
    + assert (H1 : (1 - D) * a < E) by lra.
      assert (H2 : 0 <= (1 - D) * a) by (apply Rmult_le_pos; lra).
      assert (H3 : (1 - D) * a * ((1 - D) * a) <= (1 - D) * a * E)
        by (apply Rmult_le_compat_l; lra).
      assert (H4 : 0 <= D * (a * E)) by (repeat apply Rmult_le_pos; lra).
      assert (H5 : 0 <= a' * a') by (apply Rmult_le_pos; lra).
      nra.
  - assert (H1 : a' <= (1 + D) * a + E) by lra.
    apply Rmult_le_compat; lra.
Qed.

(** A side of a right triangle is at most the hypotenuse. *)
Lemma side_le (a rest r : R) : 0 <= a -> 0 <= rest -> 0 <= r -> a * a + rest = r * r -> a <= r.
Proof. intros Ha Hrest Hr H. nra. Qed.

(** The distance from the origin of three perturbed coordinates, for a
    relative error [D] and an absolute error [E] of a ten-millionth at
    most. *)
Lemma norm_perturbed_by (D E x y z x' y' z' r : R) :
  0 < D <= 0.0000001 -> 0 < E <= 0.0000001 ->
  1 <= r <= 64 ->
  x * x + y * y + z * z = r * r ->
  Rabs (x' - x) <= D * Rabs x + E ->
  Rabs (y' - y) <= D * Rabs y + E ->
  Rabs (z' - z) <= D * Rabs z + E ->
  r - 0.00001 <= sqrt (x' * x' + y' * y' + z' * z') <= r + 0.00001.
Proof.
  intros HD HE Hr Hsum Hx Hy Hz.
  destruct (coord_sq x x' D E ltac:(lra) ltac:(lra) Hx) as [Lx Ux].
  destruct (coord_sq y y' D E ltac:(lra) ltac:(lra) Hy) as [Ly Uy].
  destruct (coord_sq z z' D E ltac:(lra) ltac:(lra) Hz) as [Lz Uz].
  pose proof (Rabs_pos x) as Hax. pose proof (Rabs_pos y) as Hay. pose proof (Rabs_pos z) as Haz.
  assert (Hsx : x * x = Rabs x * Rabs x) by (unfold Rabs; destruct Rcase_abs; ring).
  assert (Hsy : y * y = Rabs y * Rabs y) by (unfold Rabs; destruct Rcase_abs; ring).
  assert (Hsz : z * z = Rabs z * Rabs z) by (unfold Rabs; destruct Rcase_abs; ring).
  rewrite Hsx in Lx. rewrite Hsy in Ly. rewrite Hsz in Lz. rewrite Hsx, Hsy, Hsz in Hsum.
  clear Hsx Hsy Hsz Hx Hy Hz.
  remember (Rabs x) as a eqn:Ea. remember (Rabs y) as b eqn:Eb. remember (Rabs z) as c eqn:Ec.
  clear Ea Eb Ec.
  assert (Haa : 0 <= a * a) by (apply Rmult_le_pos; lra).
  assert (Hbb : 0 <= b * b) by (apply Rmult_le_pos; lra).
  assert (Hcc : 0 <= c * c) by (apply Rmult_le_pos; lra).
  assert (Har : a <= r) by (apply (side_le a (b * b + c * c) r); lra).
  assert (Hbr : b <= r) by (apply (side_le b (a * a + c * c) r); lra).
  assert (Hcr : c <= r) by (apply (side_le c (a * a + b * b) r); lra).
  remember (x' * x') as X eqn:EX. remember (y' * y') as Y eqn:EY. remember (z' * z') as Z eqn:EZ.
  clear EX EY EZ.
  assert (HDr : 0 <= D * r <= 0.0000064).
  { split; [apply Rmult_le_pos; lra |].
    apply Rle_trans with (0.0000001 * 64); [apply Rmult_le_compat; lra | lra]. }
  set (L := (1 - D) * r - 4 * E).
  set (U := (1 + D) * r + 3 * E).
  assert (Hlow : L * L <= X + Y + Z).
  { assert (H1 : (1 - D) * (1 - D) * (r * r) - 2 * E * (a + b + c) <= X + Y + Z) by nra.
    assert (H2 : E * (a + b + c) <= E * (3 * r)) by (apply Rmult_le_compat_l; lra).
    assert (H3 : 0 <= E * r) by (apply Rmult_le_pos; lra).
    assert (H4 : 0 <= D * (E * r)) by (repeat apply Rmult_le_pos; lra).
    assert (H5 : E * E <= E * (0.0000001 * r)) by (apply Rmult_le_compat_l; lra).
    assert (H6 : D * (E * r) <= 0.0000001 * (E * r)) by (apply Rmult_le_compat_r; lra).
    unfold L. nra. }
  assert (Hupp : X + Y + Z <= U * U).
  { assert (H1 : X + Y + Z
                 <= (1 + D) * (1 + D) * (r * r) + 2 * (1 + D) * E * (a + b + c) + 3 * (E * E))
      by nra.
    assert (H2 : (1 + D) * E * (a + b + c) <= (1 + D) * E * (3 * r)).
    { apply Rmult_le_compat_l; [apply Rmult_le_pos; lra | lra]. }
    assert (H3 : 0 <= E * E) by (apply Rmult_le_pos; lra).
    assert (H4 : 0 <= (1 + D) * E * r) by (repeat apply Rmult_le_pos; lra).
    unfold U. nra. }
  assert (HL : 0 <= L) by (unfold L; lra).
  assert (HU : 0 <= U) by (unfold U; lra).
  split.
  - apply Rle_trans with L; [unfold L; lra |].
    apply Rle_trans with (sqrt (L * L)); [rewrite sqrt_square by exact HL; lra |].
    apply sqrt_le_1_alt. exact Hlow.
  - apply Rle_trans with U; [| unfold U; lra].
    apply Rle_trans with (sqrt (U * U)); [| rewrite sqrt_square by exact HU; lra].
    apply sqrt_le_1_alt. exact Hupp.
Qed.

(** The distance from the origin of three stored coordinates: within a
    hundred-thousandth of the distance of the exact ones, for a distance
    between 1 and 64. *)
Lemma norm_perturbed (x y z x' y' z' r : R) :
  1 <= r <= 64 ->
  x * x + y * y + z * z = r * r ->
  close x x' -> close y y' -> close z z' ->
  r - 0.00001 <= sqrt (x' * x' + y' * y' + z' * z') <= r + 0.00001.
Proof.
  destruct pow2_small as [HD HE].
  pose proof (pow2_pos (-24)) as HD0. pose proof (pow2_pos (-150)) as HE0.
  unfold close.
  apply norm_perturbed_by; lra.
Qed.

(** The stored distance of a point whose exact distance is between [lo]
    and [hi]. *)
Lemma stored_norm (x y z x' y' z' lo hi : R) :
  1 <= lo -> hi <= 64 ->
  lo <= sqrt (x * x + y * y + z * z) <= hi ->
  close x x' -> close y y' -> close z z' ->
  lo - 0.00001 <= sqrt (x' * x' + y' * y' + z' * z') <= hi + 0.00001.
Proof.
  intros Hlo Hhi Hd Hx Hy Hz.
  assert (Hpos : 0 <= x * x + y * y + z * z) by nra.
  pose proof (norm_perturbed x y z x' y' z' (sqrt (x * x + y * y + z * z))
                ltac:(lra) ltac:(symmetry; apply sqrt_sqrt; exact Hpos) Hx Hy Hz).
  lra.
Qed.

(** The same in the plane. *)
Lemma stored_norm_plane (x z x' z' lo hi : R) :
  1 <= lo -> hi <= 64 ->
  lo <= sqrt (x * x + z * z) <= hi ->
  close x x' -> close z z' ->
  lo - 0.00001 <= sqrt (x' * x' + z' * z') <= hi + 0.00001.
Proof.
  intros Hlo Hhi Hd Hx Hz.
  replace (x' * x' + z' * z') with (x' * x' + 0 * 0 + z' * z') by ring.
  apply (stored_norm x 0 z); try assumption; [| apply close_0].
  replace (x * x + 0 * 0 + z * z) with (x * x + z * z) by ring. exact Hd.
Qed.

(** A point drawn in a pattern's region is stored in the region of the
    stored points. *)
Lemma region_stored (pattern : Particles.Pattern) (x y z : R) :
  drawn pattern x y z ->
  region pattern (Float32.fround x) (Float32.fround y) (Float32.fround z).
Proof.
  destruct fround_consts as (_ & _ & _ & F3 & F20 & F25 & Fm3 & Fm20 & Fm25).
  destruct pattern; unfold drawn, region.
  - intros Hd.
    pose proof (stored_norm x y z _ _ _ 15 40 ltac:(lra) ltac:(lra) ltac:(lra)
                  (close_fround x) (close_fround y) (close_fround z)). lra.
  - intros [Hd Hy]. split.
    + pose proof (stored_norm_plane x z _ _ 5 35 ltac:(lra) ltac:(lra) ltac:(lra)
                    (close_fround x) (close_fround z)). lra.
    + apply fround_between; assumption.
  - intros (Hx & Hy & Hz).
    split; [| split]; apply fround_between; assumption.
  - intros [Hd Hy]. split.
    + pose proof (stored_norm_plane x z _ _ 10 30 ltac:(lra) ltac:(lra) ltac:(lra)
                    (close_fround x) (close_fround z)). lra.
    + apply fround_between; try assumption. lra.
Qed.

(** ** Particle generation *)

(** A loop invariant carried from index [i] over [k] iterations that stay
    below [count]. *)
Lemma for_loop_invariant {S : Type} (P : nat -> S -> Prop)
    (body : nat -> S -> Random.Rand S) (rnd : nat -> R) (count : nat) :
  (forall i s n, (i < count)%nat -> P i s -> P (Datatypes.S i) (fst (body i s rnd n))) ->
  forall k i s n, (i + k <= count)%nat -> P i s ->
    P (i + k)%nat (fst (Random.for_loop k i body s rnd n)).
Proof.
  intros Hbody. induction k as [| k IH]; intros i s n Hle HP.
  - rewrite Nat.add_0_r. exact HP.
  - cbn [Random.for_loop]. unfold Random.bind.
    destruct (body i s rnd n) as [s' n'] eqn:Hstep.
    replace (i + Datatypes.S k)%nat with (Datatypes.S i + k)%nat by lia.
    apply IH; [lia |].
    specialize (Hbody i s n ltac:(lia) HP). rewrite Hstep in Hbody. exact Hbody.
Qed.

(** The point drawn for the sphere pattern lies at the drawn radius. *)
Lemma sphere_norm (radius theta phi : R) :
  0 <= radius ->
  let x := radius * JS.Math_sin phi * JS.Math_cos theta in
  let y := radius * JS.Math_sin phi * JS.Math_sin theta in
  let z := radius * JS.Math_cos phi in
  JS.Math_sqrt (x * x + y * y + z * z) = radius.
Proof.
  intros Hr x y z. subst x y z. unfold JS.Math_sqrt, JS.Math_sin, JS.Math_cos.
  pose proof (sin2_cos2 theta) as Ht. pose proof (sin2_cos2 phi) as Hp.
  unfold Rsqr in Ht, Hp.
  replace (_ + _ + _) with
    (radius * radius
     * (sin phi * sin phi * (sin theta * sin theta + cos theta * cos theta) + cos phi * cos phi))
    by ring.
  rewrite Ht, Rmult_1_r, Hp, Rmult_1_r.
  apply sqrt_square. exact Hr.
Qed.

Lemma circle_norm (radius angle : R) :
  0 <= radius ->
  sqrt (radius * cos angle * (radius * cos angle) + radius * sin angle * (radius * sin angle))
  = radius.
Proof.
  intros Hr. pose proof (sin2_cos2 angle) as H. unfold Rsqr in H.
  replace (_ + _) with (radius * radius * (sin angle * sin angle + cos angle * cos angle)) by ring.
  rewrite H, Rmult_1_r. apply sqrt_square, Hr.
Qed.

Lemma Math_pow_half_range (r : R) : 0 <= r < 1 -> 0 <= JS.Math_pow r 0.5 < 1.
Proof.
  intros [H0 H1]. unfold JS.Math_pow.
  destruct (Rlt_dec 0 r) as [Hpos | Hzero].
  - unfold Rpower. split; [left; apply exp_pos |].
    rewrite <- exp_0. apply exp_increasing.
    assert (Hln : ln r < 0) by (rewrite <- ln_1; apply ln_increasing; lra).
    lra.
  - destruct (Rlt_dec 0 0.5); lra.
Qed.

Lemma particle_sat_written (Q : R -> R -> R -> Prop) (l : list R) (i : nat) (x y z : R) :
  (i * 3 + 2 < length l)%nat ->
  Q x y z ->
  particle_sat Q (<[(i * 3 + 2)%nat := z]> (<[(i * 3 + 1)%nat := y]> (<[(i * 3)%nat := x]> l))) i.
Proof.
  intros Hlen HQ. exists x, y, z.
  repeat split; try exact HQ.
  - rewrite !list_lookup_insert_ne by lia. apply list_lookup_insert_eq. lia.
  - rewrite list_lookup_insert_ne by lia.
    apply list_lookup_insert_eq. rewrite ?length_insert. lia.
  - apply list_lookup_insert_eq. rewrite ?length_insert. lia.
Qed.

Lemma particle_sat_kept (Q : R -> R -> R -> Prop) (l : list R) (i j : nat) (x y z : R) :
  (j < i)%nat ->
  particle_sat Q l j ->
  particle_sat Q (<[(i * 3 + 2)%nat := z]> (<[(i * 3 + 1)%nat := y]> (<[(i * 3)%nat := x]> l))) j.
Proof.
  intros Hji. unfold particle_sat. rewrite !list_lookup_insert_ne by lia. trivial.
Qed.

Lemma attributes_sat_written (l : list R) (i : nat) (a0 a1 a2 a3 : R) :
  (i * 4 + 3 < length l)%nat ->
  0.5 <= a0 <= 2.5 -> 0.5 <= a1 <= 2.5 -> 0 <= a2 <= 2 * PI + 0.000001 -> 0.5 <= a3 <= 1 ->
  attributes_sat
    (<[(i * 4 + 3)%nat := a3]> (<[(i * 4 + 2)%nat := a2]>
       (<[(i * 4 + 1)%nat := a1]> (<[(i * 4)%nat := a0]> l)))) i.
Proof.
  intros Hlen H0 H1 H2 H3. exists a0, a1, a2, a3.
  repeat split; try tauto.
  - rewrite !list_lookup_insert_ne by lia. apply list_lookup_insert_eq. lia.
  - rewrite !list_lookup_insert_ne by lia.
    apply list_lookup_insert_eq. rewrite ?length_insert. lia.
  - rewrite list_lookup_insert_ne by lia.
    apply list_lookup_insert_eq. rewrite ?length_insert. lia.
  - apply list_lookup_insert_eq. rewrite ?length_insert. lia.
Qed.

Lemma attributes_sat_kept (l : list R) (i j : nat) (a0 a1 a2 a3 : R) :
  (j < i)%nat ->
  attributes_sat l j ->
  attributes_sat
    (<[(i * 4 + 3)%nat := a3]> (<[(i * 4 + 2)%nat := a2]>
       (<[(i * 4 + 1)%nat := a1]> (<[(i * 4)%nat := a0]> l)))) j.
Proof.
  intros Hji. unfold attributes_sat. rewrite !list_lookup_insert_ne by lia. trivial.
Qed.

(** A stored drift velocity stays within a hundredth. *)
Lemma drift_stored (v : R) : -0.01 <= v <= 0.01 -> drift (Float32.fround v).
Proof.
  intros [H1 H2]. destruct fround_hundredth as [Hhi Hlo].
  pose proof (fround_monotone (-0.01) v H1). pose proof (fround_monotone v 0.01 H2).
  unfold drift. lra.
Qed.

(** A stored phase is at most a millionth above [2 PI]. *)
Lemma phase_stored (a : R) :
  0 <= a < 1 -> 0 <= Float32.fround (a * JS.Math_PI * 2) <= 2 * PI + 0.000001.
Proof.
  intros Ha. unfold JS.Math_PI.
  pose proof PI_RGT_0 as Hpi. pose proof PI_4 as Hpi4.
  assert (Hv : 0 <= a * PI * 2 <= 2 * PI) by nra.
  split.
  - pose proof (fround_above (a * PI * 2) 0 ltac:(lra)). lra.
  - pose proof (fround_error (a * PI * 2)) as He.
    rewrite (Rabs_pos_eq (a * PI * 2)) in He by lra.
    destruct pow2_small as [HD HE]. pose proof (pow2_pos (-24)) as HD0.
    assert (Hp : powerRZ 2 (-24) * (a * PI * 2) <= 0.0000001 * 8)
      by (apply Rmult_le_compat; lra).
    unfold Rabs in He. destruct Rcase_abs in He; lra.
Qed.

Section Patterns.
Variable rnd : nat -> R.
Hypothesis rnd_range : forall n, 0 <= rnd n < 1.

(** Every point drawn for a pattern lies in the region the pattern draws
    in. *)
Lemma point_drawn (pattern : Particles.Pattern) (n : nat) :
  let '(x, y, z, _) := Particles.point pattern rnd n in drawn pattern x y z.
Proof using rnd_range.
  pose proof (rnd_range n) as R0. pose proof (rnd_range (S n)) as R1.
  pose proof (rnd_range (S (S n))) as R2. pose proof (rnd_range (S (S (S n)))) as R3.
  pose proof (rnd_range (S (S (S (S n))))) as R4.
  destruct pattern;
    unfold Particles.point, Random.bind, Random.Math_random, Random.ret, drawn.
  - (* sphere *)
    pose proof (sphere_norm (15 + rnd n * 25) (rnd (S n) * JS.Math_PI * 2)
                  (JS.Math_acos (2 * rnd (S (S n)) - 1)) ltac:(lra)) as Hn.
    cbv zeta in Hn. unfold JS.Math_sqrt in Hn. rewrite Hn. lra.
  - (* galaxy *)
    pose proof (Math_pow_half_range (rnd (S n)) R1) as Hp.
    set (d := 5 + JS.Math_pow (rnd (S n)) 0.5 * 30).
    assert (Hd : 5 <= d < 35) by (unfold d; lra).
    set (angle := JS.Math_floor (rnd n * 3) * JS.Math_PI * 2 / 3 + d * 0.15
                  + (rnd (S (S n)) - 0.5) * 0.5).
    split.
    + unfold JS.Math_cos, JS.Math_sin.
      replace (cos angle * d * (cos angle * d) + sin angle * d * (sin angle * d))
        with (d * cos angle * (d * cos angle) + d * sin angle * (d * sin angle)) by ring.
      rewrite circle_norm by lra. exact Hd.
    + set (q := 3 / (1 + d * 0.1)).
      assert (Hq : q * (1 + d * 0.1) = 3).
      { unfold q, Rdiv. rewrite Rmult_assoc, Rinv_l by lra. lra. }
      assert (Hq0 : 0 < q).
      { unfold q. apply Rdiv_lt_0_compat; lra. }
      assert (Hq2 : q <= 2) by nra.
      split; nra.
  - (* cube *)
    cbv zeta. destruct (JS.ltb (rnd n) 0.3).
    + destruct (JS.ltb (JS.Math_floor (rnd (S n) * 6)) 2);
        [| destruct (JS.ltb (JS.Math_floor (rnd (S n) * 6)) 4)];
        destruct (Req_dec_T _ _); repeat split; lra.
    + repeat split; lra.
  - (* cylinder *)
    split; [| lra].
    unfold JS.Math_cos, JS.Math_sin.
    rewrite circle_norm by lra. lra.
Qed.

(** One iteration extends the invariant to the particle it writes. *)
Lemma iteration_well_formed (pattern : Particles.Pattern) (count i : nat)
    (b : Particles.Buffers) (n : nat) :
  (i < count)%nat ->
  well_formed (region pattern) count i b ->
  well_formed (region pattern) count (S i) (fst (Particles.iteration pattern i b rnd n)).
Proof using rnd_range.
  intros Hi (Hlp & Hlv & Hlr & Hdrift & Hdone).
  pose proof (point_drawn pattern n) as Hpoint.
  unfold Particles.iteration, Random.bind.
  destruct (Particles.point pattern rnd n) as [[[x y] z] n1].
  apply region_stored in Hpoint.
  unfold Random.Math_random, Random.ret, Particles.store.
  cbn [fst Particles.positions Particles.velocities Particles.randoms].
  pose proof (rnd_range n1) as V0. pose proof (rnd_range (S n1)) as V1.
  pose proof (rnd_range (S (S n1))) as V2. pose proof (rnd_range (S (S (S n1)))) as A0.
  pose proof (rnd_range (S (S (S (S n1))))) as A1.
  pose proof (rnd_range (S (S (S (S (S n1)))))) as A2.
  pose proof (rnd_range (S (S (S (S (S (S n1))))))) as A3.
  destruct fround_consts as (F05 & F1 & F25 & _).
  unfold well_formed. cbn [Particles.positions Particles.velocities Particles.randoms].
  rewrite !length_insert.
  split; [exact Hlp |]. split; [exact Hlv |]. split; [exact Hlr |]. split.
  - repeat apply Forall_insert; try exact Hdrift; apply drift_stored; lra.
  - intros j Hj. destruct (Nat.eq_dec j i) as [-> | Hne].
    + split.
      * apply particle_sat_written; [lia | exact Hpoint].
      * apply attributes_sat_written; try lia.
        -- apply fround_between; [exact F05 | exact F25 | lra].
        -- apply fround_between; [exact F05 | exact F25 | lra].
        -- apply phase_stored. exact A2.
        -- apply fround_between; [exact F05 | exact F1 | lra].
    + destruct (Hdone j ltac:(lia)) as [Hp Ha]. split.
      * apply particle_sat_kept; [lia | exact Hp].
      * apply attributes_sat_kept; [lia | exact Ha].
Qed.

Lemma generatePositions_well_formed (pattern : Particles.Pattern) (count n : nat) :
  well_formed (region pattern) count count
    (fst (Particles.generatePositions count pattern rnd n)).
Proof using rnd_range.
  unfold Particles.generatePositions.
  apply (for_loop_invariant (well_formed (region pattern) count) _ rnd count
           (fun i s n => iteration_well_formed pattern count i s n) count 0%nat).
  - lia.
  - unfold well_formed, Particles.Float32Array.
    cbn [Particles.positions Particles.velocities Particles.randoms].
    rewrite !length_replicate.
    repeat split; try reflexivity.
    + apply Forall_replicate. unfold drift. lra.
    + lia.
    + lia.
Qed.

End Patterns.

(** ** The sphere pattern at the inner edge of the shell *)

Lemma sqrt_between (a lo hi : R) :
  0 <= lo -> 0 <= hi -> lo * lo < a -> a < hi * hi -> lo < sqrt a < hi.
Proof.
  intros Hlo Hhi H1 H2. split.
  - rewrite <- (sqrt_square lo) by exact Hlo. apply sqrt_lt_1_alt. nra.
  - rewrite <- (sqrt_square hi) by exact Hhi. apply sqrt_lt_1_alt. nra.
Qed.

Lemma innerEdgeDraws_range (n : nat) : 0 <= innerEdgeDraws n < 1.
Proof.
  unfold innerEdgeDraws. destruct n as [| [| [| n]]]; lra.
Qed.

(** The sine of the polar angle drawn at the inner edge. *)
Lemma innerEdge_sin :
  0.661437827 < JS.Math_sin (JS.Math_acos (2 * 0.125 - 1)) < 0.661437828.
Proof.
  unfold JS.Math_sin, JS.Math_acos.
  rewrite sin_acos by lra. unfold Rsqr.
  apply sqrt_between; lra.
Qed.

(** The three cells the inner-edge particle is stored in. *)
Lemma innerEdge_stored :
  let radius := 15 + 0 * 25 in
  let theta := 0 * JS.Math_PI * 2 in
  let phi := JS.Math_acos (2 * 0.125 - 1) in
  Float32.fround (radius * JS.Math_sin phi * JS.Math_cos theta) = 10403517 * powerRZ 2 (-20) /\
  Float32.fround (radius * JS.Math_sin phi * JS.Math_sin theta) = 0 /\
  Float32.fround (radius * JS.Math_cos phi) = -11.25.
Proof.
  intros radius theta phi.
  pose proof innerEdge_sin as Hs. fold phi in Hs.
  assert (Ht : theta = 0) by (unfold theta; ring).
  assert (Hr : radius = 15) by (unfold radius; ring).
  rewrite Ht, Hr.
  assert (Hc0 : JS.Math_cos 0 = 1) by apply cos_0.
  assert (Hs0 : JS.Math_sin 0 = 0) by apply sin_0.
  rewrite Hc0, Hs0.
  split; [| split].
  - apply (fround_eval _ 3 10403517); [lia | |].
    + rewrite Rabs_pos_eq by lra. simpl. lra.
    + simpl. lra.
  - rewrite Rmult_0_r. apply fround_0.
  - unfold phi, JS.Math_cos, JS.Math_acos. rewrite cos_acos by lra.
    replace (15 * (2 * 0.125 - 1)) with (-11.25) by lra.
    apply (fround_representable _ 3 (-11796480)); [lia | |].
    + rewrite Rabs_left by lra. simpl. lra.
    + simpl. lra.
Qed.

(** With the draws [0, 0, 0.125] the sphere pattern draws a point at
    distance 15 exactly; the cell of its [x] coordinate holds a binary32
    value below the coordinate, and the stored triple lies at a distance
    below 15, outside [[15, 40]]. *)
Lemma sphere_particle_stored_inside_shell :
  (forall n, 0 <= innerEdgeDraws n < 1) /\
  exists d,
    Particles.distance
      (Particles.positions (fst (Particles.generatePositions 1 Particles.sphere innerEdgeDraws 0%nat)))
      0%nat
    = Some d /\
    d < 15 /\ ~ 15 <= d <= 40.
Proof.
  split; [exact innerEdgeDraws_range |].
  destruct innerEdge_stored as (Hx & Hy & Hz). cbv zeta in Hx, Hy, Hz.
  cbv [Particles.generatePositions Random.for_loop Random.bind Random.ret Random.Math_random
       Particles.iteration Particles.point Particles.store Particles.Float32Array
       Particles.positions Particles.distance innerEdgeDraws
       replicate Init.Nat.mul Init.Nat.add Nat.mul Nat.add fst snd
       insert list_insert lookup list_lookup].
  rewrite Hx, Hy, Hz.
  eexists. split; [reflexivity |].
  assert (Hd : JS.Math_sqrt (10403517 * powerRZ 2 (-20) * (10403517 * powerRZ 2 (-20))
                             + 0 * 0 + -11.25 * -11.25) < 15).
  { unfold JS.Math_sqrt.
    apply Rlt_le_trans with (sqrt (15 * 15)); [| rewrite sqrt_square; lra].
    apply sqrt_lt_1_alt. simpl. lra. }
  split; [exact Hd | lra].
Qed.

(** C6 (amended). For every count [N], with [Math.random] returning values
    in [[0, 1)], [generatePositions(N, 'sphere')] returns a positions array
    of [N] triples ([3 * N] cells), and every triple, as the binary32 cells
    hold it, lies at a distance from the origin within
    [[14.99999, 40.00001]]. *)
Theorem generatePositions_sphere_shell (count : nat) (rnd : nat -> R) (calls : nat) :
  (forall n, 0 <= rnd n < 1) ->
  let b := fst (Particles.generatePositions count Particles.sphere rnd calls) in
  length (Particles.positions b) = (count * 3)%nat /\
  forall i, (i < count)%nat ->
    exists d, Particles.distance (Particles.positions b) i = Some d /\
              14.99999 <= d <= 40.00001.
Proof.
  intros Hrnd b.
  destruct (generatePositions_well_formed rnd Hrnd Particles.sphere count calls)
    as (Hlen & _ & _ & _ & Hall).
  fold b in Hlen, Hall. split; [exact Hlen |].
  intros i Hi. destruct (Hall i Hi) as [(x & y & z & Hx & Hy & Hz & Hd) _].
  unfold Particles.distance. rewrite Hx, Hy, Hz.
  eexists. split; [reflexivity | exact Hd].
Qed.

Lemma generatePositions_sphere_shell_witness :
  exists d,
    Particles.distance
      (Particles.positions (fst (Particles.generatePositions 1 Particles.sphere innerEdgeDraws 0%nat)))
      0%nat
    = Some d /\
    14.99999 <= d <= 40.00001.
Proof.
  exact (proj2 (generatePositions_sphere_shell 1 innerEdgeDraws 0%nat innerEdgeDraws_range)
           0%nat ltac:(lia)).
Defined.

(* ===================================================================== *)
(** * Further properties of the modelled code *)
(* ===================================================================== *)

(** ** Scroll progress: the value, not only its range *)

Lemma clamp_monotone (a b : R) :
  a <= b -> JS.Math_min (JS.Math_max a 0) 1 <= JS.Math_min (JS.Math_max b 0) 1.
Proof.
  intros Hab. unfold JS.Math_min, JS.Math_max, Rmin, Rmax.
  repeat destruct Rle_dec; lra.
Qed.

Lemma clamp_inside (a : R) : 0 <= a <= 1 -> JS.Math_min (JS.Math_max a 0) 1 = a.
Proof.
  intros Ha. unfold JS.Math_min, JS.Math_max, Rmin, Rmax.
  repeat destruct Rle_dec; lra.
Qed.

(** X1. The scroll progress is the ratio of the scroll position to the
    scrollable height while the position is within the document, [0]
    before it and for a document that does not scroll, [1] past its end. *)
Theorem handleScroll_value (window : Hooks.Window) :
  let docHeight := Hooks.scrollHeight window - Hooks.innerHeight window in
  (docHeight <= 0 -> Hooks.handleScroll window = 0) /\
  (0 < docHeight -> Hooks.scrollY window <= 0 -> Hooks.handleScroll window = 0) /\
  (0 < docHeight -> 0 <= Hooks.scrollY window <= docHeight ->
     Hooks.handleScroll window = Hooks.scrollY window / docHeight) /\
  (0 < docHeight -> docHeight <= Hooks.scrollY window -> Hooks.handleScroll window = 1).
Proof.
  intros docHeight. split; [exact (handleScroll_short_document window) |].
  assert (Hgen : 0 < docHeight ->
            Hooks.handleScroll window
            = JS.Math_min (JS.Math_max (Hooks.scrollY window / docHeight) 0) 1).
  { intros Hd. unfold Hooks.handleScroll. fold docHeight.
    destruct Rgt_dec as [_ | Hn]; [reflexivity | lra]. }
  assert (Hinv : 0 < docHeight -> 0 < / docHeight) by apply Rinv_0_lt_compat.
  assert (Hone : 0 < docHeight -> docHeight * / docHeight = 1) by (intros; apply Rinv_r; lra).
  split; [| split].
  - intros Hd Hs. rewrite (Hgen Hd). specialize (Hinv Hd).
    unfold JS.Math_min, JS.Math_max, Rmin, Rmax, Rdiv.
    repeat destruct Rle_dec; try lra; nra.
  - intros Hd Hs. rewrite (Hgen Hd). apply clamp_inside.
    apply ratio_in_unit; assumption.
  - intros Hd Hs. rewrite (Hgen Hd). specialize (Hinv Hd). specialize (Hone Hd).
    unfold JS.Math_min, JS.Math_max, Rmin, Rmax, Rdiv.
    repeat destruct Rle_dec; try lra; nra.
Qed.

(** X2. In one document and viewport, scrolling further never lowers the
    progress. *)
Theorem handleScroll_monotone (w1 w2 : Hooks.Window) :
  Hooks.scrollHeight w1 = Hooks.scrollHeight w2 ->
  Hooks.innerHeight w1 = Hooks.innerHeight w2 ->
  Hooks.scrollY w1 <= Hooks.scrollY w2 ->
  Hooks.handleScroll w1 <= Hooks.handleScroll w2.
Proof.
  intros Hsh Hih Hy. unfold Hooks.handleScroll. rewrite Hsh, Hih.
  apply clamp_monotone.
  destruct Rgt_dec as [Hd | _]; [| lra].
  assert (Hinv : 0 < / (Hooks.scrollHeight w2 - Hooks.innerHeight w2))
    by (apply Rinv_0_lt_compat; lra).
  unfold Rdiv. nra.
Qed.

Lemma handleScroll_monotone_witness :
  Hooks.handleScroll fullHD
  <= Hooks.handleScroll
       {| Hooks.innerWidth := 1920; Hooks.innerHeight := 1080;
          Hooks.scrollY := 1460; Hooks.scrollHeight := 4000 |}.
Proof.
  apply handleScroll_monotone; simpl; lra.
Defined.

(** ** Pointer position: the pixel coordinates and the normalized ones *)

(** X3. In a viewport of positive size the pixel coordinates the hook
    reports are recovered from the normalized ones:
    [x = (normalizedX + 1) / 2 * innerWidth] and
    [y = (1 - normalizedY) / 2 * innerHeight]. *)
Theorem normalized_pointer_round_trip (window : Hooks.Window) (e : Hooks.MouseEvent) :
  0 < Hooks.innerWidth window ->
  0 < Hooks.innerHeight window ->
  let p := Hooks.handleMouseMove window e in
  Hooks.x p = (Hooks.normalizedX p + 1) / 2 * Hooks.innerWidth window /\
  Hooks.y p = (1 - Hooks.normalizedY p) / 2 * Hooks.innerHeight window.
Proof.
  intros Hw Hh p. subst p. unfold Hooks.handleMouseMove; simpl.
  split; field; lra.
Qed.

Lemma normalized_pointer_round_trip_witness :
  Hooks.x (Hooks.handleMouseMove fullHD {| Hooks.clientX := 480; Hooks.clientY := 270 |})
  = (Hooks.normalizedX
       (Hooks.handleMouseMove fullHD {| Hooks.clientX := 480; Hooks.clientY := 270 |}) + 1)
    / 2 * Hooks.innerWidth fullHD.
Proof.
  exact (proj1 (normalized_pointer_round_trip fullHD
                  {| Hooks.clientX := 480; Hooks.clientY := 270 |}
                  ltac:(simpl; lra) ltac:(simpl; lra))).
Defined.

(** X4. Before the first pointer event the hook reports the pixel position
    [(0, 0)] together with the normalized position [(0, 0)], the centre of
    the viewport; no pointer event in a viewport of positive size produces
    that state, and the hook never returns to it. *)
Theorem initial_pointer_unreachable
    (events : list (Hooks.Window * Hooks.MouseEvent))
    (window : Hooks.Window) (e : Hooks.MouseEvent) :
  0 < Hooks.innerWidth window ->
  Hooks.useMousePosition [] = Hooks.initialPosition /\
  Hooks.useMousePosition (events ++ [(window, e)]) <> Hooks.initialPosition.
Proof.
  intros Hw. split; [reflexivity |].
  rewrite useMousePosition_last. unfold Hooks.handleMouseMove, Hooks.initialPosition.
  intros Heq. injection Heq as Hx _ Hnx _.
  rewrite Hx in Hnx. unfold Rdiv in Hnx. lra.
Qed.

Lemma initial_pointer_unreachable_witness :
  Hooks.useMousePosition [(fullHD, {| Hooks.clientX := 0; Hooks.clientY := 0 |})]
  <> Hooks.initialPosition.
Proof.
  exact (proj2 (initial_pointer_unreachable [] fullHD
                  {| Hooks.clientX := 0; Hooks.clientY := 0 |} ltac:(simpl; lra))).
Defined.

(** ** SmoothScroll: the easing curve *)

Lemma pow_two (e : R) : JS.Math_pow 2 e = Rpower 2 e.
Proof.
  unfold JS.Math_pow. destruct Rlt_dec as [_ | H]; [reflexivity | lra].
Qed.

Lemma ln_2_pos : 0 < ln 2.
Proof. rewrite <- ln_1. apply ln_increasing; lra. Qed.

Lemma pow_two_antitone (a b : R) : a <= b -> JS.Math_pow 2 (-10 * b) <= JS.Math_pow 2 (-10 * a).
Proof.
  intros Hab. rewrite !pow_two. unfold Rpower.
  pose proof ln_2_pos as Hln.
  destruct (Req_dec a b) as [-> | Hne]; [lra |].
  left. apply exp_increasing. nra.
Qed.

Lemma pow_two_minus_10 : JS.Math_pow 2 (-10 * 1) = / 1024.
Proof.
  rewrite pow_two. replace (-10 * 1) with (- INR 10) by (simpl; lra).
  rewrite Rpower_Ropp, Rpower_pow by lra. f_equal. simpl. lra.
Qed.

(** X5. The easing handed to the scroll library starts at [0.001] (not at
    [0]), never decreases, stays within [[0.001, 1]] for non-negative [t]
    and is exactly [1] from [t = 1] on. *)
Theorem easing_profile :
  SmoothScroll.easing 0 = 0.001 /\
  (forall t, 1 <= t -> SmoothScroll.easing t = 1) /\
  (forall a b, a <= b -> SmoothScroll.easing a <= SmoothScroll.easing b) /\
  (forall t, 0 <= t -> 0.001 <= SmoothScroll.easing t <= 1).
Proof.
  assert (H0 : SmoothScroll.easing 0 = 0.001).
  { unfold SmoothScroll.easing. rewrite pow_two, Rmult_0_r, Rpower_O by lra.
    unfold JS.Math_min, Rmin. destruct Rle_dec; lra. }
  assert (Hmono : forall a b, a <= b -> SmoothScroll.easing a <= SmoothScroll.easing b).
  { intros a b Hab. unfold SmoothScroll.easing.
    pose proof (pow_two_antitone a b Hab).
    unfold JS.Math_min, Rmin. repeat destruct Rle_dec; lra. }
  split; [exact H0 |]. split; [| split; [exact Hmono |]].
  - intros t Ht. unfold SmoothScroll.easing.
    pose proof (pow_two_antitone 1 t Ht) as Hle. rewrite pow_two_minus_10 in Hle.
    unfold JS.Math_min, Rmin. destruct Rle_dec; lra.
  - intros t Ht. split.
    + rewrite <- H0. apply Hmono, Ht.
    + unfold SmoothScroll.easing, JS.Math_min. apply Rmin_l.
Qed.

(** ** CustomCursor: the ring's pursuit of the pointer *)

Lemma animate_ring_offset (mouse : Hooks.MousePosition) (s : CustomCursor.State) :
  Hooks.x mouse - CustomCursor.x (CustomCursor.ringPos (CustomCursor.animate mouse s))
  = (Hooks.x mouse - CustomCursor.x (CustomCursor.ringPos s)) * 0.88 /\
  Hooks.y mouse - CustomCursor.y (CustomCursor.ringPos (CustomCursor.animate mouse s))
  = (Hooks.y mouse - CustomCursor.y (CustomCursor.ringPos s)) * 0.88.
Proof.
  unfold CustomCursor.animate; simpl. split; lra.
Qed.

(** X6. With the pointer at rest, every animation frame leaves the ring
    [0.88] times as far from the pointer as before, on each axis: after [n]
    frames the offset is [0.88 ^ n] times the initial one, so the ring
    approaches the pointer without ever passing it. On a mobile viewport
    the ring does not move. *)
Theorem cursor_ring_pursuit (mouse : Hooks.MousePosition) (n : nat) (s : CustomCursor.State) :
  let s' := CustomCursor.frames false (repeat mouse n) s in
  Hooks.x mouse - CustomCursor.x (CustomCursor.ringPos s')
  = (Hooks.x mouse - CustomCursor.x (CustomCursor.ringPos s)) * 0.88 ^ n /\
  Hooks.y mouse - CustomCursor.y (CustomCursor.ringPos s')
  = (Hooks.y mouse - CustomCursor.y (CustomCursor.ringPos s)) * 0.88 ^ n /\
  CustomCursor.frames true (repeat mouse n) s = s.
Proof.
  intros s'. subst s'. unfold CustomCursor.frames.
  split; [| split; [| reflexivity]].
  - revert s. induction n as [| n IH]; intros s; simpl.
    + lra.
    + rewrite IH. destruct (animate_ring_offset mouse s) as [-> _]. ring.
  - revert s. induction n as [| n IH]; intros s; simpl.
    + lra.
    + rewrite IH. destruct (animate_ring_offset mouse s) as [_ ->]. ring.
Qed.

(** ** Particle generation, every pattern *)

(** X7. For every pattern and count [N], with [Math.random] in [[0, 1)],
    [generatePositions] returns arrays of [3 N], [3 N] and [4 N] cells;
    every stored drift velocity component lies in [[-0.01, 0.01]], and
    every particle has a stored size and animation speed in [[0.5, 2.5]],
    a brightness in [[0.5, 1]] and a phase from 0 to [2 PI + 0.000001]:
    the binary32 cells can hold the upper ends, which the numbers drawn
    never reach. *)
Theorem generatePositions_attributes
    (count : nat) (pattern : Particles.Pattern) (rnd : nat -> R) (calls : nat) :
  (forall n, 0 <= rnd n < 1) ->
  let b := fst (Particles.generatePositions count pattern rnd calls) in
  length (Particles.positions b) = (count * 3)%nat /\
  length (Particles.velocities b) = (count * 3)%nat /\
  length (Particles.randoms b) = (count * 4)%nat /\
  Forall drift (Particles.velocities b) /\
  forall i, (i < count)%nat -> attributes_sat (Particles.randoms b) i.
Proof.
  intros Hrnd b.
  destruct (generatePositions_well_formed rnd Hrnd pattern count calls)
    as (Hlp & Hlv & Hlr & Hdrift & Hall).
  repeat split; try assumption.
  intros i Hi. exact (proj2 (Hall i Hi)).
Qed.

Lemma generatePositions_attributes_witness :
  attributes_sat
    (Particles.randoms
       (fst (Particles.generatePositions 3 Particles.galaxy (fun _ => 0.25) 0%nat)))
    2.
Proof.
  exact (proj2 (proj2 (proj2 (proj2
           (generatePositions_attributes 3 Particles.galaxy (fun _ => 0.25) 0%nat
              ltac:(intros n; simpl; lra)))))
           2%nat ltac:(lia)).
Defined.

(** X8. Every stored particle lies in the region of its pattern, up to
    the binary32 rounding of its coordinates: the sphere pattern at a
    distance of 14.99999 to 40.00001 from the origin; the galaxy pattern
    at a horizontal distance of 4.99999 to 35.00001 from the axis and
    within 3 units of the plane; the cube pattern in the cube of
    half-side 25; the cylinder pattern at a horizontal distance of 9.99999
    to 30.00001 and a height from -20 to 20. *)
Theorem generatePositions_region
    (count : nat) (pattern : Particles.Pattern) (rnd : nat -> R) (calls : nat) :
  (forall n, 0 <= rnd n < 1) ->
  forall i, (i < count)%nat ->
    particle_sat (region pattern)
      (Particles.positions (fst (Particles.generatePositions count pattern rnd calls))) i.
Proof.
  intros Hrnd i Hi.
  destruct (generatePositions_well_formed rnd Hrnd pattern count calls)
    as (_ & _ & _ & _ & Hall).
  exact (proj1 (Hall i Hi)).
Qed.

Lemma generatePositions_region_witness :
  particle_sat (region Particles.cube)
    (Particles.positions (fst (Particles.generatePositions 2 Particles.cube (fun _ => 0.25) 0%nat)))
    1.
Proof.
  exact (generatePositions_region 2 Particles.cube (fun _ => 0.25) 0%nat
           ltac:(intros n; simpl; lra) 1%nat ltac:(lia)).
Defined.

(** ** Adaptive count: order and sign *)

Lemma Math_floor_monotone (a b : R) : a <= b -> JS.Math_floor a <= JS.Math_floor b.
Proof.
  intros Hab. unfold JS.Math_floor.
  pose proof (Math_floor_le a) as Ha. pose proof (Math_floor_gt b) as Hb.
  unfold JS.Math_floor in Ha, Hb.
  apply IZR_le. apply Z.lt_succ_r. apply lt_IZR.
  rewrite succ_IZR. lra.
Qed.

Lemma Math_floor_nonneg (a : R) : 0 <= a -> 0 <= JS.Math_floor a.
Proof.
  intros Ha. replace 0 with (JS.Math_floor 0).
  - apply Math_floor_monotone, Ha.
  - unfold JS.Math_floor. rewrite <- (Int_part_spec 0 0); [reflexivity | lra].
Qed.

(** X9. For a non-negative base count the adaptive count is never
    negative, the three explicit qualities are ordered
    ['low' <= 'medium' <= 'high'], and a larger base count never gives a
    smaller adaptive count. *)
Theorem useAdaptiveCount_ordered (base base' : R) (quality : option Particles.Quality)
    (env : Device.Env) :
  0 <= base ->
  base <= base' ->
  0 <= Particles.useAdaptiveCount base quality env /\
  Particles.useAdaptiveCount base (Some Particles.low) env
    <= Particles.useAdaptiveCount base (Some Particles.medium) env /\
  Particles.useAdaptiveCount base (Some Particles.medium) env
    <= Particles.useAdaptiveCount base (Some Particles.high) env /\
  Particles.useAdaptiveCount base quality env <= Particles.useAdaptiveCount base' quality env.
Proof.
  intros H0 Hle.
  pose proof (Math_floor_nonneg (base * 0.3) ltac:(nra)) as Hl.
  pose proof (Math_floor_nonneg (base * 0.6) ltac:(nra)) as Hm.
  pose proof (Math_floor_monotone (base * 0.3) (base * 0.6) ltac:(nra)) as Hlm.
  pose proof (Math_floor_scale_le 0.6 base ltac:(lra) H0) as Hmh.
  pose proof (Math_floor_monotone (base * 0.3) (base' * 0.3) ltac:(nra)) as Hl'.
  pose proof (Math_floor_monotone (base * 0.6) (base' * 0.6) ltac:(nra)) as Hm'.
  split; [| split; [exact Hlm | split; [exact Hmh |]]].
  - unfold Particles.useAdaptiveCount.
    destruct quality as [[] |]; try assumption.
    destruct (_ || _); [assumption |]. destruct (JS.ltb _ _); assumption.
  - unfold Particles.useAdaptiveCount.
    destruct quality as [[] |]; try assumption.
    destruct (_ || _); [assumption |]. destruct (JS.ltb _ _); assumption.
Qed.

Lemma useAdaptiveCount_ordered_witness :
  Particles.useAdaptiveCount 2000 (Some Particles.low) (browser desktopUA 2 Device.Throw)
  <= Particles.useAdaptiveCount 2000 (Some Particles.medium) (browser desktopUA 2 Device.Throw).
Proof.
  exact (proj1 (proj2 (useAdaptiveCount_ordered 2000 2000 None (browser desktopUA 2 Device.Throw)
                         ltac:(lra) ltac:(lra)))).
Defined.

(** ** Particles: the slow rotation of the field *)

Lemma Particles_frame_mounted (speed time delta : R) (s : Particles.FrameState)
    (mesh : Particles.Points) :
  Particles.meshRef s = Some mesh ->
  Particles.meshRef (Particles.frame speed time delta s)
  = Some {| Particles.rotation_x := JS.Math_sin (time * 0.01 * speed) * 0.1;
            Particles.rotation_y := Particles.rotation_y mesh + delta * 0.015 * speed |}.
Proof.
  intros Hm. unfold Particles.frame. rewrite Hm. reflexivity.
Qed.

(** X10. The particle field's rotation about [y] grows by
    [0.015 * speed] per second of frame time: after any run of frames it is
    the initial rotation plus [0.015 * speed] times the total elapsed time,
    however the time is cut into frames; its tilt about [x] stays within
    [0.1] in magnitude. *)
Theorem Particles_rotation (speed : R) (frames : list (R * R)) (s : Particles.FrameState)
    (mesh : Particles.Points) :
  Particles.meshRef s = Some mesh ->
  -0.1 <= Particles.rotation_x mesh <= 0.1 ->
  exists mesh',
    Particles.meshRef (Particles.run speed frames s) = Some mesh' /\
    Particles.rotation_y mesh'
    = Particles.rotation_y mesh + 0.015 * speed * total (map snd frames) /\
    -0.1 <= Particles.rotation_x mesh' <= 0.1.
Proof.
  revert s mesh. induction frames as [| [time delta] frames IH]; intros s mesh Hm Hx.
  - exists mesh. cbn. repeat split; try assumption; lra.
  - unfold Particles.run. cbn [fold_left fst snd].
    pose proof (Particles_frame_mounted speed time delta s mesh Hm) as Hm'.
    fold (Particles.run speed frames (Particles.frame speed time delta s)).
    destruct (IH _ _ Hm') as (mesh' & Hrun & Hy & Hx').
    { cbn [Particles.rotation_x]. unfold JS.Math_sin.
      pose proof (SIN_bound (time * 0.01 * speed)). lra. }
    exists mesh'. split; [exact Hrun |]. split; [| exact Hx'].
    rewrite Hy. cbn [Particles.rotation_y map snd total fold_right]. fold (total (map snd frames)).
    ring.
Qed.

Lemma Particles_rotation_witness :
  exists mesh',
    Particles.meshRef
      (Particles.run 1 [(0.5, 0.5); (1, 0.5)]
         {| Particles.uTime := 0;
            Particles.meshRef := Some {| Particles.rotation_x := 0; Particles.rotation_y := 0 |} |})
    = Some mesh' /\
    Particles.rotation_y mesh' = 0 + 0.015 * 1 * total (map snd [(0.5, 0.5); (1, 0.5)]).
Proof.
  destruct (Particles_rotation 1 [(0.5, 0.5); (1, 0.5)]
              {| Particles.uTime := 0;
                 Particles.meshRef :=
                   Some {| Particles.rotation_x := 0; Particles.rotation_y := 0 |} |}
              {| Particles.rotation_x := 0; Particles.rotation_y := 0 |}
              eq_refl ltac:(simpl; lra)) as (mesh' & Hm & Hy & _).
  exists mesh'. split; [exact Hm | exact Hy].
Defined.

(** ** Quality detection: every tier *)

(** X11. In a browser the detected tier is ['ultra'] exactly when the
    renderer string matches the high-end pattern and the pixel ratio is at
    least 2, whatever the user agent; otherwise it is ['low'] on a mobile
    user agent or below a pixel ratio of 1.5, ['high'] from a pixel ratio
    of 2 on and ['medium'] in between. Without a window it is ['medium']. *)
Theorem useDeviceQuality_tiers (userAgent : string) (gl : Device.WebGLRenderer) :
  let env := {| Device.navigator_userAgent := Some userAgent; Device.gl := gl |} in
  let isMobile := RegExp.test RegExp.mobilePattern userAgent in
  let pixelRatio := Device.getPixelRatio gl in
  let top := highEndGPU gl && JS.geb pixelRatio 2 in
  let tier := PostProcessing.useDeviceQuality env in
  (tier = PostProcessing.ultra <-> highEndGPU gl = true /\ 2 <= pixelRatio) /\
  (tier = PostProcessing.low <-> top = false /\ (isMobile = true \/ pixelRatio < 1.5)) /\
  (tier = PostProcessing.medium <-> isMobile = false /\ 1.5 <= pixelRatio < 2) /\
  (tier = PostProcessing.high <-> top = false /\ isMobile = false /\ 2 <= pixelRatio) /\
  PostProcessing.useDeviceQuality {| Device.navigator_userAgent := None; Device.gl := gl |}
  = PostProcessing.medium.
Proof.
  intros env isMobile pixelRatio top tier.
  assert (Htier : tier = selectTier isMobile pixelRatio (gpuName gl)).
  { unfold tier. rewrite useDeviceQuality_selectTier. reflexivity. }
  unfold selectTier in Htier. fold (highEndGPU gl) in Htier. fold top in Htier.
  assert (Htop : top = true <-> highEndGPU gl = true /\ 2 <= pixelRatio).
  { unfold top. rewrite andb_true_iff, geb_true. tauto. }
  destruct top eqn:Etop.
  - rewrite Htier.
    assert (H2 : 2 <= pixelRatio) by (apply Htop; reflexivity).
    intuition (try discriminate; try lra).
  - destruct (heuristic_tier isMobile pixelRatio tier Htier) as (Hl & Hm & Hh & Hu).
    assert (Hntop : ~ (highEndGPU gl = true /\ 2 <= pixelRatio)).
    { intros H. apply Htop in H. discriminate. }
    intuition (try discriminate; try lra).
Qed.

(** In a browser the three copies of the heuristic agree outside the
    ['ultra'] tier. *)
Lemma heuristics_agree_in_browser (userAgent : string) (gl : Device.WebGLRenderer) (base : R) :
  let env := {| Device.navigator_userAgent := Some userAgent; Device.gl := gl |} in
  (PostProcessing.useDeviceQuality env = PostProcessing.low ->
     EnergyCore.useDeviceQuality env = EnergyCore.low /\
     Particles.useAdaptiveCount base None env = JS.Math_floor (base * 0.3)) /\
  (PostProcessing.useDeviceQuality env = PostProcessing.medium ->
     EnergyCore.useDeviceQuality env = EnergyCore.high /\
     Particles.useAdaptiveCount base None env = JS.Math_floor (base * 0.6)) /\
  (PostProcessing.useDeviceQuality env = PostProcessing.high ->
     EnergyCore.useDeviceQuality env = EnergyCore.high /\
     Particles.useAdaptiveCount base None env = base).
Proof.
  intros env.
  pose proof (useDeviceQuality_selectTier env) as Htier.
  unfold detectionInputs, selectTier in Htier. cbn [Device.navigator_userAgent env] in Htier.
  unfold EnergyCore.useDeviceQuality, Particles.useAdaptiveCount.
  cbn [Device.navigator_userAgent Device.gl env] in *.
  rewrite Htier. clear Htier.
  destruct (_ && JS.geb _ 2).
  { repeat split; intros; discriminate. }
  destruct (RegExp.test RegExp.mobilePattern userAgent); cbn [orb].
  { repeat split; intros; try discriminate; reflexivity. }
  destruct (JS.ltb (Device.getPixelRatio gl) 1.5) eqn:E15.
  { repeat split; intros; try discriminate; reflexivity. }
  destruct (JS.geb (Device.getPixelRatio gl) 2) eqn:E2.
  - apply geb_true in E2.
    replace (JS.ltb (Device.getPixelRatio gl) 2) with false
      by (symmetry; apply ltb_false; lra).
    repeat split; intros; try discriminate; reflexivity.
  - apply geb_false in E2.
    replace (JS.ltb (Device.getPixelRatio gl) 2) with true
      by (symmetry; apply ltb_true; lra).
    repeat split; intros; try discriminate; reflexivity.
Qed.

(** X12. In a browser, wherever [PostProcessing] detects ['low'],
    [EnergyCore] detects ['low'] and [Particles] keeps 30% of its base
    count; where it detects ['medium'] or ['high'], [EnergyCore] detects
    ['high'] and [Particles] keeps 60% or all of the base count: the three
    copies of the device heuristic agree, except on the ['ultra'] tier,
    which only [PostProcessing] knows. Without a [window] they part:
    [PostProcessing] answers ['medium'] whatever the pixel ratio, while
    [EnergyCore] and [Particles] still go by the pixel ratio, ['low'] and
    30% below 1.5, 60% below 2 and all of the base count from 2 on. *)
Theorem device_heuristics_agree (env : Device.Env) (base : R) :
  let pixelRatio := Device.getPixelRatio (Device.gl env) in
  (Device.navigator_userAgent env <> None ->
     (PostProcessing.useDeviceQuality env = PostProcessing.low ->
        EnergyCore.useDeviceQuality env = EnergyCore.low /\
        Particles.useAdaptiveCount base None env = JS.Math_floor (base * 0.3)) /\
     (PostProcessing.useDeviceQuality env = PostProcessing.medium ->
        EnergyCore.useDeviceQuality env = EnergyCore.high /\
        Particles.useAdaptiveCount base None env = JS.Math_floor (base * 0.6)) /\
     (PostProcessing.useDeviceQuality env = PostProcessing.high ->
        EnergyCore.useDeviceQuality env = EnergyCore.high /\
        Particles.useAdaptiveCount base None env = base)) /\
  (Device.navigator_userAgent env = None ->
     PostProcessing.useDeviceQuality env = PostProcessing.medium /\
     (pixelRatio < 1.5 ->
        EnergyCore.useDeviceQuality env = EnergyCore.low /\
        Particles.useAdaptiveCount base None env = JS.Math_floor (base * 0.3)) /\
     (1.5 <= pixelRatio < 2 ->
        EnergyCore.useDeviceQuality env = EnergyCore.high /\
        Particles.useAdaptiveCount base None env = JS.Math_floor (base * 0.6)) /\
     (2 <= pixelRatio ->
        EnergyCore.useDeviceQuality env = EnergyCore.high /\
        Particles.useAdaptiveCount base None env = base)).
Proof.
  intros pixelRatio. subst pixelRatio. destruct env as [[userAgent |] gl].
  - split; [| intros H; discriminate].
    intros _. exact (heuristics_agree_in_browser userAgent gl base).
  - split; [intros H; contradiction |]. intros _.
    unfold PostProcessing.useDeviceQuality, EnergyCore.useDeviceQuality,
      Particles.useAdaptiveCount.
    cbn [Device.navigator_userAgent Device.gl orb] in *.
    split; [reflexivity |].
    split; [| split]; intros Hp.
    + replace (JS.ltb (Device.getPixelRatio gl) 1.5) with true
        by (symmetry; apply ltb_true; lra).
      split; reflexivity.
    + replace (JS.ltb (Device.getPixelRatio gl) 1.5) with false
        by (symmetry; apply ltb_false; lra).
      replace (JS.ltb (Device.getPixelRatio gl) 2) with true
        by (symmetry; apply ltb_true; lra).
      split; reflexivity.
    + replace (JS.ltb (Device.getPixelRatio gl) 1.5) with false
        by (symmetry; apply ltb_false; lra).
      replace (JS.ltb (Device.getPixelRatio gl) 2) with false
        by (symmetry; apply ltb_false; lra).
      split; reflexivity.
Qed.

Lemma device_heuristics_agree_witness :
  PostProcessing.useDeviceQuality (windowless 1) = PostProcessing.medium /\
  EnergyCore.useDeviceQuality (windowless 1) = EnergyCore.low /\
  Particles.useAdaptiveCount 2000 None (windowless 1) = JS.Math_floor (2000 * 0.3).
Proof.
  destruct (proj2 (device_heuristics_agree (windowless 1) 2000) eq_refl)
    as (Hpost & Hlow & _).
  split; [exact Hpost |]. apply Hlow. simpl. lra.
Defined.

(** ** Post-processing: strengths, flags and presets *)

(** The props of a rendering, with the defaults applied, as the component
    computes them. *)
Lemma FullPostProcessing_strengths (preset : PostProcessing.QualityPreset)
    (aa bloom aberration vignette noise grading : bool) (b v n : R) (offset : R * R) (k : R) :
  pipeline_strengths
    (PostProcessing.FullPostProcessing preset aa bloom aberration vignette noise grading
       b v n offset k)
  = [ if bloom then b else 0;
      fst (if aberration && PostProcessing.enableAberration preset then offset else (0, 0));
      snd (if aberration && PostProcessing.enableAberration preset then offset else (0, 0));
      if grading then 0.02 * k else 0;
      if grading then 0.1 * k else 0;
      0;
      if grading then 0.15 * k else 0;
      if vignette then v else 0;
      if noise && PostProcessing.enableNoise preset then n else 0 ].
Proof.
  unfold pipeline_strengths, PostProcessing.FullPostProcessing.
  cbn [PostProcessing.passes map strengths concat app].
  destruct (if aberration && PostProcessing.enableAberration preset then offset else (0, 0));
    reflexivity.
Qed.

(** X13. Every strength of the rendered pipeline is proportional to the
    global [intensity]: with intensity [k] each strength is [k] times its
    value at intensity 1 (the default), in the full chain and in the
    reduced pipeline alike; at intensity 0 every strength is 0. *)
Theorem PostProcessing_intensity_scales
    (props : PostProcessing.Props) (env : Device.Env) (timeRef k : R) :
  pipeline_strengths (PostProcessing.PostProcessing (with_intensity props k) env timeRef)
  = map (Rmult k)
        (pipeline_strengths (PostProcessing.PostProcessing (with_intensity props 1) env timeRef))
  /\
  Forall (fun s => s = 0)
    (pipeline_strengths (PostProcessing.PostProcessing (with_intensity props 0) env timeRef)).
Proof.
  assert (Hscale : forall k,
    pipeline_strengths (PostProcessing.PostProcessing (with_intensity props k) env timeRef)
    = map (Rmult k)
        (pipeline_strengths
           (PostProcessing.PostProcessing (with_intensity props 1) env timeRef))).
  { clear k. intros k.
    unfold PostProcessing.PostProcessing, with_intensity.
    cbn [PostProcessing.quality PostProcessing.p_enableBloom PostProcessing.p_enableAberration
         PostProcessing.p_enableVignette PostProcessing.p_enableNoise PostProcessing.p_enableAA
         PostProcessing.p_enableColorGrading PostProcessing.p_bloomIntensity
         PostProcessing.aberrationStrength PostProcessing.vignetteDarkness
         PostProcessing.noiseOpacity PostProcessing.p_intensity PostProcessing.animated
         PostProcessing.mouseX PostProcessing.mouseY].
    set (q := default (PostProcessing.useDeviceQuality env) (PostProcessing.quality props)).
    set (preset := PostProcessing.qualityPresets q).
    assert (Hfull : forall aa bloom aberration vignette noise grading b v n s,
      pipeline_strengths
        (PostProcessing.FullPostProcessing preset aa bloom aberration vignette noise grading
           (b * k) (v * k) (n * k) (s * k, s * k) k)
      = map (Rmult k)
          (pipeline_strengths
             (PostProcessing.FullPostProcessing preset aa bloom aberration vignette noise
                grading (b * 1) (v * 1) (n * 1) (s * 1, s * 1) 1))).
    { intros. rewrite !FullPostProcessing_strengths.
      destruct bloom, (aberration && PostProcessing.enableAberration preset), grading,
        vignette, (noise && PostProcessing.enableNoise preset);
        cbn [map fst snd]; repeat (f_equal; try lra). }
    assert (Hmin : forall b v,
      pipeline_strengths (PostProcessing.MinimalPostProcessing (b * k) (v * k))
      = map (Rmult k) (pipeline_strengths (PostProcessing.MinimalPostProcessing (b * 1) (v * 1)))).
    { intros. unfold pipeline_strengths, PostProcessing.MinimalPostProcessing.
      cbn [PostProcessing.passes map strengths concat app]. repeat (f_equal; try lra). }
    cbn [default from_option]. unfold Datatypes.id.
    destruct q, (PostProcessing.quality props); try apply Hfull; apply Hmin. }
  split; [apply Hscale |].
  rewrite Hscale. apply Forall_forall. intros s Hin.
  apply list_elem_of_In in Hin. apply in_map_iff in Hin. destruct Hin as (s1 & <- & _). lra.
Qed.

Lemma PostProcessing_full (props : PostProcessing.Props) (env : Device.Env) (timeRef : R) :
  let q := default (PostProcessing.useDeviceQuality env) (PostProcessing.quality props) in
  (PostProcessing.quality props <> None \/ q <> PostProcessing.low) ->
  exists aa bloom vignette grading b v n offset k,
    PostProcessing.PostProcessing props env timeRef
    = PostProcessing.FullPostProcessing (PostProcessing.qualityPresets q) aa bloom
        (default true (PostProcessing.p_enableAberration props)) vignette
        (default (PostProcessing.enableNoise (PostProcessing.qualityPresets q))
                 (PostProcessing.p_enableNoise props))
        grading b v n offset k.
Proof.
  intros q Hfull. unfold PostProcessing.PostProcessing. fold q.
  destruct q eqn:Eq, (PostProcessing.quality props) eqn:Eprop;
    try (do 9 eexists; reflexivity).
  destruct Hfull as [H | H]; congruence.
Qed.

(** X14. Film grain needs a tier whose preset enables it: on the tiers
    ['low'] and ['medium'] the full chain's grain pass has opacity 0 even
    with [enableNoise] set, and on the tier ['low'] its chromatic
    aberration offset is [(0, 0)] even with [enableAberration] set. On the
    tiers ['high'] and ['ultra'] the [enableNoise] prop decides. *)
Theorem grain_and_aberration_gated
    (props : PostProcessing.Props) (env : Device.Env) (timeRef : R) :
  let q := default (PostProcessing.useDeviceQuality env) (PostProcessing.quality props) in
  let rendered := PostProcessing.passes (PostProcessing.PostProcessing props env timeRef) in
  (q = PostProcessing.medium -> In (PostProcessing.Noise 0) rendered) /\
  (PostProcessing.quality props = Some PostProcessing.low ->
     In (PostProcessing.Noise 0) rendered /\
     In (PostProcessing.ChromaticAberration (0, 0)) rendered) /\
  (q = PostProcessing.high \/ q = PostProcessing.ultra ->
     PostProcessing.p_enableNoise props <> Some false ->
     In (PostProcessing.Noise
           (default 0.15 (PostProcessing.noiseOpacity props)
            * default 1 (PostProcessing.p_intensity props)))
        rendered).
Proof.
  intros q rendered. subst rendered.
  split; [| split].
  - intros Hq.
    destruct (PostProcessing_full props env timeRef) as
      (aa & bloom & vignette & grading & b & v & n & offset & k & ->).
    { right. fold q. rewrite Hq. discriminate. }
    fold q. rewrite Hq. unfold PostProcessing.FullPostProcessing.
    cbn [PostProcessing.passes PostProcessing.qualityPresets PostProcessing.enableNoise].
    rewrite andb_false_r. cbn [In]. tauto.
  - intros Hlow.
    destruct (PostProcessing_full props env timeRef) as
      (aa & bloom & vignette & grading & b & v & n & offset & k & ->).
    { left. rewrite Hlow. discriminate. }
    unfold q. rewrite Hlow. cbn [default from_option]. unfold Datatypes.id.
    unfold PostProcessing.FullPostProcessing.
    cbn [PostProcessing.passes PostProcessing.qualityPresets PostProcessing.enableNoise
         PostProcessing.enableAberration].
    rewrite !andb_false_r. cbn [In]. tauto.
  - intros Hq Hprop.
    unfold PostProcessing.PostProcessing. fold q.
    assert (Hn : default (PostProcessing.enableNoise (PostProcessing.qualityPresets q))
                   (PostProcessing.p_enableNoise props)
                 && PostProcessing.enableNoise (PostProcessing.qualityPresets q) = true).
    { destruct Hq as [-> | ->]; destruct (PostProcessing.p_enableNoise props) as [[] |];
        try reflexivity; congruence. }
    destruct Hq as [Hq | Hq]; rewrite Hq in *;
      destruct (PostProcessing.quality props);
      unfold PostProcessing.FullPostProcessing; cbn [PostProcessing.passes];
      rewrite Hn; cbn [In]; tauto.
Qed.

(** What the reduced pipeline is rendered with. *)
Lemma reduced_pipeline_value
    (props : PostProcessing.Props) (env : Device.Env) (timeRef : R) :
  PostProcessing.quality props = None ->
  PostProcessing.useDeviceQuality env = PostProcessing.low ->
  PostProcessing.PostProcessing props env timeRef
  = PostProcessing.MinimalPostProcessing
      ((default 1 (PostProcessing.p_bloomIntensity props)
        + (if default false (PostProcessing.animated props)
           then JS.Math_sin (timeRef * 0.5) * 0.1 else 0))
       * default 1 (PostProcessing.p_intensity props))
      (default 0.7 (PostProcessing.vignetteDarkness props)
       * default 1 (PostProcessing.p_intensity props)).
Proof.
  intros Hq Hlow. unfold PostProcessing.PostProcessing. rewrite Hq, Hlow.
  cbn [default from_option PostProcessing.qualityPresets PostProcessing.bloomIntensity].
  unfold Datatypes.id. f_equal.
  destruct (PostProcessing.p_bloomIntensity props); cbn; try reflexivity.
  f_equal. f_equal. lra.
Qed.

(** X15. The reduced pipeline does not consult the enable flags: when no
    [quality] prop is given and the detected tier is ['low'], two sets of
    props that agree on the bloom intensity, the vignette darkness, the
    global intensity and the animation render the same pipeline, so
    [enableBloom = false] or [enableVignette = false] leave bloom and
    vignette on. *)
Theorem reduced_pipeline_ignores_flags
    (props1 props2 : PostProcessing.Props) (env : Device.Env) (timeRef : R) :
  PostProcessing.useDeviceQuality env = PostProcessing.low ->
  PostProcessing.quality props1 = None ->
  PostProcessing.quality props2 = None ->
  PostProcessing.p_bloomIntensity props1 = PostProcessing.p_bloomIntensity props2 ->
  PostProcessing.vignetteDarkness props1 = PostProcessing.vignetteDarkness props2 ->
  PostProcessing.p_intensity props1 = PostProcessing.p_intensity props2 ->
  PostProcessing.animated props1 = PostProcessing.animated props2 ->
  PostProcessing.PostProcessing props1 env timeRef
  = PostProcessing.PostProcessing props2 env timeRef.
Proof.
  intros Hlow Hq1 Hq2 Hb Hv Hi Ha.
  rewrite !reduced_pipeline_value by assumption.
  rewrite Hb, Hv, Hi, Ha. reflexivity.
Qed.

Lemma reduced_pipeline_ignores_flags_witness :
  PostProcessing.PostProcessing (onlyQuality None) (browser iPhoneUA 3 Device.Throw) 0
  = PostProcessing.PostProcessing effectsOff (browser iPhoneUA 3 Device.Throw) 0.
Proof.
  exact (reduced_pipeline_ignores_flags (onlyQuality None) effectsOff
           (browser iPhoneUA 3 Device.Throw) 0
           iPhone_detected_low eq_refl eq_refl eq_refl eq_refl eq_refl eq_refl).
Defined.

(** ** Energy core: short frames, idle rotation, bounds *)

Lemma pow_decay_20th : 2 / 3 <= JS.Math_pow 0.001 0.05.
Proof.
  rewrite pow_decay. set (a := Rpower 0.001 0.05).
  assert (Ha : 0 < a) by (unfold a, Rpower; apply exp_pos).
  assert (Hpow : a ^ 20 = 0.001).
  { rewrite <- Rpower_pow by exact Ha. unfold a. rewrite Rpower_mult.
    replace (0.05 * INR 20) with 1 by (simpl; lra).
    apply Rpower_1. lra. }
  destruct (Rle_lt_dec (2 / 3) a) as [Hle | Hlt]; [exact Hle |].
  exfalso.
  assert (Hinc : a ^ 20 <= (2 / 3) ^ 20) by (apply pow_incr; lra).
  assert (Hsmall : (2 / 3) ^ 20 < 0.001) by (simpl; lra).
  lra.
Qed.

(** X16. On a frame of at most 50 ms (20 frames per second or more) the
    energy core's smoothed rotation moves towards its target on both axes
    without passing it: the offset to the target is multiplied by a factor
    in [[0, 1)]. *)
Theorem energy_core_short_frame (props : EnergyCore.Props) (env : Device.Env) (time delta : R)
    (s : EnergyCore.State) (g : EnergyCore.Group) :
  EnergyCore.groupRef s = Some g ->
  0 < delta <= 0.05 ->
  let s' := EnergyCore.frame props env time delta s in
  exists m, 0 <= m < 1 /\
    EnergyCore.x (EnergyCore.targetRotation s') - EnergyCore.x (EnergyCore.currentRotation s')
    = (EnergyCore.x (EnergyCore.targetRotation s') - EnergyCore.x (EnergyCore.currentRotation s))
      * m /\
    EnergyCore.y (EnergyCore.targetRotation s') - EnergyCore.y (EnergyCore.currentRotation s')
    = (EnergyCore.y (EnergyCore.targetRotation s') - EnergyCore.y (EnergyCore.currentRotation s))
      * m.
Proof.
  intros Hg [Hd0 Hd1] s'.
  exists (3 * JS.Math_pow 0.001 delta - 2).
  pose proof (pow_decay_antitone delta 0.05 Hd1) as Hle.
  pose proof pow_decay_20th as H20.
  pose proof (pow_decay_range delta Hd0) as Hk.
  split; [lra |].
  destruct (frame_currentRotation props env time delta s g Hg) as [Hx Hy].
  fold s' in Hx, Hy. rewrite Hx, Hy. split; ring.
Qed.

Lemma energy_core_short_frame_witness :
  exists m, 0 <= m < 1 /\
    EnergyCore.y (EnergyCore.targetRotation
                    (EnergyCore.frame pointerRight (browser desktopUA 2 Device.Throw)
                       0.016 0.016 EnergyCore.initialState))
    - EnergyCore.y (EnergyCore.currentRotation
                      (EnergyCore.frame pointerRight (browser desktopUA 2 Device.Throw)
                         0.016 0.016 EnergyCore.initialState))
    = (EnergyCore.y (EnergyCore.targetRotation
                       (EnergyCore.frame pointerRight (browser desktopUA 2 Device.Throw)
                          0.016 0.016 EnergyCore.initialState))
       - EnergyCore.y (EnergyCore.currentRotation EnergyCore.initialState)) * m.
Proof.
  destruct (energy_core_short_frame pointerRight (browser desktopUA 2 Device.Throw)
              0.016 0.016 EnergyCore.initialState _ eq_refl ltac:(lra))
    as (m & Hm & _ & Hy).
  exists m. split; [exact Hm | exact Hy].
Defined.

(** The state of an idle core: the pointer at the centre and the smoothed
    rotation at rest. *)
Lemma idle_frame (props : EnergyCore.Props) (env : Device.Env) (time delta : R)
    (s : EnergyCore.State) (g : EnergyCore.Group) :
  default 0 (EnergyCore.p_mouseX props) = 0 ->
  default 0 (EnergyCore.p_mouseY props) = 0 ->
  default true (EnergyCore.p_autoRotate props) = true ->
  EnergyCore.groupRef s = Some g ->
  EnergyCore.currentRotation s = {| EnergyCore.x := 0; EnergyCore.y := 0 |} ->
  let s' := EnergyCore.frame props env time delta s in
  EnergyCore.currentRotation s' = {| EnergyCore.x := 0; EnergyCore.y := 0 |} /\
  exists g', EnergyCore.groupRef s' = Some g' /\
             EnergyCore.rotation_x g' = 0 /\ EnergyCore.rotation_y g' = delta * 0.1.
Proof.
  intros Hmx Hmy Hauto Hg Hc s'.
  destruct (frame_currentRotation props env time delta s g Hg) as [Hx Hy].
  destruct (frame_group_rotation props env time delta s g Hg) as (g' & Hg' & Hrx & Hry).
  fold s' in Hx, Hy, Hg', Hrx, Hry.
  pose proof (frame_targetRotation props env time delta s) as Ht. fold s' in Ht.
  rewrite Ht, Hc, Hmx, Hmy in Hx, Hy. cbn [EnergyCore.x EnergyCore.y] in Hx, Hy.
  assert (Hx0 : EnergyCore.x (EnergyCore.currentRotation s') = 0) by (rewrite Hx; ring).
  assert (Hy0 : EnergyCore.y (EnergyCore.currentRotation s') = 0) by (rewrite Hy; ring).
  split.
  - destruct (EnergyCore.currentRotation s') as [cx cy]. cbn in Hx0, Hy0. subst. reflexivity.
  - exists g'. split; [exact Hg' |]. rewrite Hrx, Hry, Hx0, Hy0, Hauto, Hmx, Hmy.
    replace (JS.ltb (JS.Math_abs 0) 0.01) with true
      by (symmetry; apply ltb_true; unfold JS.Math_abs; rewrite Rabs_R0; lra).
    cbn [andb]. split; lra.
Qed.

(** X17. The idle rotation does not accumulate. With the pointer at the
    centre and [autoRotate] on, starting from rest, after any number of
    frames the group's [y] rotation is [0.1] times the duration of the last
    frame alone (and its [x] rotation 0): each frame overwrites the
    rotation with the smoothed one before adding the increment. *)
Theorem idle_rotation_does_not_accumulate
    (props : EnergyCore.Props) (env : Device.Env) (frames : list (R * R)) (time delta : R) :
  default 0 (EnergyCore.p_mouseX props) = 0 ->
  default 0 (EnergyCore.p_mouseY props) = 0 ->
  default true (EnergyCore.p_autoRotate props) = true ->
  exists g',
    EnergyCore.groupRef
      (EnergyCore.run props env (frames ++ [(time, delta)]) EnergyCore.initialState)
    = Some g' /\
    EnergyCore.rotation_x g' = 0 /\
    EnergyCore.rotation_y g' = delta * 0.1.
Proof.
  intros Hmx Hmy Hauto.
  assert (Hinv : forall frames s g,
            EnergyCore.groupRef s = Some g ->
            EnergyCore.currentRotation s = {| EnergyCore.x := 0; EnergyCore.y := 0 |} ->
            exists g1,
              EnergyCore.groupRef (EnergyCore.run props env frames s) = Some g1 /\
              EnergyCore.currentRotation (EnergyCore.run props env frames s)
              = {| EnergyCore.x := 0; EnergyCore.y := 0 |}).
  { clear frames. induction frames as [| [t d] frames IH]; intros s g Hg Hc.
    - exists g. split; assumption.
    - unfold EnergyCore.run. cbn [fold_left fst snd].
      destruct (idle_frame props env t d s g Hmx Hmy Hauto Hg Hc) as (Hc' & g' & Hg' & _).
      exact (IH _ g' Hg' Hc'). }
  unfold EnergyCore.run. rewrite fold_left_app. cbn [fold_left fst snd].
  destruct (Hinv frames EnergyCore.initialState _ eq_refl eq_refl) as (g1 & Hg1 & Hc1).
  destruct (idle_frame props env time delta _ g1 Hmx Hmy Hauto Hg1 Hc1) as (_ & g' & Hg' & Hr).
  exists g'. split; [exact Hg' | exact Hr].
Qed.

Lemma idle_rotation_does_not_accumulate_witness :
  exists g',
    EnergyCore.groupRef
      (EnergyCore.run
         {| EnergyCore.p_mouseX := Some 0; EnergyCore.p_mouseY := Some 0;
            EnergyCore.p_quality := None; EnergyCore.p_autoRotate := None |}
         (browser desktopUA 2 Device.Throw)
         ([(1, 1); (2, 1)] ++ [(2.016, 0.016)]) EnergyCore.initialState)
    = Some g' /\
    EnergyCore.rotation_y g' = 0.016 * 0.1.
Proof.
  destruct (idle_rotation_does_not_accumulate
              {| EnergyCore.p_mouseX := Some 0; EnergyCore.p_mouseY := Some 0;
                 EnergyCore.p_quality := None; EnergyCore.p_autoRotate := None |}
              (browser desktopUA 2 Device.Throw) [(1, 1); (2, 1)] 2.016 0.016
              eq_refl eq_refl eq_refl) as (g' & Hg' & _ & Hy).
  exists g'. split; [exact Hg' | exact Hy].
Defined.

(** X18. After every frame the core mesh's scale is within 1.5% of 1, the
    group floats within 0.2 of its rest height (0.15 on the low quality),
    and the shader's time uniform is the clock's elapsed time. *)
Theorem energy_core_frame_bounds (props : EnergyCore.Props) (env : Device.Env) (time delta : R)
    (s : EnergyCore.State) (g : EnergyCore.Group) (core : EnergyCore.Mesh) :
  EnergyCore.groupRef s = Some g ->
  EnergyCore.coreRef s = Some core ->
  let s' := EnergyCore.frame props env time delta s in
  EnergyCore.uTime s' = time /\
  (exists core', EnergyCore.coreRef s' = Some core' /\
                 0.985 <= EnergyCore.mesh_scale core' <= 1.015) /\
  (exists g', EnergyCore.groupRef s' = Some g' /\
              -0.2 <= EnergyCore.position_y g' <= 0.2 /\
              (default (EnergyCore.useDeviceQuality env) (EnergyCore.p_quality props)
               = EnergyCore.low ->
               -0.15 <= EnergyCore.position_y g' <= 0.15)).
Proof.
  intros Hg Hcore s'. subst s'. unfold EnergyCore.frame. rewrite Hg, Hcore.
  unfold EnergyCore.frame_group.
  cbn [EnergyCore.uTime EnergyCore.coreRef EnergyCore.groupRef option_map].
  pose proof (SIN_bound (time * 2)) as Hs2. pose proof (SIN_bound (time * 0.5)) as Hs5.
  unfold JS.Math_sin.
  split; [reflexivity |]. split.
  - eexists. split; [reflexivity |]. cbn [EnergyCore.mesh_scale]. lra.
  - eexists. split; [reflexivity |]. cbn [EnergyCore.position_y].
    split.
    + destruct (default _ _); lra.
    + intros ->. lra.
Qed.

Lemma energy_core_frame_bounds_witness :
  EnergyCore.uTime
    (EnergyCore.frame pointerRight (browser desktopUA 2 Device.Throw) 3 0.016
       EnergyCore.initialState) = 3.
Proof.
  exact (proj1 (energy_core_frame_bounds pointerRight (browser desktopUA 2 Device.Throw) 3 0.016
                  EnergyCore.initialState _ _ eq_refl eq_refl)).
Defined.

(** ** Camera: the space it moves in *)

Lemma pow_decay_unit (t : R) : 0 <= t -> 0 < JS.Math_pow 0.001 t <= 1.
Proof.
  intros Ht. destruct (Req_dec t 0) as [-> | Hne].
  - rewrite pow_decay_0. lra.
  - pose proof (pow_decay_range t ltac:(lra)). lra.
Qed.

Lemma cameraTarget_in_box (mouse : Hooks.MousePosition) (scrollProgress : R) :
  -1 <= Hooks.normalizedX mouse <= 1 ->
  -1 <= Hooks.normalizedY mouse <= 1 ->
  0 <= scrollProgress <= 1 ->
  in_camera_box (cameraTarget mouse scrollProgress).
Proof.
  intros Hx Hy Hs. unfold in_camera_box, cameraTarget; cbn [Scene.vx Scene.vy Scene.vz].
  repeat split; lra.
Qed.

Lemma cameraFrame_in_box (mouse : Hooks.MousePosition) (scrollProgress delta : R)
    (s : Scene.CameraState) :
  camera_input_ok (mouse, scrollProgress, delta) ->
  in_camera_box (Scene.currentPos s) ->
  in_camera_box (Scene.currentPos (Scene.cameraFrame mouse scrollProgress delta s)).
Proof.
  intros (Hx & Hy & Hs & Hd) Hbox.
  destruct (Scene.cameraRef s) as [camera |] eqn:Hc.
  - pose proof (cameraFrame_offset mouse scrollProgress delta s camera Hc) as Hoff.
    pose proof (cameraTarget_in_box mouse scrollProgress Hx Hy Hs) as Ht.
    pose proof (pow_decay_unit (2.4 * delta) ltac:(lra)) as Hk.
    set (k := JS.Math_pow 0.001 (2.4 * delta)) in *.
    set (t := cameraTarget mouse scrollProgress) in *.
    set (c' := Scene.currentPos (Scene.cameraFrame mouse scrollProgress delta s)) in *.
    unfold offset, scaled in Hoff. cbn [Scene.vx Scene.vy Scene.vz] in Hoff.
    injection Hoff as Hvx Hvy Hvz.
    unfold in_camera_box in *.
    destruct Ht as ((?&?)&(?&?)&(?&?)). destruct Hbox as ((?&?)&(?&?)&(?&?)).
    repeat split; nra.
  - unfold Scene.cameraFrame. rewrite Hc. exact Hbox.
Qed.

(** X19. The camera stays in the box its targets span. Whatever the
    pointer positions (normalized within [[-1, 1]]), scroll progresses
    (within [[0, 1]]) and frame durations of a run of frames, a camera that
    starts in the box [[-0.4, 0.4] x [-0.25, 5.25] x [6, 20]] (as the
    mounted camera does) is still in it after the run: in particular it
    never comes closer to the core than its initial distance of 6. *)
Theorem camera_stays_in_box (inputs : list CameraInput) (s : Scene.CameraState) :
  Forall camera_input_ok inputs ->
  in_camera_box (Scene.currentPos s) ->
  in_camera_box (Scene.currentPos Scene.initialCameraState) /\
  in_camera_box (Scene.currentPos (cameraFrames inputs s)).
Proof.
  intros Hok Hbox. split.
  { unfold in_camera_box, Scene.initialCameraState, Scene.CAMERA_CONFIG.initialZ.
    cbn [Scene.currentPos Scene.vx Scene.vy Scene.vz]. repeat split; lra. }
  revert s Hbox. induction Hok as [| [[mouse sp] delta] inputs Hi _ IH]; intros s Hbox.
  - exact Hbox.
  - unfold cameraFrames. cbn [fold_left].
    apply IH. apply cameraFrame_in_box; assumption.
Qed.

Lemma camera_stays_in_box_witness :
  in_camera_box
    (Scene.currentPos
       (cameraFrames
          [({| Hooks.x := 1920; Hooks.y := 0; Hooks.normalizedX := 1; Hooks.normalizedY := 1 |},
            1, 0.016)]
          Scene.initialCameraState)).
Proof.
  refine (proj2 (camera_stays_in_box
                   [({| Hooks.x := 1920; Hooks.y := 0;
                        Hooks.normalizedX := 1; Hooks.normalizedY := 1 |}, 1, 0.016)]
                   Scene.initialCameraState _ _)).
  - repeat constructor; simpl; lra.
  - unfold in_camera_box, Scene.initialCameraState, Scene.CAMERA_CONFIG.initialZ.
    simpl. repeat split; lra.
Defined.

(** ** What the scene hands to its children *)

(** X20. From the scene, post-processing always renders the full chain of
    eight passes without multisampling, whatever the device: the scene
    always supplies the [quality] prop (never ['ultra']), so the reduced
    pipeline is never used. The grain pass has opacity 0.15 on the high
    quality and 0 otherwise. *)
Theorem scene_postprocessing (mouse : Hooks.MousePosition) (isMobile : bool)
    (q : Scene.Quality) (env : Device.Env) (timeRef : R) :
  let rendered :=
    PostProcessing.PostProcessing (Scene.postProcessingProps mouse isMobile q) env timeRef in
  map PostProcessing.kind (PostProcessing.passes rendered) = fullChain /\
  PostProcessing.composer_multisampling rendered = 0%nat /\
  exists opacity,
    In (PostProcessing.Noise opacity) (PostProcessing.passes rendered) /\
    opacity = match q with Scene.high => 0.15 | _ => 0 end.
Proof.
  intros rendered. subst rendered. split; [| split].
  - apply (PostProcessing_forced _ env timeRef (Scene.postProcessingQuality q)). reflexivity.
  - destruct q; reflexivity.
  - destruct q; unfold PostProcessing.PostProcessing, Scene.postProcessingProps;
      cbn [PostProcessing.quality default from_option Scene.postProcessingQuality];
      unfold PostProcessing.FullPostProcessing; cbn [PostProcessing.passes];
      eexists; (split; [do 7 right; left; reflexivity |]); cbn; unfold Datatypes.id; lra.
Qed.

(** X21. The scene's particle budget is cut twice: [SceneContent] picks
    600, 1200 or 2000 by quality and passes the same quality on, so
    [Particles] generates 30% of 600 = 180 particles on low, 60% of
    1200 = 720 on medium and all 2000 on high. *)
Theorem scene_particle_budget (q : Scene.Quality) (env : Device.Env) :
  fst (Particles.generateArguments (Scene.particlesProps q) env)
  = match q with
    | Scene.low => 180
    | Scene.medium => 720
    | Scene.high => 2000
    end.
Proof.
  destruct q; unfold Particles.generateArguments, Scene.particlesProps, Scene.particleCount;
    cbn [fst Particles.p_count Particles.p_quality default from_option Particles.useAdaptiveCount];
    unfold Datatypes.id, JS.Math_floor.
  - rewrite <- (Int_part_spec (600 * 0.3) 180); [reflexivity | lra].
  - rewrite <- (Int_part_spec (1200 * 0.6) 720); [reflexivity | lra].
  - reflexivity.
Qed.

(** ** Floating objects *)

Lemma frame_children (objects : list Scene.FloatingObjects.FloatingObjectConfig)
    (initialYs : list R) (sp time delta : R) (children : list Scene.FloatingObjects.Mesh)
    (i : nat) :
  match Scene.FloatingObjects.frame objects initialYs sp time delta (Some children) with
  | Some children' =>
      length children' = length children /\
      children' !! i
      = Scene.FloatingObjects.frameChild objects initialYs (JS.Math_max 0 (1 - sp * 2))
          time delta i <$> children !! i
  | None => False
  end.
Proof.
  unfold Scene.FloatingObjects.frame. split.
  - apply length_imap.
  - apply list_lookup_imap.
Qed.

Lemma floating_fade_range (sp : R) :
  0 <= sp ->
  0 <= 0.3 * JS.Math_max 0 (1 - sp * 2) <= 0.3 /\
  (0.5 <= sp -> 0.3 * JS.Math_max 0 (1 - sp * 2) = 0).
Proof.
  intros Hs. unfold JS.Math_max, Rmax. destruct Rle_dec; split; intros; lra.
Qed.

(** X22. The floating objects turn at a fixed rate: over any run of
    frames each object's rotation grows, on every axis, by its configured
    speed times 60 times the total elapsed time, however the time is cut
    into frames. *)
Theorem floating_objects_rotation
    (objects : list Scene.FloatingObjects.FloatingObjectConfig) (initialYs : list R)
    (sp : R) (frames : list (R * R)) (children : list Scene.FloatingObjects.Mesh)
    (i : nat) (config : Scene.FloatingObjects.FloatingObjectConfig)
    (mesh : Scene.FloatingObjects.Mesh) :
  objects !! i = Some config ->
  children !! i = Some mesh ->
  exists children' mesh',
    Scene.FloatingObjects.run objects initialYs sp frames (Some children) = Some children' /\
    length children' = length children /\
    children' !! i = Some mesh' /\
    let '(speed_x, speed_y, speed_z) := Scene.FloatingObjects.rotationSpeed config in
    let elapsed := total (map snd frames) in
    Scene.FloatingObjects.rotation_x mesh'
      = Scene.FloatingObjects.rotation_x mesh + speed_x * 60 * elapsed /\
    Scene.FloatingObjects.rotation_y mesh'
      = Scene.FloatingObjects.rotation_y mesh + speed_y * 60 * elapsed /\
    Scene.FloatingObjects.rotation_z mesh'
      = Scene.FloatingObjects.rotation_z mesh + speed_z * 60 * elapsed.
Proof.
  intros Hconfig. revert children mesh.
  induction frames as [| [time delta] frames IH]; intros children mesh Hmesh.
  - exists children, mesh. cbn [Scene.FloatingObjects.run fold_left map total fold_right].
    destruct (Scene.FloatingObjects.rotationSpeed config) as [[sx sy] sz].
    repeat split; try assumption; lra.
  - unfold Scene.FloatingObjects.run. cbn [fold_left fst snd].
    pose proof (frame_children objects initialYs sp time delta children i) as Hf.
    destruct (Scene.FloatingObjects.frame objects initialYs sp time delta (Some children))
      as [children1 |]; [| contradiction].
    destruct Hf as [Hlen1 Hlook1]. rewrite Hmesh in Hlook1. cbn [fmap option_fmap option_map] in Hlook1.
    destruct (IH children1 _ Hlook1) as (children' & mesh' & Hrun & Hlen & Hlook & Hrot).
    exists children', mesh'.
    split; [exact Hrun |]. split; [congruence |]. split; [exact Hlook |].
    unfold Scene.FloatingObjects.frameChild in Hrot. rewrite Hconfig in Hrot.
    destruct (Scene.FloatingObjects.rotationSpeed config) as [[sx sy] sz].
    cbn [Scene.FloatingObjects.rotation_x Scene.FloatingObjects.rotation_y
         Scene.FloatingObjects.rotation_z] in Hrot.
    destruct Hrot as (Hx & Hy & Hz).
    cbn [map snd total fold_right]. fold (total (map snd frames)).
    cbv zeta in *.
    rewrite Hx, Hy, Hz. repeat split; ring.
Qed.

Lemma floating_objects_rotation_witness :
  exists children' mesh',
    Scene.FloatingObjects.run
      (Scene.FloatingObjects.objects Scene.DEFAULT_COLORS Scene.low)
      (Scene.FloatingObjects.initialYPositions
         (Scene.FloatingObjects.objects Scene.DEFAULT_COLORS Scene.low))
      0 [(0.5, 0.5); (1, 0.5)]
      (Some (Scene.FloatingObjects.mounted
               (Scene.FloatingObjects.objects Scene.DEFAULT_COLORS Scene.low)))
    = Some children' /\
    length children' = 3%nat /\
    children' !! 0%nat = Some mesh'.
Proof.
  destruct (floating_objects_rotation
              (Scene.FloatingObjects.objects Scene.DEFAULT_COLORS Scene.low)
              (Scene.FloatingObjects.initialYPositions
                 (Scene.FloatingObjects.objects Scene.DEFAULT_COLORS Scene.low))
              0 [(0.5, 0.5); (1, 0.5)]
              (Scene.FloatingObjects.mounted
                 (Scene.FloatingObjects.objects Scene.DEFAULT_COLORS Scene.low))
              0%nat _ _ eq_refl eq_refl)
    as (children' & mesh' & Hrun & Hlen & Hlook & _).
  exists children', mesh'. split; [exact Hrun |]. split; [exact Hlen | exact Hlook].
Defined.

(** X23. After a frame at scroll progress [p] every floating object's
    opacity is [0.3 * max(0, 1 - 2 p)] and its height is the height it was
    mounted at plus [sin(time * floatSpeed + 1.5 i) * floatAmplitude * 100].
    For a non-negative progress the opacity lies within [[0, 0.3]] and is
    0 from the middle of the page on, and each object of the scene floats
    within 0.3 of the height it was mounted at. *)
Theorem floating_objects_fade
    (colors : Scene.Colors) (q : Scene.Quality) (sp time delta : R) (i : nat)
    (config : Scene.FloatingObjects.FloatingObjectConfig) :
  0 <= sp ->
  Scene.FloatingObjects.objects colors q !! i = Some config ->
  let objects := Scene.FloatingObjects.objects colors q in
  exists children' mesh',
    Scene.FloatingObjects.frame objects (Scene.FloatingObjects.initialYPositions objects)
      sp time delta (Some (Scene.FloatingObjects.mounted objects)) = Some children' /\
    length children' = length objects /\
    children' !! i = Some mesh' /\
    Scene.FloatingObjects.material_opacity mesh' = Some (0.3 * JS.Math_max 0 (1 - sp * 2)) /\
    Scene.FloatingObjects.position_y mesh'
    = Scene.FloatingObjects.position_1 config
      + JS.Math_sin (time * Scene.FloatingObjects.floatSpeed config + INR i * 1.5)
        * Scene.FloatingObjects.floatAmplitude config * 100 /\
    0 <= 0.3 * JS.Math_max 0 (1 - sp * 2) <= 0.3 /\
    (0.5 <= sp -> Scene.FloatingObjects.material_opacity mesh' = Some 0) /\
    Rabs (Scene.FloatingObjects.position_y mesh' - Scene.FloatingObjects.position_1 config)
      <= 0.3.
Proof.
  intros Hsp Hconfig objects.
  pose proof (frame_children objects (Scene.FloatingObjects.initialYPositions objects)
                sp time delta (Scene.FloatingObjects.mounted objects) i) as Hf.
  destruct (Scene.FloatingObjects.frame _ _ _ _ _ _) as [children' |]; [| contradiction].
  destruct Hf as [Hlen Hlook].
  unfold Scene.FloatingObjects.mounted in Hlen, Hlook.
  rewrite length_map in Hlen. rewrite list_lookup_fmap in Hlook.
  fold objects in Hconfig. rewrite Hconfig in Hlook.
  cbn [fmap option_fmap option_map] in Hlook.
  unfold Scene.FloatingObjects.frameChild in Hlook. rewrite Hconfig in Hlook.
  unfold Scene.FloatingObjects.initialYPositions in Hlook.
  rewrite list_lookup_fmap, Hconfig in Hlook. cbn [fmap option_fmap option_map default from_option] in Hlook.
  unfold Datatypes.id in Hlook.
  destruct (Scene.FloatingObjects.rotationSpeed config) as [[sx sy] sz].
  destruct (floating_fade_range sp Hsp) as [Hrange Hzero].
  eexists children', _. split; [reflexivity |]. split; [exact Hlen |].
  split; [exact Hlook |].
  cbn [Scene.FloatingObjects.material_opacity Scene.FloatingObjects.position_y].
  split; [reflexivity |]. split; [reflexivity |]. split; [exact Hrange |].
  split; [intros Hhalf; rewrite (Hzero Hhalf); reflexivity |].
  assert (Hamp : 0 <= Scene.FloatingObjects.floatAmplitude config * 100 <= 0.3).
  { assert (Hall : Forall (fun c => 0 <= Scene.FloatingObjects.floatAmplitude c * 100 <= 0.3)
                     (Scene.FloatingObjects.baseObjects colors)).
    { unfold Scene.FloatingObjects.baseObjects.
      repeat constructor; cbn [Scene.FloatingObjects.floatAmplitude]; lra. }
    assert (Hbase : Scene.FloatingObjects.baseObjects colors !! i = Some config).
    { unfold objects in Hconfig.
      destruct q; cbn [Scene.FloatingObjects.objects] in Hconfig;
        try exact Hconfig; apply lookup_take_Some in Hconfig; tauto. }
    exact (Forall_lookup_1 _ _ _ _ Hall Hbase). }
  pose proof (SIN_bound (time * Scene.FloatingObjects.floatSpeed config + INR i * 1.5)) as Hs.
  unfold JS.Math_sin. apply Rabs_le. split; nra.
Qed.

Lemma floating_objects_fade_witness :
  exists children' mesh',
    Scene.FloatingObjects.frame
      (Scene.FloatingObjects.objects Scene.DEFAULT_COLORS Scene.medium)
      (Scene.FloatingObjects.initialYPositions
         (Scene.FloatingObjects.objects Scene.DEFAULT_COLORS Scene.medium))
      0.25 1 0.016
      (Some (Scene.FloatingObjects.mounted
               (Scene.FloatingObjects.objects Scene.DEFAULT_COLORS Scene.medium)))
    = Some children' /\
    length children' = 4%nat /\
    children' !! 3%nat = Some mesh' /\
    Scene.FloatingObjects.material_opacity mesh' = Some (0.3 * JS.Math_max 0 (1 - 0.25 * 2)).
Proof.
  destruct (floating_objects_fade Scene.DEFAULT_COLORS Scene.medium 0.25 1 0.016 3%nat _
              ltac:(lra) eq_refl)
    as (children' & mesh' & Hframe & Hlen & Hlook & Hopacity & _).
  exists children', mesh'.
  split; [exact Hframe |]. split; [exact Hlen |]. split; [exact Hlook | exact Hopacity].
Defined.

(** ** Lighting *)

(** X24. After every frame the directional light sits on the circle of
    radius 5 around the vertical axis at its mounted height, its intensity
    is [0.3 * (1 - progress / 2)] (between 0.15 and 0.3 for a progress in
    [[0, 1]]), and the point light's intensity is between 0.3 and 0.7. *)
Theorem lighting_frame (scrollProgress time : R) (s : Scene.DynamicLighting.State)
    (light : Scene.DynamicLighting.DirectionalLight) (point : R) :
  Scene.DynamicLighting.directionalRef s = Some light ->
  Scene.DynamicLighting.pointRef s = Some point ->
  0 <= scrollProgress <= 1 ->
  exists light' point',
    Scene.DynamicLighting.directionalRef (Scene.DynamicLighting.frame scrollProgress time s)
    = Some light' /\
    Scene.DynamicLighting.pointRef (Scene.DynamicLighting.frame scrollProgress time s)
    = Some point' /\
    Scene.DynamicLighting.position_x light' * Scene.DynamicLighting.position_x light'
    + Scene.DynamicLighting.position_z light' * Scene.DynamicLighting.position_z light' = 25 /\
    Scene.DynamicLighting.position_y light' = Scene.DynamicLighting.position_y light /\
    0.15 <= Scene.DynamicLighting.intensity light' <= 0.3 /\
    0.3 <= point' <= 0.7.
Proof.
  intros Hl Hp Hs. unfold Scene.DynamicLighting.frame. rewrite Hl, Hp.
  cbn [option_map Scene.DynamicLighting.directionalRef Scene.DynamicLighting.pointRef].
  do 2 eexists. split; [reflexivity |]. split; [reflexivity |].
  cbn [Scene.DynamicLighting.position_x Scene.DynamicLighting.position_y
       Scene.DynamicLighting.position_z Scene.DynamicLighting.intensity].
  pose proof (sin2_cos2 (time * 0.2)) as Hc. unfold Rsqr in Hc.
  pose proof (SIN_bound (time * 2)) as Hb.
  unfold JS.Math_sin, JS.Math_cos.
  repeat split; try lra; nra.
Qed.

Lemma lighting_frame_witness :
  exists light' point',
    Scene.DynamicLighting.directionalRef
      (Scene.DynamicLighting.frame 0.5 2 Scene.DynamicLighting.mounted) = Some light' /\
    Scene.DynamicLighting.pointRef
      (Scene.DynamicLighting.frame 0.5 2 Scene.DynamicLighting.mounted) = Some point' /\
    0.3 <= point' <= 0.7.
Proof.
  destruct (lighting_frame 0.5 2 Scene.DynamicLighting.mounted _ _ eq_refl eq_refl ltac:(lra))
    as (light' & point' & Hl & Hp & _ & _ & _ & Hr).
  exists light', point'. split; [exact Hl |]. split; [exact Hp | exact Hr].
Defined.

(** ** The Scene component: when the canvas is rendered *)

(** X25. The first render (before the mount effect) shows the placeholder.
    After the mount effect the canvas is rendered exactly when the canvas
    element could be created and gave a [webgl2] context, or gave none for
    [webgl2] and one for [webgl], without any call throwing; in every
    other case, a thrown exception included, the error fallback is
    rendered. A [webgl2] context makes the [webgl] request unnecessary:
    its outcome does not matter. *)
Theorem scene_render (isMobile : bool) (createElement : Device.result Scene.Root.Canvas) :
  let mounted := Scene.Root.mountEffect createElement Scene.Root.initialState in
  Scene.Root.render isMobile Scene.Root.initialState = Scene.Root.ServerPlaceholder /\
  (is_canvas (Scene.Root.render isMobile mounted) = true <->
   exists canvas, createElement = Device.Ok canvas /\
     ((exists gl, Scene.Root.getContext canvas "webgl2" = Device.Ok (Some gl)) \/
      (Scene.Root.getContext canvas "webgl2" = Device.Ok None /\
       exists gl, Scene.Root.getContext canvas "webgl" = Device.Ok (Some gl)))) /\
  (is_canvas (Scene.Root.render isMobile mounted) = false ->
   Scene.Root.render isMobile mounted = Scene.Root.SceneErrorFallback).
Proof.
  intros mounted. subst mounted.
  split; [reflexivity |].
  unfold Scene.Root.render, Scene.Root.mountEffect, Scene.Root.probe, Device.bind.
  cbn [Scene.Root.isClient Scene.Root.hasWebGL negb].
  destruct createElement as [canvas |].
  - destruct (Scene.Root.getContext canvas "webgl2") as [[gl2 |] |] eqn:E2.
    + cbn. split; [| discriminate]. split; [| reflexivity].
      intros _. exists canvas. split; [reflexivity |]. left. exists gl2. exact E2.
    + destruct (Scene.Root.getContext canvas "webgl") as [[gl1 |] |] eqn:E1; cbn.
      * split; [| discriminate]. split; [| reflexivity].
        intros _. exists canvas. split; [reflexivity |]. right. split; [exact E2 |].
        exists gl1. exact E1.
      * split; [| reflexivity]. split; [discriminate |].
        intros (c & Hc & [[gl H] | [_ [gl H]]]); injection Hc as <-; congruence.
      * split; [| reflexivity]. split; [discriminate |].
        intros (c & Hc & [[gl H] | [_ [gl H]]]); injection Hc as <-; congruence.
    + cbn. split; [| reflexivity]. split; [discriminate |].
      intros (c & Hc & [[gl H] | [H _]]); injection Hc as <-; congruence.
  - cbn. split; [| reflexivity]. split; [discriminate |].
    intros (c & Hc & _). discriminate.
Qed.

(** ** Core fade: the materials' opacities *)

Lemma Map_get_recorded_None (l : list Scene.Material) (k : nat) :
  ~ In k (map Scene.key l) -> Scene.Map_get (recorded l) k = None.
Proof.
  induction l as [| a l IH]; intros Hk; [reflexivity |].
  simpl. simpl in Hk.
  destruct (Nat.eqb_spec (Scene.key a) k) as [Heq | Hne]; [tauto |].
  apply IH. tauto.
Qed.

Lemma Map_get_recorded (l : list Scene.Material) (m : Scene.Material) :
  List.NoDup (map Scene.key l) -> In m l ->
  Scene.Map_get (recorded l) (Scene.key m) = Some (Scene.opacity m).
Proof.
  induction l as [| a l IH]; intros Hnd Hin; [destruct Hin |].
  simpl. simpl in Hnd.
  apply List.NoDup_cons_iff in Hnd. destruct Hnd as [Hfresh Hnd].
  destruct Hin as [-> | Hin].
  - rewrite Nat.eqb_refl. reflexivity.
  - destruct (Nat.eqb_spec (Scene.key a) (Scene.key m)) as [Heq | Hne].
    + exfalso. apply Hfresh. rewrite Heq. apply in_map, Hin.
    + apply IH; assumption.
Qed.

(** The first visible frame: every base opacity is recorded as its
    material is met. *)
Lemma fade_first (k : R) (mats pre done : list Scene.Material) :
  List.NoDup (map Scene.key (pre ++ mats)) ->
  fold_left (Scene.fadeMaterial k) mats (done, recorded pre)
  = (done ++ map (faded k) mats, recorded (pre ++ mats)).
Proof.
  revert pre done. induction mats as [| m mats IH]; intros pre done Hnd.
  - cbn. rewrite !app_nil_r. reflexivity.
  - cbn [fold_left]. unfold Scene.fadeMaterial at 2.
    assert (Hnone : Scene.Map_get (recorded pre) (Scene.key m) = None).
    { apply Map_get_recorded_None. intros Hin.
      rewrite map_app in Hnd. apply List.NoDup_remove_2 in Hnd.
      apply Hnd. apply in_or_app. left. exact Hin. }
    rewrite Hnone.
    assert (Hrec : recorded pre ++ [(Scene.key m, Scene.opacity m)] = recorded (pre ++ [m])).
    { unfold recorded. rewrite map_app. reflexivity. }
    rewrite Hrec.
    assert (Hnd' : List.NoDup (map Scene.key ((pre ++ [m]) ++ mats))).
    { rewrite <- app_assoc. exact Hnd. }
    assert (Hsome : Scene.Map_get (recorded (pre ++ [m])) (Scene.key m)
                    = Some (Scene.opacity m)).
    { apply Map_get_recorded.
      - rewrite map_app in Hnd'. apply List.NoDup_app_remove_r in Hnd'. exact Hnd'.
      - apply in_or_app. right. left. reflexivity. }
    rewrite Hsome. cbn [default from_option]. unfold Datatypes.id.
    rewrite (IH (pre ++ [m]) _ Hnd').
    rewrite <- !app_assoc. reflexivity.
Qed.

(** A later visible frame: the record is complete and stays as it is. *)
Lemma fade_again (k : R) (mounted mats done : list Scene.Material) :
  List.NoDup (map Scene.key mounted) ->
  (forall m, In m mats -> exists m0, In m0 mounted /\ Scene.key m0 = Scene.key m) ->
  fold_left (Scene.fadeMaterial k) mats (done, recorded mounted)
  = (done ++ map (fun m =>
                    {| Scene.key := Scene.key m;
                       Scene.opacity :=
                         default (Scene.opacity m)
                           (Scene.Map_get (recorded mounted) (Scene.key m)) * k;
                       Scene.transparent := true; Scene.needsUpdate := true |}) mats,
     recorded mounted).
Proof.
  intros Hnd. revert done. induction mats as [| m mats IH]; intros done Hkeys.
  - cbn. rewrite app_nil_r. reflexivity.
  - cbn [fold_left]. unfold Scene.fadeMaterial at 2.
    destruct (Hkeys m (or_introl eq_refl)) as (m0 & Hin0 & Hk0).
    pose proof (Map_get_recorded mounted m0 Hnd Hin0) as Hsome. rewrite Hk0 in Hsome.
    rewrite Hsome. rewrite IH by (intros m' Hm'; apply Hkeys; right; exact Hm').
    cbn [map]. rewrite Hsome. rewrite <- app_assoc. reflexivity.
Qed.

Lemma same_keys_faded (k : R) (mounted mats : list Scene.Material) :
  List.NoDup (map Scene.key mounted) ->
  map Scene.key mats = map Scene.key mounted ->
  map (fun m =>
         {| Scene.key := Scene.key m;
            Scene.opacity :=
              default (Scene.opacity m) (Scene.Map_get (recorded mounted) (Scene.key m)) * k;
            Scene.transparent := true; Scene.needsUpdate := true |}) mats
  = map (faded k) mounted.
Proof.
  intros Hnd Hkeys.
  set (h := fun key =>
              {| Scene.key := key;
                 Scene.opacity := default 0 (Scene.Map_get (recorded mounted) key) * k;
                 Scene.transparent := true; Scene.needsUpdate := true |}).
  assert (Hin : forall m, In (Scene.key m) (map Scene.key mounted) ->
                  exists o, Scene.Map_get (recorded mounted) (Scene.key m) = Some o).
  { intros m Hm. apply in_map_iff in Hm. destruct Hm as (m0 & Hk & Hm0).
    exists (Scene.opacity m0). rewrite <- Hk. apply Map_get_recorded; assumption. }
  transitivity (map h (map Scene.key mats)).
  - rewrite map_map. apply map_ext_in. intros m Hm.
    destruct (Hin m) as [o Ho].
    { rewrite <- Hkeys. apply in_map, Hm. }
    unfold h. rewrite Ho. reflexivity.
  - rewrite Hkeys, map_map. apply map_ext_in. intros m Hm.
    unfold h, faded. rewrite (Map_get_recorded mounted m Hnd Hm). reflexivity.
Qed.

Lemma faded_keys (k : R) (l : list Scene.Material) :
  map Scene.key (map (faded k) l) = map Scene.key l.
Proof. rewrite map_map. reflexivity. Qed.

(** One frame keeps the invariant, and a visible frame leaves every
    material at its mounted opacity times the fade opacity. *)
Lemma fadeFrame_invariant (mounted : list Scene.Material) (sp : R) (s : Scene.FadeState) :
  List.NoDup (map Scene.key mounted) ->
  fade_invariant mounted s ->
  fade_invariant mounted (Scene.fadeFrame sp s) /\
  (Scene.fadeOpacity sp > 0.01 ->
   exists g, Scene.coreGroupRef (Scene.fadeFrame sp s) = Some g /\
             Scene.visible g = true /\
             Scene.materials g = map (faded (Scene.fadeOpacity sp)) mounted).
Proof.
  intros Hnd (g & Hg & Hkeys & Hbase).
  unfold Scene.fadeFrame. rewrite Hg.
  destruct (Rgt_dec (Scene.fadeOpacity sp) 0.01) as [Hvis | Hinv]; cbn [negb].
  - assert (Hfold : fold_left (Scene.fadeMaterial (Scene.fadeOpacity sp)) (Scene.materials g)
                      ([], Scene.baseOpacities s)
                    = (map (faded (Scene.fadeOpacity sp)) mounted, recorded mounted)).
    { destruct Hbase as [[Hnil Hmats] | Hrec].
      - rewrite Hnil, Hmats. change (@nil (nat * R)) with (recorded []).
        rewrite fade_first by exact Hnd. reflexivity.
      - rewrite Hrec, fade_again; [| exact Hnd |].
        + cbn [app]. rewrite same_keys_faded by assumption. reflexivity.
        + intros m Hm. apply (in_map Scene.key) in Hm. rewrite Hkeys in Hm.
          apply in_map_iff in Hm. destruct Hm as (m0 & Hk & Hm0). exists m0. auto. }
    rewrite Hfold. split.
    + eexists. split; [reflexivity |]. cbn [Scene.materials Scene.baseOpacities].
      split; [apply faded_keys | right; reflexivity].
    + intros _. eexists. split; [reflexivity |]. split; reflexivity.
  - split; [| intros; lra].
    eexists. split; [reflexivity |]. cbn [Scene.materials Scene.baseOpacities].
    split; [exact Hkeys | exact Hbase].
Qed.

(** X26. The fade remembers each material's opacity at first encounter, so
    scrolling is reversible: for a core group whose materials are distinct
    objects, after any sequence of frames that ends in a visible one every
    material's opacity is its mounted opacity times the current fade
    opacity, whatever was shown in between; back at the top of the page
    (fade opacity 1) the mounted opacities are restored. *)
Theorem fade_restores_opacity (mounted : list Scene.Material) (before : list R) (sp : R) :
  List.NoDup (map Scene.key mounted) ->
  Scene.fadeOpacity sp > 0.01 ->
  exists g,
    Scene.coreGroupRef (fadeFrames (before ++ [sp]) (freshCore mounted)) = Some g /\
    Scene.visible g = true /\
    Scene.materials g = map (faded (Scene.fadeOpacity sp)) mounted /\
    (sp <= 0.08 -> map Scene.opacity (Scene.materials g) = map Scene.opacity mounted).
Proof.
  intros Hnd Hvis.
  assert (Hinv : forall before s, fade_invariant mounted s ->
                   fade_invariant mounted (fadeFrames before s)).
  { clear before. induction before as [| sp0 before IH]; intros s Hs; [exact Hs |].
    unfold fadeFrames. cbn [fold_left].
    apply IH. apply fadeFrame_invariant; assumption. }
  unfold fadeFrames. rewrite fold_left_app. cbn [fold_left].
  fold (fadeFrames before (freshCore mounted)).
  assert (H0 : fade_invariant mounted (freshCore mounted)).
  { eexists. split; [reflexivity |]. split; [reflexivity |]. left. split; reflexivity. }
  destruct (fadeFrame_invariant mounted sp _ Hnd (Hinv before _ H0)) as [_ Hlast].
  destruct (Hlast Hvis) as (g & Hg & Hv & Hm).
  exists g. split; [exact Hg |]. split; [exact Hv |]. split; [exact Hm |].
  intros Htop. rewrite Hm, map_map. apply map_ext. intros m.
  unfold faded. cbn [Scene.opacity]. rewrite (fadeOpacity_before sp Htop). lra.
Qed.

Lemma fade_restores_opacity_witness :
  exists g,
    Scene.coreGroupRef
      (fadeFrames ([0.2; 0.9] ++ [0])
         (freshCore
            [ {| Scene.key := 1; Scene.opacity := 0.85; Scene.transparent := true;
                 Scene.needsUpdate := false |};
              {| Scene.key := 2; Scene.opacity := 0.12; Scene.transparent := true;
                 Scene.needsUpdate := false |} ]))
    = Some g /\
    Scene.visible g = true.
Proof.
  destruct (fade_restores_opacity
              [ {| Scene.key := 1; Scene.opacity := 0.85; Scene.transparent := true;
                   Scene.needsUpdate := false |};
                {| Scene.key := 2; Scene.opacity := 0.12; Scene.transparent := true;
                   Scene.needsUpdate := false |} ]
              [0.2; 0.9] 0)
    as (g & Hg & Hv & _).
  - cbn [map Scene.key]. repeat constructor; cbn [In]; intuition lia.
  - rewrite fadeOpacity_before by lra. lra.
  - exists g. split; [exact Hg | exact Hv].
Defined.

(** ** Device sniffing: what counts as a mobile user agent *)

Lemma starts_with_lit (word found rest : string) :
  lowercase word = lowercase found ->
  RegExp.starts_with (RegExp.lit word) (found ++ rest)%string = true.
Proof.
  revert found. induction word as [| c word IH]; intros found Hlow.
  - reflexivity.
  - destruct found as [| c' found]; [discriminate |].
    cbn [lowercase] in Hlow. injection Hlow as Hc Hrest.
    unfold RegExp.lit. cbn [list_ascii_of_string map String.append RegExp.starts_with].
    unfold RegExp.atom_test. rewrite Hc, Ascii.eqb_refl. cbn [andb].
    apply IH, Hrest.
Qed.

Lemma search_starts_with (p : list RegExp.atom) (s : string) :
  RegExp.starts_with p s = true -> RegExp.search p s = true.
Proof.
  intros H. destruct s; cbn [RegExp.search]; rewrite H; reflexivity.
Qed.

Lemma search_after (p : list RegExp.atom) (before s : string) :
  RegExp.search p s = true -> RegExp.search p (before ++ s)%string = true.
Proof.
  intros H. induction before as [| c before IH]; [exact H |].
  cbn [String.append RegExp.search]. rewrite IH. apply orb_true_r.
Qed.

Lemma mobilePattern_words : RegExp.mobilePattern = map RegExp.lit mobileWords.
Proof. reflexivity. Qed.

(** X27. A user agent that contains one of the eight words of the mobile
    pattern, in any letter case and at any place, counts as mobile: the
    energy core then detects the low quality and the particle field keeps
    30% of its base count, whatever the pixel ratio. *)
Theorem mobile_user_agent (word found before rest : string) (gl : Device.WebGLRenderer)
    (base : R) :
  In word mobileWords ->
  lowercase found = lowercase word ->
  let userAgent := (before ++ found ++ rest)%string in
  let env := {| Device.navigator_userAgent := Some userAgent; Device.gl := gl |} in
  RegExp.test RegExp.mobilePattern userAgent = true /\
  EnergyCore.useDeviceQuality env = EnergyCore.low /\
  Particles.useAdaptiveCount base None env = JS.Math_floor (base * 0.3).
Proof.
  intros Hword Hlow userAgent env.
  assert (Htest : RegExp.test RegExp.mobilePattern userAgent = true).
  { unfold RegExp.test. apply existsb_exists. exists (RegExp.lit word). split.
    - rewrite mobilePattern_words. apply in_map, Hword.
    - apply search_after, search_starts_with, starts_with_lit. symmetry. exact Hlow. }
  split; [exact Htest |].
  unfold EnergyCore.useDeviceQuality, Particles.useAdaptiveCount.
  cbn [Device.navigator_userAgent env]. rewrite Htest. cbn [orb]. split; reflexivity.
Qed.

Lemma mobile_user_agent_witness :
  RegExp.test RegExp.mobilePattern ("Mozilla/5.0 (" ++ "IPHONE" ++ "; CPU OS 17)")%string = true.
Proof.
  exact (proj1 (mobile_user_agent "iPhone" "IPHONE" "Mozilla/5.0 (" "; CPU OS 17)"
                  {| Device.getPixelRatio := 3; Device.getContext := Device.Throw |} 2000
                  ltac:(cbn; tauto) eq_refl)).
Defined.

(** ** Camera smoothing at sample inputs *)

Lemma camera_frame_rate_independent_witness :
  Scene.currentPos
    (Scene.cameraRun Hooks.initialPosition 0.5 [0.1; 0.2] Scene.initialCameraState)
  = Scene.currentPos
      (Scene.cameraRun Hooks.initialPosition 0.5 [0.3] Scene.initialCameraState).
Proof.
  apply (camera_frame_rate_independent Hooks.initialPosition 0.5 [0.1; 0.2] [0.3]
           Scene.initialCameraState _ eq_refl).
  unfold total; cbn [fold_right]. lra.
Defined.

Lemma camera_frame_monotone_witness :
  0 <= Scene.vz (offset (cameraTarget Hooks.initialPosition 0.5)
                   (Scene.currentPos
                      (Scene.cameraFrame Hooks.initialPosition 0.5 0.016
                         Scene.initialCameraState)))
    <= Scene.vz (offset (cameraTarget Hooks.initialPosition 0.5)
                   (Scene.currentPos Scene.initialCameraState)).
Proof.
  apply (proj1 (proj2 (proj2 (proj2 (proj2
    (camera_frame_monotone Hooks.initialPosition 0.5 0.016 Scene.initialCameraState _
       eq_refl ltac:(lra))))))).
  unfold offset, cameraTarget, Scene.initialCameraState, Scene.CAMERA_CONFIG.initialZ.
  cbn [Scene.vz Scene.currentPos]. lra.
Defined.

Lemma camera_converges_witness :
  exists T, forall deltas, T <= total deltas ->
    Rabs (Scene.vz (offset (cameraTarget Hooks.initialPosition 0.5)
                      (Scene.currentPos
                         (Scene.cameraRun Hooks.initialPosition 0.5 deltas
                            Scene.initialCameraState)))) < 0.01.
Proof.
  destruct (camera_converges Hooks.initialPosition 0.5 Scene.initialCameraState _ 0.01
              eq_refl ltac:(lra)) as [T HT].
  exists T. intros deltas Hd. exact (proj2 (proj2 (HT deltas Hd))).
Defined.
